(** * SafeCity crime-mapping core: geoUtils and insightService

    A shallow embedding of the geospatial utilities (grid partitioning,
    hotspot detection, haversine distance, radius search, clustering,
    bounds and centroid) and of the insight service (hour, day, month,
    category and area statistics), followed by the properties proved
    about them.

    Conventions of the embedding.

    - A JavaScript [number] that holds a coordinate, a cell size or a
      percentage is an exact rational ([Q]); the trigonometry of
      [haversineDistance] is carried out in the reals ([R]) on the
      injection of those rationals.  Rounding of IEEE doubles is not
      modelled: the model and the program agree wherever every
      intermediate value is exactly representable (for instance on
      dyadic coordinates such as 0.25, 0.5, 1.25, which the examples and
      counterexamples use).  On decimal fractions such as the 0.05 of
      [DEFAULT_GRID_CONFIG] the repeated addition of [createGrid] is
      exact here and rounded in the program, so the number of cells and
      the fate of a record on a cell edge may differ (the module
      [Float64Replay] shows both on the default configuration); the
      statements below do not depend on the values the loop variables
      take: they speak of the cells of whatever grid was generated.
    - A JavaScript [number] that holds a count or an array index is a
      [nat]; the result of [parseInt] is [option Z] ([None] is NaN).
    - [new Date()] reads the wall clock: every function that calls it
      takes the clock reading [now] (milliseconds) as an argument.
    - A [for] loop whose trip count is not bounded by the size of a data
      structure takes a [fuel] argument and returns [None] when the fuel
      runs out; lemmas below show which fuel suffices.
    - [Array.prototype.sort] is a stable sort (ECMAScript 2019); with the
      comparator [(a, b) => key(b) - key(a)] it is modelled by a stable
      insertion sort in descending key order, which returns the only
      list a stable descending sort can return ([sortDesc_unique]).
    - The module [Float64] repeats the loops of the grid on IEEE doubles
      to replay the examples bit for bit. *)

From Stdlib Require Import QArith Qround Reals Machin Psatz Permutation Ascii.
From Stdlib Require PrimFloat.
From stdpp Require Import base list sorting strings pretty gmap.

Set Default Proof Using "Type".

(** ** Array.prototype.sort with a descending numeric comparator *)

Section SortDesc.
Context {A : Type} (key : A -> nat).

(** [insertDesc x l] places [x] in the descending list [l] in front of
    the first element whose key does not exceed [key x]. *)
Fixpoint insertDesc (x : A) (l : list A) : list A :=
  match l with
  | [] => [x]
  | y :: l' => if (key x <? key y)%nat then y :: insertDesc x l'
               else x :: y :: l'
  end.

(** [arr.sort((a, b) => key(b) - key(a))] *)
Definition sortDesc (l : list A) : list A := foldr insertDesc [] l.

(** The order a stable descending sort establishes: larger key first
    and, among equal keys, the order [before] of the input. *)
Definition descThenBefore (before : A -> A -> Prop) (a b : A) : Prop :=
  (key b < key a)%nat \/ (key a = key b /\ before a b).
End SortDesc.

(** ** Data model *)

(** A [Date] object, seen through the observations the code makes of it:
    its time value and the local-time results of [getDay()] and
    [getMonth()]. *)
Module JSDate.
Record t : Type := mk {
  getTime : Z;
  getDay : nat;     (* 0 = Sunday .. 6 = Saturday *)
  getMonth : nat    (* 0 = January .. 11 = December *)
}.
End JSDate.

Module FIR.
Record t : Type := mk {
  id : string;
  crimeType : string;
  date : JSDate.t;
  time : string;
  latitude : Q;
  longitude : Q;
  area : string;
  zone : string;
  policeStation : string;
  description : option string;
  isAccident : bool;
  isSensitiveZone : bool
}.
End FIR.

Module GridCell.
Record t : Type := mk {
  id : string;
  minLat : Q;
  maxLat : Q;
  minLng : Q;
  maxLng : Q;
  centerLat : Q;
  centerLng : Q;
  firCount : nat;
  firs : list FIR.t
}.
End GridCell.

Module GridConfig.
Record t : Type := mk {
  latGridSize : Q;
  lngGridSize : Q;
  minLat : Q;
  maxLat : Q;
  minLng : Q;
  maxLng : Q
}.
End GridConfig.

Inductive Severity : Type := low | medium | high.

Module Hotspot.
Record t : Type := mk {
  zoneId : string;
  zoneName : string;
  centerLat : Q;
  centerLng : Q;
  firCount : nat;
  severity : Severity;
  percentage : Q;
  lastUpdated : Z
}.
End Hotspot.

(** [ZONE_DENSITY_THRESHOLDS] is imported from [config/constants]; the
    functions below take it as an argument. *)
Module Thresholds.
Record t : Type := mk { medium : nat; high : nat }.
End Thresholds.

(** Default grid configuration for Delhi, India *)
Definition DEFAULT_GRID_CONFIG : GridConfig.t :=
  {| GridConfig.latGridSize := 5 # 100;
     GridConfig.lngGridSize := 5 # 100;
     GridConfig.minLat := 284 # 10;
     GridConfig.maxLat := 289 # 10;
     GridConfig.minLng := 768 # 10;
     GridConfig.maxLng := 774 # 10 |}.

(** ** Grid partitioner *)

Definition Qlt_bool (x y : Q) : bool := negb (Qle_bool y x).

(** The cell identifier [`GRID_${cellId}`]. *)
Definition gridId (cellId : nat) : string := "GRID_" +:+ pretty cellId.

(** The object pushed by the body of the inner loop of [createGrid]. *)
Definition newCell (config : GridConfig.t) (cellId : nat) (lat lng : Q)
  : GridCell.t :=
  let minLat := lat in
  let maxLat := (lat + GridConfig.latGridSize config)%Q in
  let minLng := lng in
  let maxLng := (lng + GridConfig.lngGridSize config)%Q in
  {| GridCell.id := gridId cellId;
     GridCell.minLat := minLat;
     GridCell.maxLat := maxLat;
     GridCell.minLng := minLng;
     GridCell.maxLng := maxLng;
     GridCell.centerLat := ((minLat + maxLat) / 2)%Q;
     GridCell.centerLng := ((minLng + maxLng) / 2)%Q;
     GridCell.firCount := 0;
     GridCell.firs := [] |}.

(** The inner loop of [createGrid]: the cells of one row, from longitude
    [lng] on, numbered from [cellId]. *)
Fixpoint lngLoop (fuel : nat) (config : GridConfig.t) (lat lng : Q)
    (cellId : nat) : option (list GridCell.t) :=
  match fuel with
  | O => None
  | S fuel' =>
      if Qlt_bool lng (GridConfig.maxLng config) then
        rest ← lngLoop fuel' config lat
                 (lng + GridConfig.lngGridSize config)%Q (S cellId);
        Some (newCell config cellId lat lng :: rest)
      else Some []
  end.

(** The outer loop of [createGrid]: the rows from latitude [lat] on. *)
Fixpoint latLoop (fuel inner : nat) (config : GridConfig.t) (lat : Q)
    (cellId : nat) : option (list GridCell.t) :=
  match fuel with
  | O => None
  | S fuel' =>
      if Qlt_bool lat (GridConfig.maxLat config) then
        row ← lngLoop inner config lat (GridConfig.minLng config) cellId;
        rest ← latLoop fuel' inner config
                 (lat + GridConfig.latGridSize config)%Q
                 (cellId + length row);
        Some (row ++ rest)
      else Some []
  end.

Definition createGrid (fuel : nat) (config : GridConfig.t)
  : option (list GridCell.t) :=
  latLoop fuel fuel config (GridConfig.minLat config) 0.

(** The containment test of [assignFIRsToGrid]. *)
Definition cellContains (cell : GridCell.t) (fir : FIR.t) : bool :=
  Qle_bool (GridCell.minLat cell) (FIR.latitude fir)
  && Qlt_bool (FIR.latitude fir) (GridCell.maxLat cell)
  && Qle_bool (GridCell.minLng cell) (FIR.longitude fir)
  && Qlt_bool (FIR.longitude fir) (GridCell.maxLng cell).

(** [cell.firs.push(fir); cell.firCount++] *)
Definition pushFIR (cell : GridCell.t) (fir : FIR.t) : GridCell.t :=
  {| GridCell.id := GridCell.id cell;
     GridCell.minLat := GridCell.minLat cell;
     GridCell.maxLat := GridCell.maxLat cell;
     GridCell.minLng := GridCell.minLng cell;
     GridCell.maxLng := GridCell.maxLng cell;
     GridCell.centerLat := GridCell.centerLat cell;
     GridCell.centerLng := GridCell.centerLng cell;
     GridCell.firCount := S (GridCell.firCount cell);
     GridCell.firs := GridCell.firs cell ++ [fir] |}.

(** One pass of [for (const cell of grid)] for a single record: the first
    cell that contains the record is updated and the scan stops. *)
Fixpoint assignFIR (fir : FIR.t) (grid : list GridCell.t)
  : list GridCell.t :=
  match grid with
  | [] => []
  | cell :: rest =>
      if cellContains cell fir then pushFIR cell fir :: rest
      else cell :: assignFIR fir rest
  end.

(** [assignFIRsToGrid] mutates the cells of [grid] in place; here the
    updated grid is returned. *)
Definition assignFIRsToGrid (firs : list FIR.t) (grid : list GridCell.t)
  : list GridCell.t :=
  fold_left (fun g fir => assignFIR fir g) firs grid.

(** ** Hotspot classifier *)

Definition classifyBySeverity (th : Thresholds.t) (firCount : nat)
  : Severity :=
  if (Thresholds.high th <=? firCount)%nat then high
  else if (Thresholds.medium th <=? firCount)%nat then medium
  else low.

(** [str.replace(pat, '')]: the first occurrence of [pat] is removed. *)
Fixpoint removeFirst (pat s : string) : string :=
  if String.prefix pat s then
    String.substring (String.length pat) (String.length s - String.length pat) s
  else match s with
       | EmptyString => EmptyString
       | String c s' => String c (removeFirst pat s')
       end.

(** The hotspot built from a populated cell. *)
Definition toHotspot (th : Thresholds.t) (now : Z) (totalFIRs : nat)
    (cell : GridCell.t) : Hotspot.t :=
  {| Hotspot.zoneId := GridCell.id cell;
     Hotspot.zoneName := "Zone " +:+ removeFirst "GRID_" (GridCell.id cell);
     Hotspot.centerLat := GridCell.centerLat cell;
     Hotspot.centerLng := GridCell.centerLng cell;
     Hotspot.firCount := GridCell.firCount cell;
     Hotspot.severity := classifyBySeverity th (GridCell.firCount cell);
     Hotspot.percentage :=
       (inject_Z (Z.of_nat (GridCell.firCount cell))
        / inject_Z (Z.of_nat totalFIRs) * 100)%Q;
     Hotspot.lastUpdated := now |}.

(** The [grid.forEach] of [detectHotspots]: one hotspot per cell with
    [firCount > 0], in grid order. *)
Definition collectHotspots (th : Thresholds.t) (now : Z) (totalFIRs : nat)
    (grid : list GridCell.t) : list Hotspot.t :=
  omap (fun cell =>
          if (0 <? GridCell.firCount cell)%nat
          then Some (toHotspot th now totalFIRs cell) else None) grid.

(** [detectHotspots(firs, config = DEFAULT_GRID_CONFIG)]; an omitted
    [config] is [None]. *)
Definition detectHotspots (th : Thresholds.t) (now : Z) (fuel : nat)
    (firs : list FIR.t) (config : option GridConfig.t)
  : option (list Hotspot.t) :=
  let config := default DEFAULT_GRID_CONFIG config in
  if (length firs =? 0)%nat then Some []
  else
    grid ← createGrid fuel config;
    let grid := assignFIRsToGrid firs grid in
    let totalFIRs := length firs in
    let hotspots := collectHotspots th now totalFIRs grid in
    Some (sortDesc Hotspot.firCount hotspots).

(** ** Distance primitive *)

(** [Math.sqrt]: NaN ([None]) on a negative argument. *)
Definition jsSqrt (x : R) : option R :=
  if Rlt_dec x 0 then None else Some (sqrt x).

(** [Math.atan2(y, x)] on finite arguments. *)
Definition atan2 (y x : R) : R :=
  if Rlt_dec 0 x then atan (y / x)
  else if Rlt_dec x 0 then
    if Rlt_dec y 0 then (atan (y / x) - PI)%R else (atan (y / x) + PI)%R
  else if Rlt_dec 0 y then (PI / 2)%R
  else if Rlt_dec y 0 then (- (PI / 2))%R
  else 0%R.

(** Converts degrees to radians *)
Definition toRad (degrees : R) : R := (degrees * PI / 180)%R.

(** Haversine distance in kilometres; [None] is NaN. *)
Definition haversineDistance (lat1 lng1 lat2 lng2 : R) : option R :=
  let R_ := 6371%R in
  let dLat := toRad (lat2 - lat1) in
  let dLng := toRad (lng2 - lng1) in
  let a :=
    (sin (dLat / 2) * sin (dLat / 2) +
     cos (toRad lat1) * cos (toRad lat2) * sin (dLng / 2) * sin (dLng / 2))%R in
  sa ← jsSqrt a;
  sb ← jsSqrt (1 - a);
  let c := (2 * atan2 sa sb)%R in
  Some (R_ * c)%R.

(** ** Proximity engine *)

Definition Rle_bool (x y : R) : bool := if Rle_dec x y then true else false.

(** [distance <= radiusKm]; a comparison with NaN is false. *)
Definition withinRadius (distance : option R) (radiusKm : Q) : bool :=
  match distance with
  | Some d => Rle_bool d (Q2R radiusKm)
  | None => false
  end.

Definition findNearbyFIRs (firs : list FIR.t) (centerLat centerLng : Q)
    (radiusKm : Q) : list FIR.t :=
  List.filter
    (fun fir =>
       let distance :=
         haversineDistance (Q2R centerLat) (Q2R centerLng)
           (Q2R (FIR.latitude fir)) (Q2R (FIR.longitude fir)) in
       withinRadius distance radiusKm)
    firs.

(** The body of [nearby.forEach] in [clusterFIRs], on the pair of the
    cluster under construction and the visited set. *)
Definition visitNearby (st : list FIR.t * gset string) (nearFir : FIR.t)
  : list FIR.t * gset string :=
  let '(cluster, visited) := st in
  if decide (FIR.id nearFir ∈ visited) then st
  else (cluster ++ [nearFir], {[FIR.id nearFir]} ∪ visited).

(** The body of [firs.forEach] in [clusterFIRs], on the pair of the
    clusters found so far and the visited set. *)
Definition clusterStep (firs : list FIR.t) (radiusKm : Q)
    (st : list (list FIR.t) * gset string) (fir : FIR.t)
  : list (list FIR.t) * gset string :=
  let '(clusters, visited) := st in
  if decide (FIR.id fir ∈ visited) then st
  else
    let cluster := [fir] in
    let visited := {[FIR.id fir]} ∪ visited in
    let nearby :=
      findNearbyFIRs firs (FIR.latitude fir) (FIR.longitude fir) radiusKm in
    let '(cluster, visited) := fold_left visitNearby nearby (cluster, visited) in
    if (0 <? length cluster)%nat then (clusters ++ [cluster], visited)
    else (clusters, visited).

(** [clusterFIRs(firs, radiusKm = 0.5)]; an omitted radius is [None]. *)
Definition clusterFIRs (firs : list FIR.t) (radiusKm : option Q)
  : list (list FIR.t) :=
  let radiusKm := default (1 # 2) radiusKm in
  let '(clusters, _) := fold_left (clusterStep firs radiusKm) firs ([], ∅) in
  sortDesc length clusters.

(** ** Bounds and centroid *)

Module Bounds.
Record t : Type := mk { minLat : Q; maxLat : Q; minLng : Q; maxLng : Q }.
End Bounds.

Module LatLng.
Record t : Type := mk { lat : Q; lng : Q }.
End LatLng.

(** [Math.min] and [Math.max] on two finite numbers. *)
Definition jsMin (x y : Q) : Q := if Qle_bool x y then x else y.
Definition jsMax (x y : Q) : Q := if Qle_bool x y then y else x.

Definition calculateBounds (firs : list FIR.t) : Bounds.t :=
  match firs with
  | [] =>
      {| Bounds.minLat := GridConfig.minLat DEFAULT_GRID_CONFIG;
         Bounds.maxLat := GridConfig.maxLat DEFAULT_GRID_CONFIG;
         Bounds.minLng := GridConfig.minLng DEFAULT_GRID_CONFIG;
         Bounds.maxLng := GridConfig.maxLng DEFAULT_GRID_CONFIG |}
  | first :: _ =>
      fold_left
        (fun b fir =>
           {| Bounds.minLat := jsMin (Bounds.minLat b) (FIR.latitude fir);
              Bounds.maxLat := jsMax (Bounds.maxLat b) (FIR.latitude fir);
              Bounds.minLng := jsMin (Bounds.minLng b) (FIR.longitude fir);
              Bounds.maxLng := jsMax (Bounds.maxLng b) (FIR.longitude fir) |})
        firs
        {| Bounds.minLat := FIR.latitude first;
           Bounds.maxLat := FIR.latitude first;
           Bounds.minLng := FIR.longitude first;
           Bounds.maxLng := FIR.longitude first |}
  end.

(** [getCenter]: [None] is the [null] result. *)
Definition getCenter (firs : list FIR.t) : option LatLng.t :=
  if (length firs =? 0)%nat then None
  else
    let '(sumLat, sumLng) :=
      fold_left
        (fun '(sumLat, sumLng) fir =>
           ((sumLat + FIR.latitude fir)%Q, (sumLng + FIR.longitude fir)%Q))
        firs (0%Q, 0%Q) in
    Some {| LatLng.lat := (sumLat / inject_Z (Z.of_nat (length firs)))%Q;
            LatLng.lng := (sumLng / inject_Z (Z.of_nat (length firs)))%Q |}.

(** ** Insight service *)

(** *** String and object primitives used by the service

    Strings are sequences of ASCII characters.  A plain object used as a
    dictionary with string keys is a list of key/value pairs in insertion
    order; keys that name a property of [Object.prototype]
    ([objectPrototypeKeys] below) are outside the model: reading such a
    key from a fresh object yields the inherited value, not [undefined].
    The statements about such dictionaries assume that no key is one of
    them. *)

(** [s.split(sep)[0]]: the part of [s] in front of the first [sep]. *)
Fixpoint splitHead (sep : Ascii.ascii) (s : string) : string :=
  match s with
  | EmptyString => EmptyString
  | String c s' =>
      if Ascii.eqb c sep then EmptyString else String c (splitHead sep s')
  end.

Definition isWhiteSpace (c : Ascii.ascii) : bool :=
  let n := Ascii.nat_of_ascii c in
  ((9 <=? n)%nat && (n <=? 13)%nat) || (n =? 32)%nat.

Fixpoint skipWhiteSpace (s : string) : string :=
  match s with
  | EmptyString => EmptyString
  | String c s' => if isWhiteSpace c then skipWhiteSpace s' else s
  end.

Definition digitOf (c : Ascii.ascii) : option Z :=
  let n := Z.of_nat (Ascii.nat_of_ascii c) in
  if ((48 <=? n)%Z && (n <=? 57)%Z) then Some (n - 48)%Z else None.

(** The value of the longest prefix of decimal digits of [s]; [acc] is
    the value read so far ([None] when no digit has been read). *)
Fixpoint readDigits (s : string) (acc : option Z) : option Z :=
  match s with
  | EmptyString => acc
  | String c s' =>
      match digitOf c with
      | Some d => readDigits s' (Some (10 * default 0%Z acc + d)%Z)
      | None => acc
      end
  end.

(** [parseInt(s, 10)]; [None] is NaN. *)
Definition parseInt10 (s : string) : option Z :=
  let s := skipWhiteSpace s in
  let '(sign, s) :=
    match s with
    | String "-"%char s' => ((-1)%Z, s')
    | String "+"%char s' => (1%Z, s')
    | _ => (1%Z, s)
    end in
  n ← readDigits s None;
  Some (sign * n)%Z.

(** [parseInt(fir.time.split(':')[0], 10)] *)
Definition hourOf (fir : FIR.t) : option Z :=
  parseInt10 (splitHead ":"%char (FIR.time fir)).

Definition JSObject : Type := list (string * nat).

(** The names of the properties of [Object.prototype]. *)
Definition objectPrototypeKeys : list string :=
  ["constructor"; "__defineGetter__"; "__defineSetter__"; "hasOwnProperty";
   "__lookupGetter__"; "__lookupSetter__"; "isPrototypeOf";
   "propertyIsEnumerable"; "toString"; "valueOf"; "__proto__";
   "toLocaleString"].

(** [obj[key] || 0] *)
Fixpoint objGet (obj : JSObject) (key : string) : nat :=
  match obj with
  | [] => 0
  | (k, v) :: obj' => if String.eqb k key then v else objGet obj' key
  end.

(** [obj[key] = v] *)
Fixpoint objSet (obj : JSObject) (key : string) (v : nat) : JSObject :=
  match obj with
  | [] => [(key, v)]
  | (k, w) :: obj' =>
      if String.eqb k key then (k, v) :: obj' else (k, w) :: objSet obj' key v
  end.

(** A key is an array index when it is the canonical decimal form of an
    integer below 2^32 - 1. *)
Definition arrayIndex (key : string) : option N :=
  match readDigits key None with
  | Some z =>
      let n := Z.to_N z in
      if String.eqb (pretty n) key && (n <? 4294967295)%N then Some n else None
  | None => None
  end.

Fixpoint insertIndex (e : N * (string * nat)) (l : list (N * (string * nat)))
  : list (N * (string * nat)) :=
  match l with
  | [] => [e]
  | e' :: l' => if (e.1 <? e'.1)%N then e :: e' :: l' else e' :: insertIndex e l'
  end.

(** [Object.entries(obj)]: array-index keys in ascending numeric order,
    then the other keys in insertion order. *)
Definition objectEntries (obj : JSObject) : list (string * nat) :=
  let indexed :=
    omap (fun e => i ← arrayIndex e.1; Some (i, e)) obj in
  let named :=
    List.filter (fun e => negb (bool_decide (is_Some (arrayIndex e.1)))) obj in
  map snd (foldr insertIndex [] indexed) ++ named.

(** *** Result types *)

Module HourCount.
Record t : Type := mk { hour : nat; count : nat }.
End HourCount.

Module DayCount.
Record t : Type := mk { day : string; count : nat }.
End DayCount.

Module TypeCount.
Record t : Type := mk { type : string; count : nat }.
End TypeCount.

Module MonthCount.
Record t : Type := mk { month : string; count : nat }.
End MonthCount.

Module AreaCount.
Record t : Type := mk { area : string; count : nat }.
End AreaCount.

Module CrimeInsight.
Record t : Type := mk {
  peakHours : list HourCount.t;
  dayWiseTrends : list DayCount.t;
  topCrimeTypes : list TypeCount.t;
  monthlyTrends : list MonthCount.t;
  areaStatistics : list AreaCount.t;
  predictedPeakHours : list nat;
  highRiskDays : list DayCount.t;
  totalFIRs : nat;
  totalHotspots : nat;
  generatedAt : Z
}.
End CrimeInsight.

(** *** The statistics *)

(** The [hourCounts] object of [getPeakHours], keyed by the parsed hour
    (the key [None] is the property ["NaN"]). *)
Definition hourCounts (firs : list FIR.t) : gmap (option Z) nat :=
  fold_left
    (fun (m : gmap (option Z) nat) fir =>
       let hour := hourOf fir in
       <[hour := (default 0 (m !! hour) + 1)%nat]> m)
    firs ∅.

Definition getPeakHours (firs : list FIR.t) : list HourCount.t :=
  let hourCounts := hourCounts firs in
  sortDesc HourCount.count
    (map (fun i =>
            {| HourCount.hour := i;
               HourCount.count := default 0 (hourCounts !! Some (Z.of_nat i)) |})
         (seq 0 24)).

Definition dayNames : list string :=
  ["Sunday"; "Monday"; "Tuesday"; "Wednesday"; "Thursday"; "Friday";
   "Saturday"].

Definition dayCounts (firs : list FIR.t) : gmap nat nat :=
  fold_left
    (fun (m : gmap nat nat) fir =>
       let day := JSDate.getDay (FIR.date fir) in
       <[day := (default 0 (m !! day) + 1)%nat]> m)
    firs ∅.

Definition getDayWiseTrends (firs : list FIR.t) : list DayCount.t :=
  let dayCounts := dayCounts firs in
  imap (fun index day =>
          {| DayCount.day := day;
             DayCount.count := default 0 (dayCounts !! index) |})
       dayNames.

Definition typeCounts (firs : list FIR.t) : JSObject :=
  fold_left
    (fun obj fir =>
       objSet obj (FIR.crimeType fir) (objGet obj (FIR.crimeType fir) + 1))
    firs [].

(** A JavaScript [number]: NaN, an infinity or a finite value. *)
Module JSNumber.
Inductive t : Type :=
| NaN
| Infinity
| NegInfinity
| Finite (q : Q).
End JSNumber.

(** The integer part of a rational, rounded towards zero. *)
Definition truncate (q : Q) : Z := Z.quot (Qnum q) (Z.pos (Qden q)).

(** [array.slice(0, end)].  The end is converted by ToIntegerOrInfinity
    (NaN becomes 0, a fraction is rounded towards zero); a negative end
    counts from the end of the array, and the result is clamped to the
    array. *)
Definition sliceTo {A : Type} (l : list A) (end_ : JSNumber.t) : list A :=
  match end_ with
  | JSNumber.NaN => take 0 l
  | JSNumber.NegInfinity => take 0 l
  | JSNumber.Infinity => take (length l) l
  | JSNumber.Finite q =>
      let relativeEnd := truncate q in
      if (relativeEnd <? 0)%Z then
        take (Z.to_nat (Z.max (Z.of_nat (length l) + relativeEnd) 0)) l
      else
        take (Z.to_nat (Z.min relativeEnd (Z.of_nat (length l)))) l
  end.

(** [getTopCrimeTypes(firs, limit = 10)]; an omitted limit is [None]. *)
Definition getTopCrimeTypes (firs : list FIR.t) (limit : option JSNumber.t)
  : list TypeCount.t :=
  let limit := default (JSNumber.Finite 10) limit in
  sliceTo
    (sortDesc TypeCount.count
       (map (fun '(type, count) =>
               {| TypeCount.type := type; TypeCount.count := count |})
            (objectEntries (typeCounts firs))))
    limit.

Definition monthNames : list string :=
  ["Jan"; "Feb"; "Mar"; "Apr"; "May"; "Jun";
   "Jul"; "Aug"; "Sep"; "Oct"; "Nov"; "Dec"].

Definition monthCounts (firs : list FIR.t) : gmap nat nat :=
  fold_left
    (fun (m : gmap nat nat) fir =>
       let month := JSDate.getMonth (FIR.date fir) in
       <[month := (default 0 (m !! month) + 1)%nat]> m)
    firs ∅.

Definition getMonthlyTrends (firs : list FIR.t) : list MonthCount.t :=
  let monthCounts := monthCounts firs in
  imap (fun index month =>
          {| MonthCount.month := month;
             MonthCount.count := default 0 (monthCounts !! index) |})
       monthNames.

Definition areaCounts (firs : list FIR.t) : JSObject :=
  fold_left
    (fun obj fir => objSet obj (FIR.area fir) (objGet obj (FIR.area fir) + 1))
    firs [].

Definition getAreaStatistics (firs : list FIR.t) : list AreaCount.t :=
  sortDesc AreaCount.count
    (map (fun '(area, count) =>
            {| AreaCount.area := area; AreaCount.count := count |})
         (objectEntries (areaCounts firs))).

(** Returns top 3 hours with highest crime *)
Definition getPredictedPeakHours (firs : list FIR.t) : list nat :=
  let peakHours := take 3 (getPeakHours firs) in
  map HourCount.hour peakHours.

Definition sumCounts (dayTrends : list DayCount.t) : nat :=
  fold_left (fun sum d => (sum + DayCount.count d)%nat) dayTrends 0%nat.

Definition generateInsights (now : Z) (firs : list FIR.t) : CrimeInsight.t :=
  let dayTrends := getDayWiseTrends firs in
  let avgDailyCount := (inject_Z (Z.of_nat (sumCounts dayTrends)) / 7)%Q in
  {| CrimeInsight.peakHours := getPeakHours firs;
     CrimeInsight.dayWiseTrends := dayTrends;
     CrimeInsight.topCrimeTypes := getTopCrimeTypes firs None;
     CrimeInsight.monthlyTrends := getMonthlyTrends firs;
     CrimeInsight.areaStatistics := getAreaStatistics firs;
     CrimeInsight.predictedPeakHours := getPredictedPeakHours firs;
     CrimeInsight.highRiskDays :=
       map (fun d => {| DayCount.day := DayCount.day d;
                        DayCount.count := DayCount.count d |})
           (List.filter
              (fun d => Qlt_bool avgDailyCount
                          (inject_Z (Z.of_nat (DayCount.count d))))
              dayTrends);
     CrimeInsight.totalFIRs := length firs;
     CrimeInsight.totalHotspots := 0;
     CrimeInsight.generatedAt := now |}.


(** ** Validation (utils/validation.ts) *)


(** ** Notions used in the statements *)

(** Sum of the [firCount] fields of a grid and of a hotspot list. *)
Definition gridCount (grid : list GridCell.t) : nat :=
  sum_list_with GridCell.firCount grid.

Definition hotspotCount (hotspots : list Hotspot.t) : nat :=
  sum_list_with Hotspot.firCount hotspots.

(** Some cell of [grid] contains the record. *)
Definition inSomeCell (grid : list GridCell.t) (fir : FIR.t) : bool :=
  existsb (fun cell => cellContains cell fir) grid.

(** The bounding region of a configuration, as a [bounds] object. *)
Definition configBounds (config : GridConfig.t) : Bounds.t :=
  {| Bounds.minLat := GridConfig.minLat config;
     Bounds.maxLat := GridConfig.maxLat config;
     Bounds.minLng := GridConfig.minLng config;
     Bounds.maxLng := GridConfig.maxLng config |}.


(** The record lies in the configured bounding region, the maximum
    latitude and the maximum longitude excluded. *)
Definition inHalfOpenRegion (config : GridConfig.t) (fir : FIR.t) : bool :=
  Qle_bool (GridConfig.minLat config) (FIR.latitude fir)
  && Qlt_bool (FIR.latitude fir) (GridConfig.maxLat config)
  && Qle_bool (GridConfig.minLng config) (FIR.longitude fir)
  && Qlt_bool (FIR.longitude fir) (GridConfig.maxLng config).

(** [stepsFrom n lo step] is the value of a loop variable that starts at
    [lo] after [n] executions of [x += step]. *)
Fixpoint stepsFrom (n : nat) (lo step : Q) : Q :=
  match n with
  | O => lo
  | S n' => stepsFrom n' (lo + step)%Q step
  end.

Definition positiveSizes (config : GridConfig.t) : Prop :=
  (0 < GridConfig.latGridSize config /\ 0 < GridConfig.lngGridSize config)%Q.

(** Hotspot [a] comes from a cell generated before the cell of [b]:
    their zone identifiers are GRID_p and GRID_q with [p < q]. *)
Definition generatedBefore (a b : Hotspot.t) : Prop :=
  exists p q : nat,
    (p < q)%nat /\ Hotspot.zoneId a = gridId p /\ Hotspot.zoneId b = gridId q.

(** ** Example inputs *)

Definition exampleThresholds : Thresholds.t :=
  {| Thresholds.medium := 5; Thresholds.high := 10 |}.

Definition exampleDate : JSDate.t :=
  {| JSDate.getTime := 1768867200000; JSDate.getDay := 2;
     JSDate.getMonth := 0 |}.

(** A record with the given identifier, time of day and position. *)
Definition exampleFIR (id time : string) (latitude longitude : Q) : FIR.t :=
  {| FIR.id := id; FIR.crimeType := "Theft"; FIR.date := exampleDate;
     FIR.time := time; FIR.latitude := latitude; FIR.longitude := longitude;
     FIR.area := "Downtown"; FIR.zone := "Zone A";
     FIR.policeStation := "Central PS"; FIR.description := None;
     FIR.isAccident := false; FIR.isSensitiveZone := false |}.

(** The region [0,1] x [0,1] with square cells of the given size. *)
Definition unitConfig (size : Q) : GridConfig.t :=
  {| GridConfig.latGridSize := size; GridConfig.lngGridSize := size;
     GridConfig.minLat := 0; GridConfig.maxLat := 1;
     GridConfig.minLng := 0; GridConfig.maxLng := 1 |}.

(** Six records around the unit region: four inside, one on the maximum
    latitude, one beyond it. *)
Definition exampleFIRs : list FIR.t :=
  [ exampleFIR "FIR001" "14:30" (1 # 4) (1 # 4);
    exampleFIR "FIR002" "09:45" (3 # 4) (3 # 4);
    exampleFIR "FIR003" "22:00" (3 # 4) (3 # 4);
    exampleFIR "FIR004" "14:05" 1 (1 # 4);
    exampleFIR "FIR005" "23:59" (5 # 4) (1 # 4);
    exampleFIR "FIR006" "22:10" (1 # 4) (3 # 4) ].

(** The record is within [radiusKm] of the center: its haversine
    distance to the center is a number (not NaN) and at most the
    radius. *)
Definition isNearby (centerLat centerLng radiusKm : Q) (fir : FIR.t) : Prop :=
  exists distance : R,
    haversineDistance (Q2R centerLat) (Q2R centerLng)
      (Q2R (FIR.latitude fir)) (Q2R (FIR.longitude fir)) = Some distance
    /\ (distance <= Q2R radiusKm)%R.

(** The state of the outer loop of [clusterFIRs] over the records
    [firs]: the visited set holds the identifiers of the clustered
    records, which are pairwise distinct; the clustered records are
    input records; no cluster is empty. *)
Definition clusterInv (firs : list FIR.t)
    (st : list (list FIR.t) * gset string) : Prop :=
  st.2 = list_to_set (FIR.id <$> concat st.1)
  /\ NoDup (FIR.id <$> concat st.1)
  /\ (forall fir, fir ∈ concat st.1 -> fir ∈ firs)
  /\ Forall (fun cluster => cluster <> []) st.1.

(** Sum of the cluster sizes. *)
Definition clusterSizes (clusters : list (list FIR.t)) : nat :=
  sum_list_with length clusters.

(** The number of records whose time of day parses to the hour [h]. *)
Definition hourCount (firs : list FIR.t) (h : nat) : nat :=
  length
    (List.filter (fun fir => bool_decide (hourOf fir = Some (Z.of_nat h)))
       firs).

(** Hour [a] ranks before hour [b]: it has more records, or as many and
    a smaller hour number. *)
Definition ranksBefore (firs : list FIR.t) (a b : nat) : Prop :=
  (hourCount firs b < hourCount firs a)%nat
  \/ (hourCount firs a = hourCount firs b /\ (a < b)%nat).

(** A hotspot and an insight bundle with the timestamp field cleared. *)
Definition withoutLastUpdated (h : Hotspot.t) : Hotspot.t :=
  {| Hotspot.zoneId := Hotspot.zoneId h;
     Hotspot.zoneName := Hotspot.zoneName h;
     Hotspot.centerLat := Hotspot.centerLat h;
     Hotspot.centerLng := Hotspot.centerLng h;
     Hotspot.firCount := Hotspot.firCount h;
     Hotspot.severity := Hotspot.severity h;
     Hotspot.percentage := Hotspot.percentage h;
     Hotspot.lastUpdated := 0 |}.

Definition withoutGeneratedAt (i : CrimeInsight.t) : CrimeInsight.t :=
  {| CrimeInsight.peakHours := CrimeInsight.peakHours i;
     CrimeInsight.dayWiseTrends := CrimeInsight.dayWiseTrends i;
     CrimeInsight.topCrimeTypes := CrimeInsight.topCrimeTypes i;
     CrimeInsight.monthlyTrends := CrimeInsight.monthlyTrends i;
     CrimeInsight.areaStatistics := CrimeInsight.areaStatistics i;
     CrimeInsight.predictedPeakHours := CrimeInsight.predictedPeakHours i;
     CrimeInsight.highRiskDays := CrimeInsight.highRiskDays i;
     CrimeInsight.totalFIRs := CrimeInsight.totalFIRs i;
     CrimeInsight.totalHotspots := CrimeInsight.totalHotspots i;
     CrimeInsight.generatedAt := 0 |}.

(** The record set of the repository's geoUtils tests. *)
Definition testFIRs : list FIR.t :=
  [ exampleFIR "FIR001" "14:30" (285355 # 10000) (773910 # 10000);
    exampleFIR "FIR002" "09:45" (285360 # 10000) (773920 # 10000);
    exampleFIR "FIR003" "22:00" (286000 # 10000) (774000 # 10000) ].

(** The record set of the repository's insightService tests. *)
Definition insightTestFIRs : list FIR.t :=
  [ exampleFIR "FIR001" "14:30" (285355 # 10000) (773910 # 10000);
    exampleFIR "FIR002" "22:00" (285360 # 10000) (773920 # 10000);
    exampleFIR "FIR003" "14:30" (285355 # 10000) (773910 # 10000) ].

(** ** Replay on IEEE doubles

    The two loops of [createGrid] and the scan of [assignFIRsToGrid] on
    binary64 numbers, reduced to the bounds of the cells.  They serve to
    replay the examples bit for bit and to record where rounding makes
    the program leave the exact model. *)
Module Float64.
Import PrimFloat.

Record GridCell : Type := mkCell {
  minLat : float;
  maxLat : float;
  minLng : float;
  maxLng : float
}.

Record GridConfig : Type := mkConfig {
  latGridSize : float;
  lngGridSize : float;
  cfgMinLat : float;
  cfgMaxLat : float;
  cfgMinLng : float;
  cfgMaxLng : float
}.

Fixpoint lngLoop (fuel : nat) (config : GridConfig) (lat lng : float)
  : option (list GridCell) :=
  match fuel with
  | O => None
  | S fuel' =>
      if (lng <? cfgMaxLng config)%float then
        rest ← lngLoop fuel' config lat (lng + lngGridSize config)%float;
        Some ({| minLat := lat; maxLat := (lat + latGridSize config)%float;
                 minLng := lng; maxLng := (lng + lngGridSize config)%float |}
              :: rest)
      else Some []
  end.

Fixpoint latLoop (fuel inner : nat) (config : GridConfig) (lat : float)
  : option (list GridCell) :=
  match fuel with
  | O => None
  | S fuel' =>
      if (lat <? cfgMaxLat config)%float then
        row ← lngLoop inner config lat (cfgMinLng config);
        rest ← latLoop fuel' inner config (lat + latGridSize config)%float;
        Some (row ++ rest)
      else Some []
  end.

Definition createGrid (fuel : nat) (config : GridConfig)
  : option (list GridCell) :=
  latLoop fuel fuel config (cfgMinLat config).

Definition cellContains (cell : GridCell) (latitude longitude : float)
  : bool :=
  (minLat cell <=? latitude)%float && (latitude <? maxLat cell)%float
  && (minLng cell <=? longitude)%float && (longitude <? maxLng cell)%float.

(** The number of the cell a record at the given position is assigned
    to, [None] when it is dropped. *)
Fixpoint assignedCell (grid : list GridCell) (cellId : nat)
    (latitude longitude : float) : option nat :=
  match grid with
  | [] => None
  | cell :: rest =>
      if cellContains cell latitude longitude then Some cellId
      else assignedCell rest (S cellId) latitude longitude
  end.

Definition unitConfig (size : float) : GridConfig :=
  {| latGridSize := size; lngGridSize := size;
     cfgMinLat := 0; cfgMaxLat := 1; cfgMinLng := 0; cfgMaxLng := 1 |}.

Definition DEFAULT_GRID_CONFIG : GridConfig :=
  {| latGridSize := 0.05; lngGridSize := 0.05;
     cfgMinLat := 28.4; cfgMaxLat := 28.9;
     cfgMinLng := 76.8; cfgMaxLng := 77.4 |}.

End Float64.

(** * Further notions and functions *)

(** ** Notions for the grid *)

(** The position in [grid] of the first cell that contains the record,
    the cell [assignFIRsToGrid] gives it to; [None] when no cell does. *)
Fixpoint firstCell (grid : list GridCell.t) (fir : FIR.t) : option nat :=
  match grid with
  | [] => None
  | cell :: rest =>
      if cellContains cell fir then Some 0%nat else S <$> firstCell rest fir
  end.

(** A cell as [createGrid] pushes it: no record yet. *)
Definition emptyCell (cell : GridCell.t) : Prop :=
  GridCell.firCount cell = 0%nat /\ GridCell.firs cell = [].

(** Cell [c1] ends where cell [c2] begins, or earlier, on one axis. *)
Definition cellPrecedes (c1 c2 : GridCell.t) : Prop :=
  (GridCell.maxLat c1 <= GridCell.minLat c2)%Q
  \/ (GridCell.maxLng c1 <= GridCell.minLng c2)%Q.

(** ** Notions for the hotspots *)

(** The order of the severity tiers. *)
Definition severityRank (s : Severity) : nat :=
  match s with low => 0 | medium => 1 | high => 2 end.

(** ** Notions for the clusters *)

(** A cluster as [clusterFIRs] forms it: a seed record of the input
    followed by input records within [radiusKm] of the seed. *)
Definition seededCluster (firs : list FIR.t) (radiusKm : Q)
    (cluster : list FIR.t) : Prop :=
  exists seed members,
    cluster = seed :: members
    /\ seed ∈ firs
    /\ Forall (fun fir =>
                 fir ∈ firs
                 /\ isNearby (FIR.latitude seed) (FIR.longitude seed)
                      radiusKm fir) members.

(** ** Notions for bounds and centroid *)

(** The record lies within the bounds, edges included. *)
Definition withinBounds (b : Bounds.t) (fir : FIR.t) : Prop :=
  (Bounds.minLat b <= FIR.latitude fir <= Bounds.maxLat b)%Q
  /\ (Bounds.minLng b <= FIR.longitude fir <= Bounds.maxLng b)%Q.

(** ** Insight service: patrol planning and the counts it reports *)

(** [getHighRiskDays(firs)] *)
Definition getHighRiskDays (firs : list FIR.t) : list string :=
  let dayTrends := getDayWiseTrends firs in
  let avgCount := (inject_Z (Z.of_nat (sumCounts dayTrends)) / 7)%Q in
  map DayCount.day
    (List.filter
       (fun d => Qlt_bool avgCount (inject_Z (Z.of_nat (DayCount.count d))))
       dayTrends).

(** The number of records that [key] sends to [k]. *)
Definition countBy {K : Type} `{EqDecision K} (key : FIR.t -> K)
    (firs : list FIR.t) (k : K) : nat :=
  length (List.filter (fun fir => bool_decide (key fir = k)) firs).

(** The number of records filed on weekday [d], in month [m], under the
    crime type [ty] and in the area [a]. *)
Definition dayCount (firs : list FIR.t) (d : nat) : nat :=
  countBy (fun fir => JSDate.getDay (FIR.date fir)) firs d.

Definition monthCount (firs : list FIR.t) (m : nat) : nat :=
  countBy (fun fir => JSDate.getMonth (FIR.date fir)) firs m.

Definition crimeTypeCount (firs : list FIR.t) (ty : string) : nat :=
  countBy FIR.crimeType firs ty.

Definition areaCount (firs : list FIR.t) (a : string) : nat :=
  countBy FIR.area firs a.

(** The record is counted in one of the 24 buckets of [getPeakHours]. *)
Definition hasClockHour (fir : FIR.t) : bool :=
  match hourOf fir with
  | Some h => bool_decide (0 <= h < 24)%Z
  | None => false
  end.

(** The counting loop of [getTopCrimeTypes] and [getAreaStatistics] over a
    plain object, for any key; [typeCounts] and [areaCounts] are its
    instances at [FIR.crimeType] and [FIR.area]. *)
Definition tally (key : FIR.t -> string) (firs : list FIR.t) : JSObject :=
  fold_left
    (fun obj fir => objSet obj (key fir) (objGet obj (key fir) + 1))
    firs [].

(** ** Validation (utils/validation.ts), continued

    The validation functions take values of type [FIR].  The record
    type [FIR.t] holds exactly such values with finite coordinates and a
    valid date; a missing field, a field of another type, a NaN
    coordinate and an invalid [Date] are outside of it, and so are the
    branches of [validateFIR] that only they reach (the messages "Date is
    required", "Invalid date format", "... must be a valid number" and
    "... must be a boolean value").  [validateFIR] below is the function
    on [FIR.t]; [validateFIRInput] is the same function, with every
    branch, on objects whose fields may be missing or of another type
    ([FIRInput.t]). *)

(** [s.trimEnd()] and [s.trim()]; on ASCII strings the characters they
    strip are those of [isWhiteSpace]: tab, line feed, vertical tab, form
    feed, carriage return and space. *)
Fixpoint trimEnd (s : string) : string :=
  match s with
  | EmptyString => EmptyString
  | String c s' =>
      match trimEnd s' with
      | EmptyString =>
          if isWhiteSpace c then EmptyString else String c EmptyString
      | r => String c r
      end
  end.

Definition trim (s : string) : string := trimEnd (skipWhiteSpace s).

(** [!s] on a string *)
Definition falsy (s : string) : bool :=
  match s with EmptyString => true | _ => false end.

(** [!s || s.trim().length === 0] *)
Definition missingText (s : string) : bool :=
  falsy s || (String.length (trim s) =? 0)%nat.

(** [\d] *)
Definition isDigit (c : Ascii.ascii) : bool :=
  let n := Ascii.nat_of_ascii c in (48 <=? n)%nat && (n <=? 57)%nat.

(** [/^\d{2}:\d{2}(:\d{2})?$/.test(s)] *)
Definition timeFormat (s : string) : bool :=
  match s with
  | String h1 (String h2 (String ":" (String m1 (String m2 rest)))) =>
      isDigit h1 && isDigit h2 && isDigit m1 && isDigit m2
      && match rest with
         | EmptyString => true
         | String ":" (String s1 (String s2 EmptyString)) =>
             isDigit s1 && isDigit s2
         | _ => false
         end
  | _ => false
  end.

Module Validation.
Record t : Type := mk { valid : bool; errors : list string }.
End Validation.

(** [if (cond) errors.push(message)] *)
Definition pushIf (cond : bool) (message : string) (errors : list string)
  : list string :=
  if cond then errors ++ [message] else errors.

(** [validateFIR(fir)], called when the clock reads [now]. *)
Definition validateFIR (now : Z) (fir : FIR.t) : Validation.t :=
  let errors := [] in
  let errors :=
    pushIf (missingText (FIR.id fir)) "FIR ID is required" errors in
  let errors :=
    pushIf (missingText (FIR.crimeType fir)) "Crime type is required"
      errors in
  let errors :=
    pushIf (now <? JSDate.getTime (FIR.date fir))%Z
      "Date cannot be in the future" errors in
  let errors :=
    pushIf (falsy (FIR.time fir) || negb (timeFormat (FIR.time fir)))
      "Time must be in HH:MM or HH:MM:SS format" errors in
  let errors :=
    pushIf (Qlt_bool (FIR.latitude fir) (-90)
            || Qlt_bool 90 (FIR.latitude fir))
      "Latitude must be between -90 and 90" errors in
  let errors :=
    pushIf (Qlt_bool (FIR.longitude fir) (-180)
            || Qlt_bool 180 (FIR.longitude fir))
      "Longitude must be between -180 and 180" errors in
  let errors := pushIf (missingText (FIR.area fir)) "Area is required" errors in
  let errors := pushIf (missingText (FIR.zone fir)) "Zone is required" errors in
  let errors :=
    pushIf (missingText (FIR.policeStation fir)) "Police station is required"
      errors in
  {| Validation.valid := (length errors =? 0)%nat;
     Validation.errors := errors |}.

(** *** [validateFIR] on any object

    The object handed to [validateFIR] at run time need not be a
    well-typed [FIR]: a field can be missing, a [Date] can be invalid, a
    coordinate can be NaN or infinite. *)

(** A field read as a [Date]. *)
Module DateField.
Inductive t : Type :=
| Absent                  (* undefined or null *)
| NotADate                (* a truthy value that is not a Date *)
| Invalid                 (* a Date whose time value is NaN *)
| Value (date : JSDate.t).
End DateField.

(** A field read as a [number]. *)
Module NumberField.
Inductive t : Type :=
| NotANumber              (* typeof is not 'number' *)
| Number (n : JSNumber.t).
End NumberField.

(** The object: a text field is a string or missing ([None]: undefined or
    null), a flag is a boolean or something else ([None]).  A text field
    that holds a truthy value of another type makes [trim] fail with a
    TypeError; such objects are outside the model. *)
Module FIRInput.
Record t : Type := mk {
  id : option string;
  crimeType : option string;
  date : DateField.t;
  time : option string;
  latitude : NumberField.t;
  longitude : NumberField.t;
  area : option string;
  zone : option string;
  policeStation : option string;
  description : option string;
  isAccident : option bool;
  isSensitiveZone : option bool
}.
End FIRInput.

(** A well-typed record as an object. *)
Definition ofFIR (fir : FIR.t) : FIRInput.t :=
  {| FIRInput.id := Some (FIR.id fir);
     FIRInput.crimeType := Some (FIR.crimeType fir);
     FIRInput.date := DateField.Value (FIR.date fir);
     FIRInput.time := Some (FIR.time fir);
     FIRInput.latitude :=
       NumberField.Number (JSNumber.Finite (FIR.latitude fir));
     FIRInput.longitude :=
       NumberField.Number (JSNumber.Finite (FIR.longitude fir));
     FIRInput.area := Some (FIR.area fir);
     FIRInput.zone := Some (FIR.zone fir);
     FIRInput.policeStation := Some (FIR.policeStation fir);
     FIRInput.description := FIR.description fir;
     FIRInput.isAccident := Some (FIR.isAccident fir);
     FIRInput.isSensitiveZone := Some (FIR.isSensitiveZone fir) |}.

(** [!field || field.trim().length === 0] *)
Definition missingField (field : option string) : bool :=
  match field with
  | None => true
  | Some s => missingText s
  end.

(** [n < q] and [n > q] on a number that is not NaN *)
Definition numberLt (n : JSNumber.t) (q : Q) : bool :=
  match n with
  | JSNumber.NaN | JSNumber.Infinity => false
  | JSNumber.NegInfinity => true
  | JSNumber.Finite x => Qlt_bool x q
  end.

Definition numberGt (n : JSNumber.t) (q : Q) : bool :=
  match n with
  | JSNumber.NaN | JSNumber.NegInfinity => false
  | JSNumber.Infinity => true
  | JSNumber.Finite x => Qlt_bool q x
  end.

(** [typeof flag !== 'boolean'] *)
Definition notBoolean (flag : option bool) : bool :=
  match flag with
  | None => true
  | Some _ => false
  end.

(** [validateFIR(fir)] on any object, called when the clock reads
    [now]. *)
Definition validateFIRInput (now : Z) (fir : FIRInput.t) : Validation.t :=
  let errors := [] in
  let errors :=
    pushIf (missingField (FIRInput.id fir)) "FIR ID is required" errors in
  let errors :=
    pushIf (missingField (FIRInput.crimeType fir)) "Crime type is required"
      errors in
  let errors :=
    match FIRInput.date fir with
    | DateField.Absent => errors ++ ["Date is required"]
    | DateField.NotADate | DateField.Invalid =>
        errors ++ ["Invalid date format"]
    | DateField.Value date =>
        pushIf (now <? JSDate.getTime date)%Z "Date cannot be in the future"
          errors
    end in
  let errors :=
    pushIf (match FIRInput.time fir with
            | None => true
            | Some time => falsy time || negb (timeFormat time)
            end)
      "Time must be in HH:MM or HH:MM:SS format" errors in
  let errors :=
    match FIRInput.latitude fir with
    | NumberField.NotANumber | NumberField.Number JSNumber.NaN =>
        errors ++ ["Latitude must be a valid number"]
    | NumberField.Number latitude =>
        pushIf (numberLt latitude (-90) || numberGt latitude 90)
          "Latitude must be between -90 and 90" errors
    end in
  let errors :=
    match FIRInput.longitude fir with
    | NumberField.NotANumber | NumberField.Number JSNumber.NaN =>
        errors ++ ["Longitude must be a valid number"]
    | NumberField.Number longitude =>
        pushIf (numberLt longitude (-180) || numberGt longitude 180)
          "Longitude must be between -180 and 180" errors
    end in
  let errors :=
    pushIf (missingField (FIRInput.area fir)) "Area is required" errors in
  let errors :=
    pushIf (missingField (FIRInput.zone fir)) "Zone is required" errors in
  let errors :=
    pushIf (missingField (FIRInput.policeStation fir))
      "Police station is required" errors in
  let errors :=
    pushIf (notBoolean (FIRInput.isAccident fir))
      "isAccident must be a boolean value" errors in
  let errors :=
    pushIf (notBoolean (FIRInput.isSensitiveZone fir))
      "isSensitiveZone must be a boolean value" errors in
  {| Validation.valid := (length errors =? 0)%nat;
     Validation.errors := errors |}.

Module InvalidRecord.
Record t : Type := mk { fir : FIR.t; errors : list string }.
End InvalidRecord.

Module Batch.
Record t : Type := mk {
  validRecords : list FIR.t;
  invalidRecords : list InvalidRecord.t
}.
End Batch.

(** [validateFIRBatch(firs)] *)
Definition validateFIRBatch (now : Z) (firs : list FIR.t) : Batch.t :=
  fold_left
    (fun batch fir =>
       let validation := validateFIR now fir in
       if Validation.valid validation then
         {| Batch.validRecords := Batch.validRecords batch ++ [fir];
            Batch.invalidRecords := Batch.invalidRecords batch |}
       else
         {| Batch.validRecords := Batch.validRecords batch;
            Batch.invalidRecords :=
              Batch.invalidRecords batch
              ++ [{| InvalidRecord.fir := fir;
                     InvalidRecord.errors := Validation.errors validation |}]
         |})
    firs
    {| Batch.validRecords := []; Batch.invalidRecords := [] |}.

(** The [seen] and [duplicates] sets of [findDuplicates] after the
    [forEach]. *)
Definition scanIds (firs : list FIR.t) : gset string * gset string :=
  fold_left
    (fun '(seen, duplicates) fir =>
       if decide (FIR.id fir ∈ seen) then
         (seen, {[FIR.id fir]} ∪ duplicates)
       else
         ({[FIR.id fir]} ∪ seen, duplicates))
    firs (∅, ∅).

(** [findDuplicates(firs)] *)
Definition findDuplicates (firs : list FIR.t) : list FIR.t :=
  let '(seen, duplicates) := scanIds firs in
  List.filter (fun fir => bool_decide (FIR.id fir ∈ duplicates)) firs.

Module Report.
Record t : Type := mk {
  total : nat;
  valid : nat;
  invalid : nat;
  duplicates : nat;
  errors : JSObject
}.
End Report.

(** [generateValidationReport(firs)] *)
Definition generateValidationReport (now : Z) (firs : list FIR.t) : Report.t :=
  let batch := validateFIRBatch now firs in
  let validRecords := Batch.validRecords batch in
  let invalidRecords := Batch.invalidRecords batch in
  let duplicates := findDuplicates firs in
  let errorCounts :=
    fold_left
      (fun errorCounts record =>
         fold_left
           (fun errorCounts error =>
              objSet errorCounts error (objGet errorCounts error + 1))
           (InvalidRecord.errors record) errorCounts)
      invalidRecords [] in
  {| Report.total := length firs;
     Report.valid := length validRecords;
     Report.invalid := length invalidRecords;
     Report.duplicates := length duplicates;
     Report.errors := errorCounts |}.

(** *** Notions used in the statements about validation *)

(** The messages of [validateFIR] in the order of the checks. *)
Definition validationMessages : list string :=
  ["FIR ID is required"; "Crime type is required";
   "Date cannot be in the future";
   "Time must be in HH:MM or HH:MM:SS format";
   "Latitude must be between -90 and 90";
   "Longitude must be between -180 and 180";
   "Area is required"; "Zone is required"; "Police station is required"].

(** All the messages of [validateFIR], on any object, in the order of
    the checks. *)
Definition inputValidationMessages : list string :=
  ["FIR ID is required"; "Crime type is required";
   "Date is required"; "Invalid date format";
   "Date cannot be in the future";
   "Time must be in HH:MM or HH:MM:SS format";
   "Latitude must be a valid number";
   "Latitude must be between -90 and 90";
   "Longitude must be a valid number";
   "Longitude must be between -180 and 180";
   "Area is required"; "Zone is required"; "Police station is required";
   "isAccident must be a boolean value";
   "isSensitiveZone must be a boolean value"].

(** The string holds ASCII characters only. *)
Definition isASCII (s : string) : bool :=
  forallb (fun c => (Ascii.nat_of_ascii c <? 128)%nat)
    (String.list_ascii_of_string s).

(** The text fields that [validateFIR] trims hold ASCII characters only,
    where they are present. *)
Definition asciiFields (fir : FIRInput.t) : bool :=
  forallb (fun field => isASCII (default EmptyString field))
    [FIRInput.id fir; FIRInput.crimeType fir; FIRInput.area fir;
     FIRInput.zone fir; FIRInput.policeStation fir].

(** The number that two decimal digits stand for. *)
Definition twoDigits (c1 c2 : Ascii.ascii) : option nat :=
  if isDigit c1 && isDigit c2 then
    Some (10 * (Ascii.nat_of_ascii c1 - 48)
          + (Ascii.nat_of_ascii c2 - 48))%nat
  else None.

(** The string is a time of day HH:MM or HH:MM:SS with hours below 24,
    minutes and seconds below 60. *)
Definition clockTime (s : string) : bool :=
  match s with
  | String h1 (String h2 (String ":" (String m1 (String m2 rest)))) =>
      match twoDigits h1 h2, twoDigits m1 m2 with
      | Some hours, Some minutes =>
          (hours <? 24)%nat && (minutes <? 60)%nat
          && match rest with
             | EmptyString => true
             | String ":" (String s1 (String s2 EmptyString)) =>
                 match twoDigits s1 s2 with
                 | Some seconds => (seconds <? 60)%nat
                 | None => false
                 end
             | _ => false
             end
      | _, _ => false
      end
  | _ => false
  end.

(** The string has a character that is not white space. *)
Definition hasText (s : string) : Prop :=
  exists c, In c (String.list_ascii_of_string s) /\ isWhiteSpace c = false.

(** The number of records that carry the identifier [id]. *)
Definition idCount (firs : list FIR.t) (id : string) : nat :=
  countBy FIR.id firs id.

(** The number of records for which [validateFIR] reports [message]. *)
Definition errorCount (now : Z) (firs : list FIR.t) (message : string) : nat :=
  length
    (List.filter
       (fun fir =>
          bool_decide (message ∈ Validation.errors (validateFIR now fir)))
       firs).

(** ** CSV rows (csvParser) *)

(** [s + c] for a character [c] *)
Definition appendChar (s : string) (c : Ascii.ascii) : string :=
  s +:+ String c EmptyString.

(** The loop of [parseCSVRow] over the characters that are left, with
    the values pushed so far, the field being read and the quote state;
    the end of the row pushes the last field.  An escaped quote takes two
    characters. *)
Fixpoint parseCSVRowLoop (row : string) (values : list string)
    (current : string) (insideQuotes : bool) : list string :=
  match row with
  | EmptyString => values ++ [trim current]
  | String char rest =>
      if Ascii.eqb char "034" then
        match rest with
        | String nextChar rest' =>
            if insideQuotes && Ascii.eqb nextChar "034" then
              parseCSVRowLoop rest' values (appendChar current "034")
                insideQuotes
            else parseCSVRowLoop rest values current (negb insideQuotes)
        | EmptyString =>
            parseCSVRowLoop rest values current (negb insideQuotes)
        end
      else if Ascii.eqb char "," && negb insideQuotes then
        parseCSVRowLoop rest (values ++ [trim current]) EmptyString
          insideQuotes
      else parseCSVRowLoop rest values (appendChar current char) insideQuotes
  end.

(** [parseCSVRow(row)] *)
Definition parseCSVRow (row : string) : list string :=
  parseCSVRowLoop row [] EmptyString false.

(** [s.split(sep)] for a separator of one character *)
Fixpoint splitOn (sep : Ascii.ascii) (s : string) : list string :=
  match s with
  | EmptyString => [EmptyString]
  | String c s' =>
      if Ascii.eqb c sep then EmptyString :: splitOn sep s'
      else
        match splitOn sep s' with
        | piece :: pieces => String c piece :: pieces
        | [] => [String c EmptyString]
        end
  end.

(** *** Notions used in the statements about CSV rows *)

(** The string has no double quote. *)
Fixpoint unquoted (s : string) : bool :=
  match s with
  | EmptyString => true
  | String c s' => negb (Ascii.eqb c "034") && unquoted s'
  end.

(** A field as a CSV writer quotes it: every double quote doubled, the
    whole between double quotes; and a row of such fields. *)
Fixpoint escapeQuotes (s : string) : string :=
  match s with
  | EmptyString => EmptyString
  | String c s' =>
      if Ascii.eqb c "034" then String "034" (String "034" (escapeQuotes s'))
      else String c (escapeQuotes s')
  end.

Definition quoteField (s : string) : string :=
  String "034" (escapeQuotes s +:+ String "034" EmptyString).

Fixpoint joinWith (sep : Ascii.ascii) (pieces : list string) : string :=
  match pieces with
  | [] => EmptyString
  | [piece] => piece
  | piece :: pieces => piece +:+ String sep (joinWith sep pieces)
  end.

(** ** Sanitizing (utils/validation.ts) *)

(** [s.replace(re, '')] for a global regular expression [re] whose
    matches are not empty: [matchAt t] is the rest of [t] behind a match
    of [re] at the start of [t], if there is one.  The string is scanned
    from the left; a match is dropped and the scan goes on behind it,
    any other character is kept.  Every step takes at least one
    character off the string, so [fuel] never runs out when it starts at
    the length of the string. *)
Fixpoint replaceAllLoop (matchAt : string -> option string) (fuel : nat)
    (s : string) : string :=
  match fuel with
  | O => s
  | S fuel =>
      match s with
      | EmptyString => EmptyString
      | String c s' =>
          match matchAt s with
          | Some rest => replaceAllLoop matchAt fuel rest
          | None => String c (replaceAllLoop matchAt fuel s')
          end
      end
  end.

Definition replaceAll (matchAt : string -> option string) (s : string)
  : string :=
  replaceAllLoop matchAt (String.length s) s.

(** The rest of [s] behind its first [>]. *)
Fixpoint afterClose (s : string) : option string :=
  match s with
  | EmptyString => None
  | String c s' => if Ascii.eqb c ">" then Some s' else afterClose s'
  end.

(** [/<[^>]+>/] at the start of [s]: a [<], one or more characters other
    than [>], and a [>]. *)
Definition matchTag (s : string) : option string :=
  match s with
  | String "<" (String c s') =>
      if Ascii.eqb c ">" then None else afterClose s'
  | _ => None
  end.

(** Case folding of the [i] flag on ASCII letters. *)
Definition toLower (c : Ascii.ascii) : Ascii.ascii :=
  let n := Ascii.nat_of_ascii c in
  if (65 <=? n)%nat && (n <=? 90)%nat then Ascii.ascii_of_nat (n + 32)
  else c.

(** The rest of [s] behind the literal [pattern], letters compared
    without regard to case. *)
Fixpoint afterLiteral (pattern s : string) : option string :=
  match pattern with
  | EmptyString => Some s
  | String p pattern' =>
      match s with
      | String c s' =>
          if Ascii.eqb (toLower p) (toLower c) then afterLiteral pattern' s'
          else None
      | EmptyString => None
      end
  end.

(** A line terminator, which [.] does not match. *)
Definition isLineTerminator (c : Ascii.ascii) : bool :=
  Ascii.eqb c "010" || Ascii.eqb c "013".

(** [.*?<\/script>] at the start of [s]: the closing tag is looked for
    at the nearest position first, with no line terminator in front of
    it. *)
Fixpoint afterScriptEnd (s : string) : option string :=
  match afterLiteral "</script>" s with
  | Some rest => Some rest
  | None =>
      match s with
      | EmptyString => None
      | String c s' =>
          if isLineTerminator c then None else afterScriptEnd s'
      end
  end.

(** [/<script[^>]*>.*?<\/script>/i] at the start of [s]. *)
Definition matchScript (s : string) : option string :=
  opening ← afterLiteral "<script" s;
  body ← afterClose opening;
  afterScriptEnd body.

(** [sanitizeText(text)] *)
Definition sanitizeText (text : string) : string :=
  if falsy text then EmptyString
  else trim (replaceAll matchTag (replaceAll matchScript text)).

(** [sanitizeFIR(fir)] *)
Definition sanitizeFIR (fir : FIR.t) : FIR.t :=
  {| FIR.id := sanitizeText (FIR.id fir);
     FIR.crimeType := sanitizeText (FIR.crimeType fir);
     FIR.date := FIR.date fir;
     FIR.time := FIR.time fir;
     FIR.latitude := FIR.latitude fir;
     FIR.longitude := FIR.longitude fir;
     FIR.area := sanitizeText (FIR.area fir);
     FIR.zone := sanitizeText (FIR.zone fir);
     FIR.policeStation := sanitizeText (FIR.policeStation fir);
     FIR.description :=
       match FIR.description fir with
       | Some description =>
           if falsy description then None
           else Some (sanitizeText description)
       | None => None
       end;
     FIR.isAccident := FIR.isAccident fir;
     FIR.isSensitiveZone := FIR.isSensitiveZone fir |}.

(** *** Notions used in the statements about sanitizing *)

(** No tag [<...>] starts anywhere in the string. *)
Definition tagFree (s : string) : Prop :=
  forall before rest, s = before +:+ rest -> matchTag rest = None.

(** The characters of a string. *)
Definition chars (s : string) : list Ascii.ascii :=
  String.list_ascii_of_string s.

(** ** CSV files (csvParser)

    [parseCSV] reads numbers with [parseFloat] and dates with the [Date]
    constructor.  Both are parameters of the model: [parseFloat s] is
    the number read from [s], [None] for NaN and for the infinities
    (the range checks reject the three alike, with the same message);
    [newDate s] is the date [new Date(s)], [None] for an invalid
    date. *)

Module ParseResult.
Record t : Type := mk { records : list FIR.t; errors : list string }.
End ParseResult.

(** [s.toLowerCase()] *)
Fixpoint toLowerCase (s : string) : string :=
  match s with
  | EmptyString => EmptyString
  | String c s' => String (toLower c) (toLowerCase s')
  end.

(** [pieces.join(sep)] *)
Fixpoint joinStr (sep : string) (pieces : list string) : string :=
  match pieces with
  | [] => EmptyString
  | [piece] => piece
  | piece :: pieces => piece +:+ sep +:+ joinStr sep pieces
  end.

(** [s.padStart(n, c)] for a pad of one character *)
Definition padStart (n : nat) (c : Ascii.ascii) (s : string) : string :=
  String.string_of_list_ascii (replicate (n - String.length s) c) +:+ s.

(** [headers.includes(h)] *)
Definition includes (headers : list string) (h : string) : bool :=
  existsb (String.eqb h) headers.

Definition requiredHeaders : list string :=
  ["id"; "crimetype"; "date"; "time"; "latitude"; "longitude"; "area";
   "zone"; "policestation"].

(** A string or [undefined] that is truthy. *)
Definition nonEmpty (s : option string) : option string :=
  s ≫= fun s => if falsy s then None else Some s.

(** The [data] object of [parseFIRRecord]: the value of each header whose
    position is within the row, a later header of the same name
    overwriting an earlier one.  The object is only read at the twelve
    field names, none of which names a property of
    [Object.prototype]. *)
Fixpoint fillData (headers : list string) (index : nat)
    (values : list string) (data : gmap string string)
  : gmap string string :=
  match headers with
  | [] => data
  | header :: headers' =>
      let data :=
        match values !! index with
        | Some value =>
            <[header := if falsy value then EmptyString else value]> data
        | None => data
        end in
      fillData headers' (S index) values data
  end.

(** [/^\d{4}-\d{2}-\d{2}$/.test(s)] *)
Definition isoDateFormat (s : string) : bool :=
  match s with
  | String y1 (String y2 (String y3 (String y4 (String "-"
      (String m1 (String m2 (String "-"
         (String d1 (String d2 EmptyString))))))))) =>
      isDigit y1 && isDigit y2 && isDigit y3 && isDigit y4
      && isDigit m1 && isDigit m2 && isDigit d1 && isDigit d2
  | _ => false
  end.

(** [/^\d{2}\/\d{2}\/\d{4}$/.test(s)] *)
Definition slashDateFormat (s : string) : bool :=
  match s with
  | String a1 (String a2 (String "/" (String b1 (String b2 (String "/"
      (String y1 (String y2 (String y3 (String y4 EmptyString))))))))) =>
      isDigit a1 && isDigit a2 && isDigit b1 && isDigit b2
      && isDigit y1 && isDigit y2 && isDigit y3 && isDigit y4
  | _ => false
  end.

Section CsvParser.
Variable parseFloat : string -> option Q.
Variable newDate : string -> option JSDate.t.

(** [parseDate(dateStr)]; [None] is [null].  The three attempts are made
    in turn, each only when the one before gave no valid date. *)
Definition parseDate (dateStr : string) : option JSDate.t :=
  let isoDate :=
    if isoDateFormat dateStr then newDate (dateStr +:+ "T00:00:00")
    else None in
  match isoDate with
  | Some date => Some date
  | None =>
      let dayFirst :=
        if slashDateFormat dateStr then
          match splitOn "/" dateStr with
          | day :: month :: year :: _ =>
              newDate (year +:+ "-" +:+ padStart 2 "0" month +:+ "-"
                       +:+ padStart 2 "0" day +:+ "T00:00:00")
          | _ => None
          end
        else None in
      match dayFirst with
      | Some date => Some date
      | None => if slashDateFormat dateStr then newDate dateStr else None
      end
  end.

(** A coordinate read by [parseFloat] and checked against its range:
    [isNaN(x) || x < -bound || x > bound] rejects it. *)
Definition parseCoordinate (bound : Q) (s : option string) : option Q :=
  x ← parseFloat (default EmptyString (nonEmpty (trim <$> s)));
  if Qlt_bool x (- bound) || Qlt_bool bound x then None else Some x.

(** [parseFIRRecord(values, headers, rowNumber)]: the record, or the
    message of the error thrown. *)
Definition parseFIRRecord (values headers : list string) (_rowNumber : nat)
  : FIR.t + string :=
  let data := fillData headers 0 values ∅ in
  match nonEmpty (trim <$> data !! "id") with
  | None => inr "FIR ID is required"
  | Some id =>
  match nonEmpty (trim <$> data !! "crimetype") with
  | None => inr "Crime type is required"
  | Some crimeType =>
  match nonEmpty (trim <$> data !! "date") with
  | None => inr "Date is required"
  | Some dateStr =>
  match parseDate dateStr with
  | None => inr ("Invalid date format: " +:+ dateStr)
  | Some date =>
  match nonEmpty (trim <$> data !! "time") with
  | None => inr "Time is required"
  | Some time =>
  match parseCoordinate 90 (data !! "latitude") with
  | None =>
      inr ("Invalid latitude: " +:+ default "undefined" (data !! "latitude"))
  | Some latitude =>
  match parseCoordinate 180 (data !! "longitude") with
  | None =>
      inr ("Invalid longitude: "
           +:+ default "undefined" (data !! "longitude"))
  | Some longitude =>
  match nonEmpty (trim <$> data !! "area") with
  | None => inr "Area is required"
  | Some area =>
  match nonEmpty (trim <$> data !! "zone") with
  | None => inr "Zone is required"
  | Some zone =>
  match nonEmpty (trim <$> data !! "policestation") with
  | None => inr "Police station is required"
  | Some policeStation =>
      let description := nonEmpty (trim <$> data !! "description") in
      let isAccident :=
        bool_decide ((fun s => toLowerCase (trim s)) <$> data !! "isaccident"
                     = Some "true") in
      let isSensitiveZone :=
        bool_decide
          ((fun s => toLowerCase (trim s)) <$> data !! "issensitivezone"
           = Some "true") in
      inl {| FIR.id := id; FIR.crimeType := crimeType; FIR.date := date;
             FIR.time := time; FIR.latitude := latitude;
             FIR.longitude := longitude; FIR.area := area; FIR.zone := zone;
             FIR.policeStation := policeStation;
             FIR.description := description; FIR.isAccident := isAccident;
             FIR.isSensitiveZone := isSensitiveZone |}
  end end end end end end end end end end.

(** One turn of the loop over the data rows: [line] is [lines[i]]. *)
Definition parseLine (headers : list string) (result : ParseResult.t)
    (i : nat) (line : string) : ParseResult.t :=
  if falsy (trim line) then result
  else
    let values := parseCSVRow line in
    match parseFIRRecord values headers (i + 1) with
    | inl record =>
        {| ParseResult.records := ParseResult.records result ++ [record];
           ParseResult.errors := ParseResult.errors result |}
    | inr message =>
        {| ParseResult.records := ParseResult.records result;
           ParseResult.errors :=
             ParseResult.errors result
             ++ ["Row " +:+ pretty (i + 1)%nat +:+ ": " +:+ message] |}
    end.

(** The loop [for (let i = 1; i < lines.length; i++)] over the lines
    from [lines[i]] on. *)
Fixpoint parseLines (headers : list string) (i : nat) (lines : list string)
    (result : ParseResult.t) : ParseResult.t :=
  match lines with
  | [] => result
  | line :: lines' =>
      parseLines headers (S i) lines' (parseLine headers result i line)
  end.

(** [parseCSV(csvContent)] *)
Definition parseCSV (csvContent : string) : ParseResult.t :=
  if falsy csvContent || (String.length (trim csvContent) =? 0)%nat then
    {| ParseResult.records := [];
       ParseResult.errors := ["CSV content is empty"] |}
  else
    let lines :=
      List.filter (fun line => negb (falsy (trim line)))
        (splitOn "010" csvContent) in
    if (length lines <? 2)%nat then
      {| ParseResult.records := [];
         ParseResult.errors :=
           ["CSV must contain at least headers and one data row"] |}
    else
      let headerLine := default EmptyString (lines !! 0%nat) in
      let headers :=
        map (fun h => toLowerCase (trim h)) (splitOn "," headerLine) in
      let missingHeaders :=
        List.filter (fun h => negb (includes headers h)) requiredHeaders in
      if (0 <? length missingHeaders)%nat then
        {| ParseResult.records := [];
           ParseResult.errors :=
             ["Missing required headers: " +:+ joinStr ", " missingHeaders] |}
      else
        parseLines headers 1 (drop 1 lines)
          {| ParseResult.records := []; ParseResult.errors := [] |}.

(** [parseExcel(content)] *)
Definition parseExcel (content : string) : ParseResult.t := parseCSV content.

End CsvParser.

(** *** Notions used in the statements about CSV files *)

(** The lines of a CSV text that are not blank. *)
Definition csvLines (csvContent : string) : list string :=
  List.filter (fun line => negb (falsy (trim line)))
    (splitOn "010" csvContent).

(** The header names of a CSV text. *)
Definition csvHeaders (csvContent : string) : list string :=
  map (fun h => toLowerCase (trim h))
    (splitOn "," (default EmptyString (csvLines csvContent !! 0%nat))).

(** The CSV text passes the checks in front of the loop over the rows. *)
Definition wellFormedCSV (csvContent : string) : Prop :=
  hasText csvContent
  /\ (2 <= length (csvLines csvContent))%nat
  /\ forall h, h ∈ requiredHeaders -> h ∈ csvHeaders csvContent.

(** A text field as the parser returns it: trimmed and not empty. *)
Definition parsedText (s : string) : Prop := trim s = s /\ hasText s.

(** The rows that [parseCSV] reads records from, and the record of a
    row, if it has one. *)
Definition csvDataLines (csvContent : string) : list string :=
  drop 1 (csvLines csvContent).

Definition recordOfLine (parseFloat : string -> option Q)
    (newDate : string -> option JSDate.t) (headers : list string)
    (line : string) : option FIR.t :=
  match parseFIRRecord parseFloat newDate (parseCSVRow line) headers 0 with
  | inl record => Some record
  | inr _ => None
  end.

(** Readers for the examples: they know one number and one date. *)
Definition exampleParseFloat (s : string) : option Q :=
  if String.eqb s "28.5" then Some (57 # 2) else None.

Definition exampleNewDate (s : string) : option JSDate.t :=
  if String.eqb s "2026-01-20T00:00:00" then Some exampleDate else None.

Definition exampleCSV : string :=
  "id,crimeType,date,time,latitude,longitude,area,zone,policeStation"
  +:+ String "010"
        "FIR001,Theft,2026-01-20,14:30,28.5,28.5,Downtown,Zone A,Central PS".
(** * Properties *)

(** ** The descending stable sort *)

Section SortDescFacts.
Context {A : Type} (key : A -> nat).

Lemma insertDesc_perm (x : A) (l : list A) : insertDesc key x l ≡ₚ x :: l.
Proof.
  induction l as [|y l IH]; simpl; [done|].
  destruct (key x <? key y)%nat; [|done].
  rewrite IH. apply Permutation_swap.
Qed.

Lemma sortDesc_perm (l : list A) : sortDesc key l ≡ₚ l.
Proof.
  induction l as [|x l IH]; simpl; [done|].
  rewrite insertDesc_perm. by f_equiv.
Qed.

Lemma sortDesc_length (l : list A) : length (sortDesc key l) = length l.
Proof. by rewrite sortDesc_perm. Qed.

(** [before] records the order of the input list; the sorted list is
    ordered by key, larger first, and among equal keys by [before]. *)
Context (before : A -> A -> Prop).

Local Abbreviation descThenBefore := (descThenBefore key before).

Lemma descThenBefore_key (a b : A) :
  descThenBefore a b -> (key b <= key a)%nat.
Proof. intros [?|[-> _]]; lia. Qed.

Lemma insertDesc_sorted (x : A) (l : list A) :
  StronglySorted descThenBefore l ->
  Forall (before x) l ->
  StronglySorted descThenBefore (insertDesc key x l).
Proof.
  induction l as [|y l IH]; intros Hs Hx; simpl.
  - repeat constructor.
  - apply StronglySorted_inv in Hs as [Hs Hy].
    apply Forall_cons in Hx as [Hxy Hx].
    destruct (Nat.ltb_spec (key x) (key y)) as [Hlt|Hge].
    + constructor; [by apply IH|].
      rewrite insertDesc_perm. constructor; [by left|done].
    + constructor; [by constructor|].
      constructor.
      * destruct (decide (key x = key y)) as [Heq|Hne];
          [by right | left; lia].
      * rewrite Forall_forall in Hy, Hx. apply Forall_forall.
        intros z Hz. pose proof (descThenBefore_key _ _ (Hy z Hz)).
        destruct (decide (key x = key z)) as [Heq|Hne];
          [right; split; [done|by apply Hx] | left; lia].
Qed.

Lemma sortDesc_stable (l : list A) :
  StronglySorted before l ->
  StronglySorted descThenBefore (sortDesc key l).
Proof.
  induction l as [|x l IH]; intros Hs; simpl; [constructor|].
  apply StronglySorted_inv in Hs as [Hs Hx].
  apply insertDesc_sorted; [by apply IH|].
  by rewrite sortDesc_perm.
Qed.
End SortDescFacts.

Lemma StronglySorted_weaken {A : Type} (R1 R2 : A -> A -> Prop) (l : list A) :
  (forall a b, R1 a b -> R2 a b) ->
  StronglySorted R1 l -> StronglySorted R2 l.
Proof.
  intros Himp. induction 1 as [|x l Hs IH Hx]; constructor; [done|].
  eapply Forall_impl; [exact Hx|]. intros y. apply Himp.
Qed.

Lemma sortDesc_descending {A : Type} (key : A -> nat) (l : list A) :
  StronglySorted (fun a b => (key b <= key a)%nat) (sortDesc key l).
Proof.
  assert (Hall : StronglySorted (fun _ _ : A => True) l).
  { induction l; constructor; [done|]. by apply Forall_forall. }
  apply (sortDesc_stable key) in Hall.
  eapply StronglySorted_weaken; [|exact Hall].
  intros a b. apply descThenBefore_key.
Qed.

(** Stability without reference to an order on the input: the elements
    of each key keep their relative order. *)
Lemma insertDesc_filter_key {A : Type} (key : A -> nat) (k : nat) (x : A)
    (l : list A) :
  List.filter (fun y => key y =? k)%nat (insertDesc key x l)
  = List.filter (fun y => key y =? k)%nat (x :: l).
Proof.
  induction l as [|y l IH]; [done|].
  cbn [insertDesc]. destruct (Nat.ltb_spec (key x) (key y)) as [Hlt|_]; [|done].
  cbn [List.filter] in *. rewrite IH.
  destruct (Nat.eqb_spec (key x) k) as [Hx|_]; [|done].
  destruct (Nat.eqb_spec (key y) k) as [Hy|_]; [lia|done].
Qed.

Lemma sortDesc_filter_key {A : Type} (key : A -> nat) (k : nat) (l : list A) :
  List.filter (fun y => key y =? k)%nat (sortDesc key l)
  = List.filter (fun y => key y =? k)%nat l.
Proof.
  induction l as [|x l IH]; [done|].
  cbn [sortDesc foldr]. rewrite insertDesc_filter_key.
  cbn [List.filter]. fold (sortDesc key l). by rewrite IH.
Qed.

(** A list in descending key order is determined by its elements of each
    key, so every stable descending sort returns the list [sortDesc]
    returns. *)
Lemma descending_unique {A : Type} (key : A -> nat) (l1 l2 : list A) :
  StronglySorted (fun a b => (key b <= key a)%nat) l1 ->
  StronglySorted (fun a b => (key b <= key a)%nat) l2 ->
  (forall k, List.filter (fun y => key y =? k)%nat l1
             = List.filter (fun y => key y =? k)%nat l2) ->
  l1 = l2.
Proof.
  intros Hs1. revert l2.
  induction Hs1 as [|x l1 Hs1 IH Hx]; intros l2 Hs2 Hfilter.
  - destruct l2 as [|y l2]; [done|].
    specialize (Hfilter (key y)). cbn [List.filter] in Hfilter.
    by rewrite Nat.eqb_refl in Hfilter.
  - destruct Hs2 as [|y l2 Hs2 Hy].
    { specialize (Hfilter (key x)). cbn [List.filter] in Hfilter.
      by rewrite Nat.eqb_refl in Hfilter. }
    rewrite Forall_forall in Hx, Hy.
    assert (Hxy : (key x <= key y)%nat).
    { assert (Hin : In x (List.filter (fun z => key z =? key x)%nat (y :: l2))).
      { rewrite <- Hfilter. cbn [List.filter]. rewrite Nat.eqb_refl. by left. }
      apply filter_In in Hin as [[->|Hin] _]; [done|].
      by apply Hy, list_elem_of_In. }
    assert (Hyx : (key y <= key x)%nat).
    { assert (Hin : In y (List.filter (fun z => key z =? key y)%nat (x :: l1))).
      { rewrite Hfilter. cbn [List.filter]. rewrite Nat.eqb_refl. by left. }
      apply filter_In in Hin as [[->|Hin] _]; [done|].
      by apply Hx, list_elem_of_In. }
    assert (Hkey : key x = key y) by lia.
    pose proof (Hfilter (key y)) as Hhead. cbn [List.filter] in Hhead.
    rewrite Hkey, Nat.eqb_refl in Hhead. injection Hhead as -> Htail.
    f_equal. apply IH; [done|]. intros k.
    specialize (Hfilter k). cbn [List.filter] in Hfilter.
    destruct (key y =? k)%nat eqn:Hk; [|done].
    apply Nat.eqb_eq in Hk. subst k. done.
Qed.

Lemma sortDesc_unique {A : Type} (key : A -> nat) (l sorted : list A) :
  StronglySorted (fun a b => (key b <= key a)%nat) sorted ->
  (forall k, List.filter (fun y => key y =? k)%nat sorted
             = List.filter (fun y => key y =? k)%nat l) ->
  sorted = sortDesc key l.
Proof.
  intros Hs Hfilter. apply (descending_unique key); [done|..].
  - apply sortDesc_descending.
  - intros k. by rewrite sortDesc_filter_key.
Qed.

(** ** Comparisons on rationals *)

Lemma Qlt_bool_iff (x y : Q) : Qlt_bool x y = true <-> (x < y)%Q.
Proof.
  unfold Qlt_bool. rewrite negb_true_iff, <- not_true_iff_false, Qle_bool_iff.
  split; [apply Qnot_le_lt | apply Qlt_not_le].
Qed.

Lemma cellContains_iff (cell : GridCell.t) (fir : FIR.t) :
  cellContains cell fir = true <->
  (GridCell.minLat cell <= FIR.latitude fir < GridCell.maxLat cell)%Q /\
  (GridCell.minLng cell <= FIR.longitude fir < GridCell.maxLng cell)%Q.
Proof.
  unfold cellContains.
  rewrite !andb_true_iff, !Qle_bool_iff, !Qlt_bool_iff. tauto.
Qed.

Lemma inHalfOpenRegion_iff (config : GridConfig.t) (fir : FIR.t) :
  inHalfOpenRegion config fir = true <->
  (GridConfig.minLat config <= FIR.latitude fir < GridConfig.maxLat config)%Q /\
  (GridConfig.minLng config <= FIR.longitude fir < GridConfig.maxLng config)%Q.
Proof.
  unfold inHalfOpenRegion.
  rewrite !andb_true_iff, !Qle_bool_iff, !Qlt_bool_iff. tauto.
Qed.

Lemma inSomeCell_iff (grid : list GridCell.t) (fir : FIR.t) :
  inSomeCell grid fir = true <->
  exists cell, cell ∈ grid /\ cellContains cell fir = true.
Proof.
  unfold inSomeCell. rewrite existsb_exists.
  by setoid_rewrite list_elem_of_In.
Qed.

(** ** Assignment of records to cells *)

Lemma cellContains_pushFIR (cell : GridCell.t) (fir' fir : FIR.t) :
  cellContains (pushFIR cell fir') fir = cellContains cell fir.
Proof. reflexivity. Qed.

Lemma assignFIR_inSomeCell (fir fir' : FIR.t) (grid : list GridCell.t) :
  inSomeCell (assignFIR fir grid) fir' = inSomeCell grid fir'.
Proof.
  unfold inSomeCell. induction grid as [|cell grid IH]; simpl; [done|].
  destruct (cellContains cell fir); simpl; [done|]. by rewrite IH.
Qed.

Lemma assignFIR_count (fir : FIR.t) (grid : list GridCell.t) :
  gridCount (assignFIR fir grid) =
  (gridCount grid + (if inSomeCell grid fir then 1 else 0))%nat.
Proof.
  unfold gridCount, inSomeCell.
  induction grid as [|cell grid IH]; csimpl; [done|].
  destruct (cellContains cell fir); csimpl; [lia|]. rewrite IH. lia.
Qed.

(** A record no cell contains leaves the grid as it is: it is dropped. *)
Lemma assignFIR_dropped (fir : FIR.t) (grid : list GridCell.t) :
  inSomeCell grid fir = false -> assignFIR fir grid = grid.
Proof.
  unfold inSomeCell. induction grid as [|cell grid IH]; simpl; [done|].
  destruct (cellContains cell fir); simpl; [done|].
  intros H. by rewrite IH.
Qed.

(** A record some cell contains goes to the first such cell. *)
Lemma assignFIR_first (fir : FIR.t) (grid : list GridCell.t) :
  inSomeCell grid fir = true ->
  exists front cell back,
    grid = front ++ cell :: back /\
    Forall (fun c => cellContains c fir = false) front /\
    cellContains cell fir = true /\
    assignFIR fir grid = front ++ pushFIR cell fir :: back.
Proof.
  unfold inSomeCell. induction grid as [|cell grid IH]; simpl; [done|].
  destruct (cellContains cell fir) eqn:Hc; simpl.
  - intros _. by exists [], cell, grid.
  - intros (front & c & back & -> & Hfront & Hcc & Heq)%IH.
    exists (cell :: front), c, back. rewrite Heq. by repeat constructor.
Qed.

Lemma assignFIRsToGrid_inSomeCell (firs : list FIR.t) (fir' : FIR.t)
    (grid : list GridCell.t) :
  inSomeCell (assignFIRsToGrid firs grid) fir' = inSomeCell grid fir'.
Proof.
  unfold assignFIRsToGrid. revert grid.
  induction firs as [|fir firs IH]; intros grid; simpl; [done|].
  by rewrite IH, assignFIR_inSomeCell.
Qed.

Lemma assignFIRsToGrid_count (firs : list FIR.t) (grid : list GridCell.t) :
  gridCount (assignFIRsToGrid firs grid) =
  (gridCount grid + length (List.filter (inSomeCell grid) firs))%nat.
Proof.
  unfold assignFIRsToGrid. revert grid.
  induction firs as [|fir firs IH]; intros grid; simpl; [lia|].
  rewrite IH, assignFIR_count.
  rewrite (List.filter_ext _ (inSomeCell grid))
    by (intros f; apply assignFIR_inSomeCell).
  destruct (inSomeCell grid fir); simpl; lia.
Qed.

Lemma assignFIRsToGrid_ids (firs : list FIR.t) (grid : list GridCell.t) :
  GridCell.id <$> assignFIRsToGrid firs grid = GridCell.id <$> grid.
Proof.
  unfold assignFIRsToGrid. revert grid.
  induction firs as [|fir firs IH]; intros grid; simpl; [done|].
  rewrite IH. clear IH.
  induction grid as [|cell grid IH]; csimpl; [done|].
  destruct (cellContains cell fir); csimpl; [done|]. by rewrite IH.
Qed.

Lemma assignFIRsToGrid_length (firs : list FIR.t) (grid : list GridCell.t) :
  length (assignFIRsToGrid firs grid) = length grid.
Proof.
  rewrite <- (length_fmap GridCell.id (assignFIRsToGrid firs grid)).
  by rewrite assignFIRsToGrid_ids, length_fmap.
Qed.

(** ** Hotspot collection *)

Lemma collectHotspots_count (th : Thresholds.t) (now : Z) (total : nat)
    (grid : list GridCell.t) :
  hotspotCount (collectHotspots th now total grid) = gridCount grid.
Proof.
  unfold hotspotCount, gridCount, collectHotspots.
  induction grid as [|cell grid IH]; csimpl; [done|].
  destruct (GridCell.firCount cell) as [|n] eqn:Hn; csimpl;
    rewrite IH; [done|]. by rewrite Hn.
Qed.

Lemma hotspotCount_sortDesc (hotspots : list Hotspot.t) :
  hotspotCount (sortDesc Hotspot.firCount hotspots) = hotspotCount hotspots.
Proof. unfold hotspotCount. by rewrite sortDesc_perm. Qed.

(** ** Grid generation *)

Lemma gridCount_app (g1 g2 : list GridCell.t) :
  gridCount (g1 ++ g2) = (gridCount g1 + gridCount g2)%nat.
Proof. apply sum_list_with_app. Qed.

Lemma inSomeCell_app (g1 g2 : list GridCell.t) (fir : FIR.t) :
  inSomeCell (g1 ++ g2) fir = inSomeCell g1 fir || inSomeCell g2 fir.
Proof. apply existsb_app. Qed.

(** The cells of a row are numbered consecutively and start empty. *)
Lemma lngLoop_row (fuel : nat) (config : GridConfig.t) (lat lng : Q)
    (cellId : nat) (row : list GridCell.t) :
  lngLoop fuel config lat lng cellId = Some row ->
  GridCell.id <$> row = gridId <$> seq cellId (length row)
  /\ gridCount row = 0%nat.
Proof.
  revert lng cellId row.
  induction fuel as [|fuel IH]; intros lng cellId row; simpl; [done|].
  destruct (Qlt_bool lng _); [|by intros [= <-]].
  destruct (lngLoop fuel _ _ _ _) as [rest|] eqn:Hrest; [|done].
  intros [= <-]. apply IH in Hrest as [Hids Hcount]. csimpl.
  by rewrite Hids.
Qed.

Lemma latLoop_grid (fuel inner : nat) (config : GridConfig.t) (lat : Q)
    (cellId : nat) (grid : list GridCell.t) :
  latLoop fuel inner config lat cellId = Some grid ->
  GridCell.id <$> grid = gridId <$> seq cellId (length grid)
  /\ gridCount grid = 0%nat.
Proof.
  revert lat cellId grid.
  induction fuel as [|fuel IH]; intros lat cellId grid; simpl; [done|].
  destruct (Qlt_bool lat _); [|by intros [= <-]].
  destruct (lngLoop inner _ _ _ _) as [row|] eqn:Hrow; [|done]. csimpl.
  destruct (latLoop fuel _ _ _ _) as [rest|] eqn:Hrest; [|done].
  intros [= <-].
  apply lngLoop_row in Hrow as [Hrow Hrow0].
  apply IH in Hrest as [Hrest Hrest0].
  rewrite gridCount_app, Hrow0, Hrest0, length_app, seq_app, !fmap_app.
  by rewrite Hrow, Hrest.
Qed.

(** Cells carry the identifiers GRID_0, GRID_1, ... in generation
    (row-major) order, and no records. *)
Lemma createGrid_ids (fuel : nat) (config : GridConfig.t)
    (grid : list GridCell.t) :
  createGrid fuel config = Some grid ->
  GridCell.id <$> grid = gridId <$> seq 0 (length grid).
Proof. intros H. by apply latLoop_grid in H as [? _]. Qed.

Lemma createGrid_count (fuel : nat) (config : GridConfig.t)
    (grid : list GridCell.t) :
  createGrid fuel config = Some grid -> gridCount grid = 0%nat.
Proof. intros H. by apply latLoop_grid in H as [_ ?]. Qed.

Global Instance gridId_inj : Inj (=) (=) gridId.
Proof.
  intros m n H. unfold gridId in H.
  apply (inj (String.app "GRID_")) in H. by apply (inj pretty) in H.
Qed.

(** *** Termination of the loops *)

Lemma stepsFrom_linear (n : nat) (lo step : Q) :
  (stepsFrom n lo step == lo + inject_Z (Z.of_nat n) * step)%Q.
Proof.
  revert lo. induction n as [|n IH]; intros lo.
  - simpl. ring.
  - cbn [stepsFrom]. rewrite IH, Nat2Z.inj_succ, <- Z.add_1_r, inject_Z_plus.
    ring.
Qed.

Lemma stepsFrom_reaches (lo hi step : Q) :
  (0 < step)%Q -> exists n, (hi <= stepsFrom n lo step)%Q.
Proof.
  intros Hs.
  exists (Z.to_nat (Qceiling ((hi - lo) / step))).
  rewrite stepsFrom_linear.
  set (x := ((hi - lo) / step)%Q).
  assert (Hx : (x <= inject_Z (Z.of_nat (Z.to_nat (Qceiling x))))%Q).
  { eapply Qle_trans; [apply Qle_ceiling|].
    rewrite <- Zle_Qle. lia. }
  assert (Hmul : (x * step == hi - lo)%Q).
  { unfold x. field. lra. }
  apply (Qmult_le_compat_r _ _ step) in Hx; [|lra].
  lra.
Qed.

Lemma lngLoop_terminates (config : GridConfig.t) (lat : Q) (n : nat) :
  forall (fuel : nat) (lng : Q) (cellId : nat),
    (n < fuel)%nat ->
    (GridConfig.maxLng config
     <= stepsFrom n lng (GridConfig.lngGridSize config))%Q ->
    is_Some (lngLoop fuel config lat lng cellId).
Proof.
  induction n as [|n IH]; intros [|fuel] lng cellId Hfuel Hn;
    try lia; simpl.
  - destruct (Qlt_bool lng _) eqn:Hlt; [|done].
    apply Qlt_bool_iff in Hlt. simpl in Hn. lra.
  - destruct (Qlt_bool lng _) eqn:Hlt; [|done].
    destruct (IH fuel (lng + GridConfig.lngGridSize config)%Q (S cellId))
      as [rest ->]; [lia|done|done].
Qed.

Lemma latLoop_terminates (config : GridConfig.t) (inner n : nat) :
  (forall lat cellId,
      is_Some (lngLoop inner config lat (GridConfig.minLng config) cellId)) ->
  forall (fuel : nat) (lat : Q) (cellId : nat),
    (n < fuel)%nat ->
    (GridConfig.maxLat config
     <= stepsFrom n lat (GridConfig.latGridSize config))%Q ->
    is_Some (latLoop fuel inner config lat cellId).
Proof.
  intros Hinner.
  induction n as [|n IH]; intros [|fuel] lat cellId Hfuel Hn;
    try lia; simpl.
  - destruct (Qlt_bool lat _) eqn:Hlt; [|done].
    apply Qlt_bool_iff in Hlt. simpl in Hn. lra.
  - destruct (Qlt_bool lat _) eqn:Hlt; [|done].
    destruct (Hinner lat cellId) as [row ->]. csimpl.
    destruct (IH fuel (lat + GridConfig.latGridSize config)%Q
                (cellId + length row)%nat) as [rest ->]; [lia|done|done].
Qed.

(** [createGrid] returns on every configuration with positive cell
    sizes. *)
Lemma createGrid_terminates (config : GridConfig.t) :
  positiveSizes config -> exists fuel, is_Some (createGrid fuel config).
Proof.
  intros [Hlat Hlng].
  destruct (stepsFrom_reaches (GridConfig.minLat config)
              (GridConfig.maxLat config) _ Hlat) as [rows Hrows].
  destruct (stepsFrom_reaches (GridConfig.minLng config)
              (GridConfig.maxLng config) _ Hlng) as [cols Hcols].
  exists (S (rows `max` cols)). unfold createGrid.
  apply (latLoop_terminates config _ rows); [|lia|done].
  intros lat cellId. apply (lngLoop_terminates config lat cols); [lia|done].
Qed.

(** *** The region the cells cover in any case

    Whatever the steps, the cells of a row follow one another without a
    gap and the last one ends at or beyond the configured maximum, and so
    do the rows: a record with [min <= coordinate < max] on both axes is
    in some cell. *)

Lemma lngLoop_covers (config : GridConfig.t) (lat : Q) (fuel : nat) :
  forall (lng : Q) (cellId : nat) (row : list GridCell.t) (fir : FIR.t),
    lngLoop fuel config lat lng cellId = Some row ->
    (lat <= FIR.latitude fir < lat + GridConfig.latGridSize config)%Q ->
    (lng <= FIR.longitude fir < GridConfig.maxLng config)%Q ->
    inSomeCell row fir = true.
Proof.
  induction fuel as [|fuel IH]; intros lng cellId row fir; simpl; [done|].
  destruct (Qlt_bool lng _) eqn:Hlt.
  - destruct (lngLoop fuel _ _ _ _) as [rest|] eqn:Hrest; [|done].
    intros [= <-] Hlat Hlng.
    change (inSomeCell (?c :: rest) fir)
      with (cellContains c fir || inSomeCell rest fir).
    apply orb_true_iff.
    destruct (Qlt_le_dec (FIR.longitude fir)
                (lng + GridConfig.lngGridSize config)) as [Hin|Hout].
    + left. apply cellContains_iff. simpl. split; [done|]. split; lra.
    + right. eapply IH; [exact Hrest|done|]. split; lra.
  - intros _ _ Hlng. apply not_true_iff_false in Hlt.
    rewrite Qlt_bool_iff in Hlt. exfalso. apply Hlt. lra.
Qed.

Lemma latLoop_covers (config : GridConfig.t) (inner fuel : nat) :
  forall (lat : Q) (cellId : nat) (grid : list GridCell.t) (fir : FIR.t),
    latLoop fuel inner config lat cellId = Some grid ->
    (lat <= FIR.latitude fir < GridConfig.maxLat config)%Q ->
    (GridConfig.minLng config <= FIR.longitude fir
     < GridConfig.maxLng config)%Q ->
    inSomeCell grid fir = true.
Proof.
  induction fuel as [|fuel IH]; intros lat cellId grid fir; simpl; [done|].
  destruct (Qlt_bool lat _) eqn:Hlt.
  - destruct (lngLoop inner _ _ _ _) as [row|] eqn:Hrow; [|done]. csimpl.
    destruct (latLoop fuel _ _ _ _) as [rest|] eqn:Hrest; [|done].
    intros [= <-] Hlat Hlng.
    rewrite inSomeCell_app. apply orb_true_iff.
    destruct (Qlt_le_dec (FIR.latitude fir)
                (lat + GridConfig.latGridSize config)) as [Hin|Hout].
    + left. eapply lngLoop_covers; [exact Hrow| |done]. split; lra.
    + right. eapply IH; [exact Hrest| |done]. split; lra.
  - intros _ Hlat _. apply not_true_iff_false in Hlt.
    rewrite Qlt_bool_iff in Hlt. exfalso. apply Hlt. lra.
Qed.

(** Every record of the region, the two maxima excluded, is in some
    cell. *)
Lemma createGrid_covers (fuel : nat) (config : GridConfig.t)
    (grid : list GridCell.t) (fir : FIR.t) :
  createGrid fuel config = Some grid ->
  inHalfOpenRegion config fir = true -> inSomeCell grid fir = true.
Proof.
  intros Hgrid [Hlat Hlng]%inHalfOpenRegion_iff.
  exact (latLoop_covers _ _ _ _ _ _ _ Hgrid Hlat Hlng).
Qed.


(** ** detectHotspots *)

Lemma detectHotspots_unfold (th : Thresholds.t) (now : Z) (fuel : nat)
    (firs : list FIR.t) (config : option GridConfig.t)
    (hotspots : list Hotspot.t) :
  detectHotspots th now fuel firs config = Some hotspots ->
  (firs = [] /\ hotspots = []) \/
  exists grid,
    firs <> [] /\
    createGrid fuel (default DEFAULT_GRID_CONFIG config) = Some grid /\
    hotspots =
      sortDesc Hotspot.firCount
        (collectHotspots th now (length firs) (assignFIRsToGrid firs grid)).
Proof.
  unfold detectHotspots. destruct firs as [|fir firs]; simpl.
  - intros [= <-]. by left.
  - destruct (createGrid fuel _) as [grid|]; [|done].
    intros [= <-]. right. by exists grid.
Qed.

Lemma detectHotspots_terminates (th : Thresholds.t) (now : Z)
    (firs : list FIR.t) (config : option GridConfig.t) :
  positiveSizes (default DEFAULT_GRID_CONFIG config) ->
  exists fuel hotspots,
    detectHotspots th now fuel firs config = Some hotspots.
Proof.
  intros (fuel & grid & Hgrid)%createGrid_terminates.
  exists fuel. unfold detectHotspots.
  destruct (length firs =? 0)%nat; [by eexists|].
  rewrite Hgrid. by eexists.
Qed.

Lemma detectHotspots_count_cells (th : Thresholds.t) (now : Z) (fuel : nat)
    (firs : list FIR.t) (config : option GridConfig.t)
    (hotspots : list Hotspot.t) (grid : list GridCell.t) :
  detectHotspots th now fuel firs config = Some hotspots ->
  createGrid fuel (default DEFAULT_GRID_CONFIG config) = Some grid ->
  hotspotCount hotspots = length (List.filter (inSomeCell grid) firs).
Proof.
  intros [[-> ->]|(grid' & _ & Hgrid' & ->)]%detectHotspots_unfold Hgrid;
    [done|].
  assert (grid' = grid) as -> by congruence.
  rewrite hotspotCount_sortDesc, collectHotspots_count.
  rewrite assignFIRsToGrid_count, (createGrid_count _ _ _ Hgrid). lia.
Qed.

(** The hotspots collected from a grid whose cells are numbered
    consecutively come in the order of the cell numbers. *)
Lemma collectHotspots_generation_order (th : Thresholds.t) (now : Z)
    (total : nat) (grid : list GridCell.t) (first : nat) :
  GridCell.id <$> grid = gridId <$> seq first (length grid) ->
  StronglySorted generatedBefore (collectHotspots th now total grid)
  /\ Forall (fun h => exists p, (first <= p)%nat /\ Hotspot.zoneId h = gridId p)
       (collectHotspots th now total grid).
Proof.
  revert first. unfold collectHotspots.
  induction grid as [|cell grid IH]; intros first Hids; csimpl.
  - split; constructor.
  - csimpl in Hids. injection Hids as Hid Hids.
    destruct (IH (S first) Hids) as [Hsorted Hall].
    assert (Hall' : Forall (fun h => exists p, (first <= p)%nat /\
                                       Hotspot.zoneId h = gridId p)
                      (omap (fun cell =>
                               if (0 <? GridCell.firCount cell)%nat
                               then Some (toHotspot th now total cell)
                               else None) grid)).
    { eapply Forall_impl; [exact Hall|].
      intros h (p & Hp & Hh). exists p. split; [lia|done]. }
    destruct (0 <? GridCell.firCount cell)%nat; [|done].
    split.
    + constructor; [done|].
      eapply Forall_impl; [exact Hall|].
      intros h (p & Hp & Hh). exists first, p. repeat split; [lia|done..].
    + constructor; [|done]. exists first. split; [lia|done].
Qed.

Lemma detectHotspots_order (th : Thresholds.t) (now : Z) (fuel : nat)
    (firs : list FIR.t) (config : option GridConfig.t)
    (hotspots : list Hotspot.t) :
  detectHotspots th now fuel firs config = Some hotspots ->
  StronglySorted (descThenBefore Hotspot.firCount generatedBefore) hotspots.
Proof.
  intros [[-> ->]|(grid & _ & Hgrid & ->)]%detectHotspots_unfold;
    [constructor|].
  apply sortDesc_stable.
  apply (collectHotspots_generation_order _ _ _ _ 0).
  rewrite assignFIRsToGrid_ids.
  rewrite (createGrid_ids _ _ _ Hgrid).
  by rewrite assignFIRsToGrid_length.
Qed.

(** ** Distance and radius search *)

Lemma sin_half_toRad_swap (x y : R) :
  (sin (toRad (x - y) / 2) = - sin (toRad (y - x) / 2))%R.
Proof.
  rewrite <- sin_neg. f_equal. unfold toRad. field.
Qed.

Lemma haversineDistance_self (lat lng : R) :
  haversineDistance lat lng lat lng = Some 0%R.
Proof.
  unfold haversineDistance.
  replace (lat - lat)%R with 0%R by ring.
  replace (lng - lng)%R with 0%R by ring.
  replace (toRad 0 / 2)%R with 0%R by (unfold toRad; field).
  rewrite sin_0.
  replace (0 * 0 + cos (toRad lat) * cos (toRad lat) * 0 * 0)%R
    with 0%R by ring.
  unfold jsSqrt.
  destruct (Rlt_dec 0 0) as [?|_]; [lra|]. csimpl.
  destruct (Rlt_dec (1 - 0) 0) as [?|_]; [lra|]. csimpl.
  rewrite sqrt_0, Rminus_0_r, sqrt_1. unfold atan2.
  destruct (Rlt_dec 0 1) as [_|?]; [|lra].
  replace (0 / 1)%R with 0%R by field. rewrite atan_0.
  f_equal. ring.
Qed.

Lemma haversineDistance_sym (lat1 lng1 lat2 lng2 : R) :
  haversineDistance lat1 lng1 lat2 lng2
  = haversineDistance lat2 lng2 lat1 lng1.
Proof.
  unfold haversineDistance.
  rewrite (sin_half_toRad_swap lat1 lat2), (sin_half_toRad_swap lng1 lng2).
  match goal with
  | |- (jsSqrt ?a ≫= _) = (jsSqrt ?b ≫= _) =>
      replace a with b by ring
  end.
  reflexivity.
Qed.

Lemma withinRadius_iff (distance : option R) (radiusKm : Q) :
  withinRadius distance radiusKm = true <->
  exists d, distance = Some d /\ (d <= Q2R radiusKm)%R.
Proof.
  unfold withinRadius, Rle_bool. destruct distance as [d|].
  - destruct (Rle_dec d (Q2R radiusKm)); split.
    + intros _. by exists d.
    + done.
    + done.
    + intros (d' & [= <-] & Hd). done.
  - split; [done|]. by intros (d & ? & _).
Qed.

Global Instance isNearby_dec (centerLat centerLng radiusKm : Q) (fir : FIR.t) :
  Decision (isNearby centerLat centerLng radiusKm fir).
Proof.
  unfold isNearby.
  destruct (haversineDistance _ _ _ _) as [d|].
  - destruct (Rle_dec d (Q2R radiusKm)) as [Hd|Hd].
    + left. by exists d.
    + right. by intros (d' & [= <-] & Hd').
  - right. by intros (d & ? & _).
Defined.

Lemma findNearbyFIRs_elem_of (firs : list FIR.t)
    (centerLat centerLng radiusKm : Q) (fir : FIR.t) :
  fir ∈ findNearbyFIRs firs centerLat centerLng radiusKm <->
  fir ∈ firs /\ isNearby centerLat centerLng radiusKm fir.
Proof.
  unfold findNearbyFIRs, isNearby.
  by rewrite list_elem_of_In, filter_In, <- list_elem_of_In, withinRadius_iff.
Qed.

Lemma findNearbyFIRs_sublist (firs : list FIR.t)
    (centerLat centerLng radiusKm : Q) :
  findNearbyFIRs firs centerLat centerLng radiusKm `sublist_of` firs.
Proof.
  unfold findNearbyFIRs.
  induction firs as [|fir firs IH]; simpl; [done|].
  destruct (withinRadius _ _); by constructor.
Qed.

(** The boundary of the radius search is inclusive: with radius 0 a
    record at the center itself (distance 0) is returned. *)
Lemma findNearbyFIRs_radius_zero (firs : list FIR.t) (fir : FIR.t) :
  fir ∈ firs ->
  fir ∈ findNearbyFIRs firs (FIR.latitude fir) (FIR.longitude fir) 0.
Proof.
  intros Hfir. apply findNearbyFIRs_elem_of. split; [done|].
  exists 0%R. split; [apply haversineDistance_self|].
  unfold Q2R. simpl. lra.
Qed.

(** ** Clustering *)

Lemma concat_perm {A : Type} (l1 l2 : list (list A)) :
  l1 ≡ₚ l2 -> concat l1 ≡ₚ concat l2.
Proof.
  induction 1 as [|x l1 l2 _ IH|x y l|l1 l2 l3 _ IH1 _ IH2]; simpl.
  - done.
  - by rewrite IH.
  - rewrite !(assoc app). f_equiv. apply Permutation_app_comm.
  - by etrans.
Qed.

Lemma elem_of_concat {A : Type} (x : A) (ls : list (list A)) :
  x ∈ concat ls <-> exists l, x ∈ l /\ l ∈ ls.
Proof.
  induction ls as [|l' ls IH]; simpl.
  - split; [by intros ?%elem_of_nil|]. by intros (l & _ & ?%elem_of_nil).
  - rewrite elem_of_app, IH. split.
    + intros [Hx|(l & Hx & Hl)]; [exists l'|exists l];
        (split; [done|]); [by left|by right].
    + intros (l & Hx & [->|Hl]%elem_of_cons); [by left|].
      right. by exists l.
Qed.

Lemma clusterSizes_concat (clusters : list (list FIR.t)) :
  clusterSizes clusters = length (concat clusters).
Proof.
  unfold clusterSizes. induction clusters as [|c clusters IH]; simpl; [done|].
  by rewrite length_app, IH.
Qed.

(** The inner loop appends to the cluster the records of [nearby] whose
    identifier has not been seen, each identifier once. *)
Lemma visitNearby_fold (nearby : list FIR.t) :
  forall (cluster : list FIR.t) (visited : gset string),
  exists added,
    fold_left visitNearby nearby (cluster, visited)
    = (cluster ++ added, list_to_set (FIR.id <$> added) ∪ visited)
    /\ added `sublist_of` nearby
    /\ NoDup (FIR.id <$> added)
    /\ (forall fir, fir ∈ added -> FIR.id fir ∉ visited)
    /\ (forall fir, fir ∈ nearby ->
          FIR.id fir ∈ list_to_set (C := gset string) (FIR.id <$> added)
                        ∪ visited).
Proof.
  induction nearby as [|near nearby IH]; intros cluster visited.
  - exists []. simpl. rewrite app_nil_r.
    repeat split; [f_equal; set_solver|done|constructor|set_solver..].
  - cbn [fold_left]. unfold visitNearby at 2.
    destruct (decide (FIR.id near ∈ visited)) as [Hin|Hout].
    + destruct (IH cluster visited) as (added & -> & Hsub & Hnd & Hnew & Hall).
      exists added. repeat split; [by constructor|done..|].
      intros fir [->|Hfir]%elem_of_cons; [set_solver|by apply Hall].
    + destruct (IH (cluster ++ [near]) ({[FIR.id near]} ∪ visited))
        as (added & -> & Hsub & Hnd & Hnew & Hall).
      exists (near :: added). csimpl. repeat split.
      * f_equal; [by rewrite <- (assoc app)|set_solver].
      * by constructor.
      * constructor; [|done]. intros (fir & Hid & Hfir)%list_elem_of_fmap.
        apply (Hnew fir Hfir). set_solver.
      * intros fir [->|Hfir]%elem_of_cons; [done|].
        specialize (Hnew fir Hfir). set_solver.
      * intros fir [->|Hfir]%elem_of_cons; [set_solver|].
        specialize (Hall fir Hfir). set_solver.
Qed.

(** When every nearby record has been seen the inner loop changes
    nothing. *)
Lemma visitNearby_fold_visited (nearby cluster : list FIR.t)
    (visited : gset string) :
  (forall fir, fir ∈ nearby -> FIR.id fir ∈ visited) ->
  fold_left visitNearby nearby (cluster, visited) = (cluster, visited).
Proof.
  induction nearby as [|near nearby IH]; intros Hall; simpl; [done|].
  rewrite decide_True by (apply Hall; left).
  apply IH. intros fir Hfir. apply Hall. by right.
Qed.

Lemma clusterStep_inv (firs : list FIR.t) (radiusKm : Q)
    (st : list (list FIR.t) * gset string) (fir : FIR.t) :
  clusterInv firs st ->
  fir ∈ firs ->
  clusterInv firs (clusterStep firs radiusKm st fir)
  /\ st.2 ⊆ (clusterStep firs radiusKm st fir).2
  /\ FIR.id fir ∈ (clusterStep firs radiusKm st fir).2.
Proof.
  destruct st as [clusters visited].
  intros (Hvis & Hnd & Hsub & Hne) Hfir. simpl in *.
  unfold clusterStep.
  destruct (decide (FIR.id fir ∈ visited)) as [Hin|Hout].
  { repeat split; done. }
  destruct (visitNearby_fold
              (findNearbyFIRs firs (FIR.latitude fir) (FIR.longitude fir)
                 radiusKm) [fir] ({[FIR.id fir]} ∪ visited))
    as (added & -> & Hadded & Hndadd & Hnew & _).
  simpl.
  assert (Hconcat : concat (clusters ++ [fir :: added])
                    = concat clusters ++ fir :: added).
  { by rewrite concat_app; simpl; rewrite app_nil_r. }
  repeat split; simpl.
  - rewrite Hconcat, fmap_app, list_to_set_app_L. csimpl. set_solver.
  - rewrite Hconcat, fmap_app. csimpl. apply NoDup_app. repeat split.
    + done.
    + intros id Hid [->|Hid']%elem_of_cons.
      * apply Hout. rewrite Hvis. by apply elem_of_list_to_set.
      * apply list_elem_of_fmap in Hid' as (near & -> & Hnear).
        apply (Hnew near Hnear).
        rewrite Hvis. apply elem_of_union_r. by apply elem_of_list_to_set.
    + constructor; [|done].
      intros (near & Hid & Hnear)%list_elem_of_fmap.
      apply (Hnew near Hnear). set_solver.
  - rewrite Hconcat. intros x [Hx|[->|Hx]%elem_of_cons]%elem_of_app.
    + by apply Hsub.
    + done.
    + eapply elem_of_sublist in Hx; [|exact Hadded].
      by apply findNearbyFIRs_elem_of in Hx as [? _].
  - apply Forall_app. split; [done|]. by repeat constructor.
  - set_solver.
  - set_solver.
Qed.

Lemma clusterStep_fold_inv (firs : list FIR.t) (radiusKm : Q)
    (todo : list FIR.t) :
  forall st,
    clusterInv firs st ->
    (forall fir, fir ∈ todo -> fir ∈ firs) ->
    clusterInv firs (fold_left (clusterStep firs radiusKm) todo st)
    /\ st.2 ⊆ (fold_left (clusterStep firs radiusKm) todo st).2
    /\ (forall fir, fir ∈ todo ->
          FIR.id fir ∈ (fold_left (clusterStep firs radiusKm) todo st).2).
Proof.
  induction todo as [|fir todo IH]; intros st Hinv Htodo; simpl.
  - split; [done|]. split; [done|]. by intros fir ?%elem_of_nil.
  - destruct (clusterStep_inv firs radiusKm st fir Hinv) as (Hinv' & Hmono & Hfir);
      [apply Htodo; left|].
    destruct (IH _ Hinv') as (Hinv'' & Hmono' & Hall);
      [intros x Hx; apply Htodo; by right|].
    split; [done|]. split; [set_solver|].
    intros x [->|Hx]%elem_of_cons; [set_solver|by apply Hall].
Qed.

(** Whatever the input, the clustered records are input records with
    pairwise distinct identifiers, every identifier of the input is the
    identifier of a clustered record, and no cluster is empty. *)
Lemma clusterFIRs_ids (firs : list FIR.t) (radiusKm : option Q) :
  NoDup (FIR.id <$> concat (clusterFIRs firs radiusKm))
  /\ (forall fir, fir ∈ concat (clusterFIRs firs radiusKm) -> fir ∈ firs)
  /\ (forall fir, fir ∈ firs ->
        FIR.id fir ∈ FIR.id <$> concat (clusterFIRs firs radiusKm))
  /\ Forall (fun cluster => cluster <> []) (clusterFIRs firs radiusKm).
Proof.
  unfold clusterFIRs.
  destruct (clusterStep_fold_inv firs (default (1 # 2) radiusKm) firs ([], ∅))
    as ((Hvis & Hndc & Hsub & Hne) & _ & Hall).
  { split; [|split; [|split]]; simpl;
      [set_solver|constructor|by intros ? ?%elem_of_nil|done]. }
  { done. }
  destruct (fold_left _ firs _) as [clusters visited]. simpl in *.
  pose proof (concat_perm _ _ (sortDesc_perm length clusters)) as Hperm.
  split; [by rewrite Hperm|]. split; [|split].
  - intros fir. rewrite Hperm. apply Hsub.
  - intros fir Hfir. rewrite Hperm.
    apply (elem_of_list_to_set (C := gset string)).
    rewrite <- Hvis. by apply Hall.
  - eapply Forall_forall. intros cluster Hc.
    rewrite sortDesc_perm in Hc.
    by eapply Forall_forall in Hne.
Qed.

(** The clusters, listed one after the other, are the input records up
    to order, as soon as the identifiers of the input are pairwise
    distinct. *)
Lemma clusterFIRs_perm (firs : list FIR.t) (radiusKm : option Q) :
  NoDup (FIR.id <$> firs) ->
  concat (clusterFIRs firs radiusKm) ≡ₚ firs
  /\ Forall (fun cluster => cluster <> []) (clusterFIRs firs radiusKm).
Proof.
  intros Hnd.
  destruct (clusterFIRs_ids firs radiusKm) as (Hndc & Hsub & Hall & Hne).
  split; [|done].
  apply NoDup_Permutation.
  - by apply NoDup_fmap_1 in Hndc.
  - by apply NoDup_fmap_1 in Hnd.
  - intros fir. split; [apply Hsub|]. intros Hfir.
    destruct (proj1 (list_elem_of_fmap _ _ _) (Hall fir Hfir))
      as (fir' & Hid & Hfir').
    assert (fir = fir') as ->; [|done].
    pose proof (Hsub fir' Hfir') as Hin'.
    apply list_elem_of_lookup in Hfir as [i Hi].
    apply list_elem_of_lookup in Hin' as [j Hj].
    assert (i = j) as Hij.
    { eapply (NoDup_lookup _ i j (FIR.id fir)); [exact Hnd|..];
        rewrite list_lookup_fmap; [by rewrite Hi|by rewrite Hj, Hid]. }
    rewrite Hij in Hi. congruence.
Qed.

(** Two records that share an identifier: the second one reaches no
    cluster, whatever the positions and the radius. *)
Lemma clusterFIRs_shared_id (a b : FIR.t) (radiusKm : option Q) :
  FIR.id a = FIR.id b -> clusterFIRs [a; b] radiusKm = [[a]].
Proof.
  intros Hid. unfold clusterFIRs. cbn [fold_left].
  unfold clusterStep at 2.
  rewrite decide_False by set_solver.
  rewrite visitNearby_fold_visited.
  - simpl. unfold clusterStep. rewrite decide_True by set_solver. done.
  - intros fir [Hfir _]%findNearbyFIRs_elem_of.
    apply elem_of_cons in Hfir as [->|Hfir]; [set_solver|].
    apply list_elem_of_singleton in Hfir as ->. set_solver.
Qed.

Lemma NoDup_concat_unique {A : Type} (ls : list (list A)) (i j : nat)
    (l1 l2 : list A) (x : A) :
  NoDup (concat ls) ->
  ls !! i = Some l1 -> ls !! j = Some l2 -> x ∈ l1 -> x ∈ l2 -> i = j.
Proof.
  revert i j. induction ls as [|l ls IH]; intros i j Hnd Hi Hj H1 H2;
    [done|].
  simpl in Hnd. apply NoDup_app in Hnd as (_ & Hdisj & Hnd).
  assert (Hin : forall k l', ls !! k = Some l' -> x ∈ l' -> x ∈ concat ls).
  { intros k l' Hk Hx. apply elem_of_concat. exists l'. split; [done|].
    by eapply list_elem_of_lookup_2. }
  destruct i as [|i], j as [|j]; simpl in *; simplify_eq.
  - done.
  - exfalso. eapply Hdisj; [exact H1|]. by eapply Hin.
  - exfalso. eapply Hdisj; [exact H2|]. by eapply Hin.
  - f_equal. by eapply IH.
Qed.

(** ** Peak hours *)

(** The bucket of the [hourCounts] object under a key holds the number
    of records with that parsed hour. *)
Lemma hourCounts_lookup (firs : list FIR.t) (key : option Z) :
  default 0%nat (hourCounts firs !! key)
  = length (List.filter (fun fir => bool_decide (hourOf fir = key)) firs).
Proof.
  unfold hourCounts.
  enough (Hgen : forall m : gmap (option Z) nat,
             default 0%nat
               (fold_left
                  (fun (m : gmap (option Z) nat) fir =>
                     <[hourOf fir := (default 0 (m !! hourOf fir) + 1)%nat]> m)
                  firs m !! key)
             = (default 0%nat (m !! key)
                + length (List.filter
                            (fun fir => bool_decide (hourOf fir = key)) firs))%nat).
  { by rewrite Hgen, lookup_empty. }
  induction firs as [|fir firs IH]; intros m; simpl; [lia|].
  rewrite IH. case_bool_decide as Hkey.
  - rewrite Hkey, lookup_insert_eq. simpl. lia.
  - by rewrite lookup_insert_ne.
Qed.

Lemma getPeakHours_perm (firs : list FIR.t) :
  getPeakHours firs
  ≡ₚ map (fun i => {| HourCount.hour := i;
                      HourCount.count := hourCount firs i |}) (seq 0 24).
Proof.
  unfold getPeakHours. rewrite sortDesc_perm.
  erewrite map_ext; [done|]. intros i. simpl.
  by rewrite hourCounts_lookup.
Qed.

Lemma StronglySorted_weaken_elem {A : Type} (R1 R2 : A -> A -> Prop)
    (l : list A) :
  (forall a b, a ∈ l -> b ∈ l -> R1 a b -> R2 a b) ->
  StronglySorted R1 l -> StronglySorted R2 l.
Proof.
  intros Himp Hs. induction Hs as [|x l Hs IH Hx]; constructor.
  - apply IH. intros a b Ha Hb. apply Himp; by right.
  - rewrite Forall_forall in Hx. apply Forall_forall. intros y Hy.
    apply Himp; [by left|by right|by apply Hx].
Qed.

(** The 24 buckets before sorting are in increasing order of hour. *)
Lemma buckets_by_hour (count : nat -> nat) (first n : nat) :
  StronglySorted
    (fun a b => (HourCount.hour a < HourCount.hour b)%nat)
    (map (fun i => {| HourCount.hour := i; HourCount.count := count i |})
       (seq first n)).
Proof.
  revert first. induction n as [|n IH]; intros first; simpl; constructor.
  - apply IH.
  - apply Forall_forall. intros b Hb.
    apply list_elem_of_In, in_map_iff in Hb as (i & <- & Hi).
    apply in_seq in Hi. simpl. lia.
Qed.

(** Every bucket of [getPeakHours] is one of the hours 0..23 with the
    number of records of that hour. *)
Lemma getPeakHours_bucket (firs : list FIR.t) (b : HourCount.t) :
  b ∈ getPeakHours firs <->
  (HourCount.hour b < 24)%nat
  /\ HourCount.count b = hourCount firs (HourCount.hour b).
Proof.
  rewrite getPeakHours_perm, list_elem_of_In, in_map_iff.
  split.
  - intros (i & <- & Hi). apply in_seq in Hi. simpl. split; [lia|done].
  - intros [Hlt Hcount]. exists (HourCount.hour b). split.
    + destruct b as [h c]. simpl in *. by rewrite Hcount.
    + apply in_seq. lia.
Qed.

(** [getPeakHours] lists the buckets by rank. *)
Lemma getPeakHours_ranked (firs : list FIR.t) :
  StronglySorted
    (fun a b => ranksBefore firs (HourCount.hour a) (HourCount.hour b))
    (getPeakHours firs).
Proof.
  eapply StronglySorted_weaken_elem; last first.
  - unfold getPeakHours. apply sortDesc_stable. apply buckets_by_hour.
  - intros a b [_ Ha]%getPeakHours_bucket [_ Hb]%getPeakHours_bucket.
    unfold descThenBefore, ranksBefore. rewrite Ha, Hb. tauto.
Qed.

Lemma getPeakHours_length (firs : list FIR.t) :
  length (getPeakHours firs) = 24%nat.
Proof. unfold getPeakHours. by rewrite sortDesc_length, length_map, length_seq. Qed.

(** ** Dependence on the clock and on the fuel *)

Lemma sortDesc_map {A B : Type} (keyA : A -> nat) (keyB : B -> nat)
    (f : A -> B) (l : list A) :
  (forall a, keyB (f a) = keyA a) ->
  map f (sortDesc keyA l) = sortDesc keyB (map f l).
Proof.
  intros Hkey. induction l as [|x l IH]; simpl; [done|].
  rewrite <- IH. generalize (sortDesc keyA l). clear IH.
  intros s. induction s as [|y s IH]; simpl; [done|].
  rewrite !Hkey. destruct (keyA x <? keyA y)%nat; simpl; [|done].
  by rewrite IH.
Qed.

Lemma collectHotspots_clock (th : Thresholds.t) (now1 now2 : Z)
    (total : nat) (grid : list GridCell.t) :
  map withoutLastUpdated (collectHotspots th now1 total grid)
  = map withoutLastUpdated (collectHotspots th now2 total grid).
Proof.
  unfold collectHotspots.
  induction grid as [|cell grid IH]; csimpl; [done|].
  destruct (0 <? GridCell.firCount cell)%nat; csimpl; [|done].
  by rewrite IH.
Qed.

(** The result of a loop does not depend on the fuel left over. *)
Lemma lngLoop_fuel (config : GridConfig.t) (lat : Q) (fuel1 : nat) :
  forall (fuel2 : nat) (lng : Q) (cellId : nat) (row1 row2 : list GridCell.t),
    lngLoop fuel1 config lat lng cellId = Some row1 ->
    lngLoop fuel2 config lat lng cellId = Some row2 ->
    row1 = row2.
Proof.
  induction fuel1 as [|fuel1 IH]; intros [|fuel2] lng cellId row1 row2;
    simpl; try done.
  destruct (Qlt_bool lng _); [|congruence].
  destruct (lngLoop fuel1 _ _ _ _) as [rest1|] eqn:H1; [|done].
  destruct (lngLoop fuel2 _ _ _ _) as [rest2|] eqn:H2; [|done].
  intros [= <-] [= <-]. f_equal. by eapply IH.
Qed.

Lemma latLoop_fuel (config : GridConfig.t) (inner1 inner2 fuel1 : nat) :
  forall (fuel2 : nat) (lat : Q) (cellId : nat) (grid1 grid2 : list GridCell.t),
    latLoop fuel1 inner1 config lat cellId = Some grid1 ->
    latLoop fuel2 inner2 config lat cellId = Some grid2 ->
    grid1 = grid2.
Proof.
  induction fuel1 as [|fuel1 IH]; intros [|fuel2] lat cellId grid1 grid2;
    simpl; try done.
  destruct (Qlt_bool lat _); [|congruence].
  destruct (lngLoop inner1 _ _ _ _) as [row1|] eqn:Hr1; [|done].
  destruct (lngLoop inner2 _ _ _ _) as [row2|] eqn:Hr2; [|done].
  assert (row1 = row2) as -> by by eapply lngLoop_fuel.
  csimpl.
  destruct (latLoop fuel1 _ _ _ _) as [rest1|] eqn:H1; [|done].
  destruct (latLoop fuel2 _ _ _ _) as [rest2|] eqn:H2; [|done].
  intros [= <-] [= <-]. f_equal. by eapply IH.
Qed.

Lemma createGrid_fuel (config : GridConfig.t) (fuel1 fuel2 : nat)
    (grid1 grid2 : list GridCell.t) :
  createGrid fuel1 config = Some grid1 ->
  createGrid fuel2 config = Some grid2 ->
  grid1 = grid2.
Proof. apply latLoop_fuel. Qed.

Lemma detectHotspots_clock_fuel (th : Thresholds.t) (now1 now2 : Z)
    (fuel1 fuel2 : nat) (firs : list FIR.t) (config : option GridConfig.t)
    (hotspots1 hotspots2 : list Hotspot.t) :
  detectHotspots th now1 fuel1 firs config = Some hotspots1 ->
  detectHotspots th now2 fuel2 firs config = Some hotspots2 ->
  map withoutLastUpdated hotspots1 = map withoutLastUpdated hotspots2.
Proof.
  intros [[-> ->]|(grid1 & Hne & Hgrid1 & ->)]%detectHotspots_unfold
         [[? ->]|(grid2 & ? & Hgrid2 & ->)]%detectHotspots_unfold;
    try done.
  assert (grid1 = grid2) as -> by by eapply createGrid_fuel.
  rewrite !(sortDesc_map Hotspot.firCount Hotspot.firCount withoutLastUpdated)
    by done.
  by rewrite (collectHotspots_clock th now1 now2).
Qed.

(** ** Checks on the example inputs *)

(** 'should count crimes by hour correctly' *)
Example getPeakHours_insightTestFIRs :
  head (getPeakHours insightTestFIRs)
  = Some {| HourCount.hour := 14; HourCount.count := 2 |}
  /\ getPredictedPeakHours insightTestFIRs = [14; 22; 0]%nat.
Proof. split; vm_compute; reflexivity. Qed.

(** Ties go to the lower hour, inside the top three and at the cut:
    hours 14 and 22 have two records each, hours 9 and 23 one each. *)
Example getPredictedPeakHours_exampleFIRs :
  getPredictedPeakHours exampleFIRs = [14; 22; 9]%nat.
Proof. vm_compute. reflexivity. Qed.

(** [getCenter] on a single record returns that record's coordinates. *)
Lemma getCenter_single (fir : FIR.t) :
  exists center,
    getCenter [fir] = Some center
    /\ (LatLng.lat center == FIR.latitude fir)%Q
    /\ (LatLng.lng center == FIR.longitude fir)%Q.
Proof.
  eexists. split; [reflexivity|]. simpl. split; field.
Qed.

(** 'should calculate bounding box' *)
Example calculateBounds_testFIRs :
  calculateBounds testFIRs
  = {| Bounds.minLat := 285355 # 10000; Bounds.maxLat := 286000 # 10000;
       Bounds.minLng := 773910 # 10000; Bounds.maxLng := 774000 # 10000 |}.
Proof. vm_compute. reflexivity. Qed.

(** ** Replay of the examples on IEEE doubles *)

Module Float64Replay.
Import PrimFloat.

(** The counterexample of C1: with cells of size 0.75 the record at
    latitude 1.25, longitude 0.25 goes to cell 2. *)
Example float64_beyond_maximum :
  (fun grid => (length grid, Float64.assignedCell grid 0 1.25 0.25))
    <$> Float64.createGrid 3 (Float64.unitConfig 0.75)
  = Some (4%nat, Some 2%nat).
Proof. vm_compute. reflexivity. Qed.

(** The counterexample of C4: with cells of size 0.5 the records at
    latitude 1 and at longitude 1 are dropped. *)
Example float64_on_maximum :
  (fun grid => (length grid, Float64.assignedCell grid 0 1 0.25,
                Float64.assignedCell grid 0 0.25 1))
    <$> Float64.createGrid 3 (Float64.unitConfig 0.5)
  = Some (4%nat, None, None).
Proof. vm_compute. reflexivity. Qed.

(** On the default configuration the repeated additions of 0.05 are
    rounded: the latitude of the last row ends above 28.9 and the
    longitudes take a thirteenth step below 77.4, so the program builds
    10 rows of 13 cells (the exact model: 10 rows of 12) and keeps a
    record on the configured maximum in the last row or column: the
    last cells reach beyond the maxima. *)
Example float64_default_grid :
  (fun grid => (length grid, Float64.assignedCell grid 0 28.9 77.0,
                Float64.assignedCell grid 0 28.5 77.4))
    <$> Float64.createGrid 14 Float64.DEFAULT_GRID_CONFIG
  = Some (130%nat, Some 121%nat, Some 38%nat).
Proof. vm_compute. reflexivity. Qed.

Example exact_default_grid :
  length <$> createGrid 13 DEFAULT_GRID_CONFIG = Some 120%nat.
Proof. vm_compute. reflexivity. Qed.

(** The three records of [testFIRs] on the default configuration: the
    program keeps all three, the third one (longitude 77.4, the
    configured maximum) in the thirteenth cell of its row; in the exact
    model that cell does not exist and the record is dropped. *)
Example float64_test_records :
  (fun grid => (Float64.assignedCell grid 0 28.5355 77.3910,
                Float64.assignedCell grid 0 28.5360 77.3920,
                Float64.assignedCell grid 0 28.6000 77.4000))
    <$> Float64.createGrid 14 Float64.DEFAULT_GRID_CONFIG
  = Some (Some 37%nat, Some 37%nat, Some 64%nat).
Proof. vm_compute. reflexivity. Qed.

Example exact_test_records :
  (fun grid => inSomeCell grid <$> testFIRs)
    <$> createGrid 13 DEFAULT_GRID_CONFIG
  = Some [true; true; false].
Proof. vm_compute. reflexivity. Qed.

End Float64Replay.

(** * The claims *)

(** ** Hotspot counts (C1) *)




(** ** Cell bounds (C4) *)

(** C4, as stated, fails: with the region [0,1] x [0,1] and cells of
    size 1/2 the record at latitude 1 (the configured maximum) and
    longitude 1/4 is in no cell, and so is the record at latitude 1/4 and
    longitude 1; both are dropped. *)
Lemma outer_edge_inclusive_counterexample :
  let config := unitConfig (1 # 2) in
  let onMaxLat := exampleFIR "FIR004" "14:05" 1 (1 # 4) in
  let onMaxLng := exampleFIR "FIR006" "14:05" (1 # 4) 1 in
  exists grid,
    createGrid 3 config = Some grid
    /\ (FIR.latitude onMaxLat == GridConfig.maxLat config)%Q
    /\ inSomeCell grid onMaxLat = false
    /\ assignFIRsToGrid [onMaxLat] grid = grid
    /\ (FIR.longitude onMaxLng == GridConfig.maxLng config)%Q
    /\ inSomeCell grid onMaxLng = false
    /\ assignFIRsToGrid [onMaxLng] grid = grid
    /\ detectHotspots exampleThresholds 0 3 [onMaxLat; onMaxLng] (Some config)
       = Some [].
Proof. eexists. repeat split; vm_compute; reflexivity. Qed.

(** C4, amended: every cell, the outermost ones included, has half-open
    bounds on both axes; a record goes to the first cell whose bounds
    contain it and is dropped when there is none.  So a record on the
    configured maximum is kept only where a cell reaches beyond that
    maximum: when every cell ends at or below the latitude of the record,
    or every cell ends at or below its longitude, the record is dropped.
    The records with minLat <= latitude < maxLat and
    minLng <= longitude < maxLng are always kept. *)
Theorem grid_cells_half_open (grid : list GridCell.t) (fir : FIR.t) :
  (forall cell,
      cell ∈ grid ->
      cellContains cell fir = true <->
      (GridCell.minLat cell <= FIR.latitude fir < GridCell.maxLat cell)%Q /\
      (GridCell.minLng cell <= FIR.longitude fir < GridCell.maxLng cell)%Q)
  /\ (inSomeCell grid fir = true ->
      exists front cell back,
        grid = front ++ cell :: back /\
        Forall (fun c => cellContains c fir = false) front /\
        cellContains cell fir = true /\
        assignFIRsToGrid [fir] grid = front ++ pushFIR cell fir :: back)
  /\ (inSomeCell grid fir = false -> assignFIRsToGrid [fir] grid = grid)
  /\ (Forall (fun cell => (GridCell.maxLat cell <= FIR.latitude fir)%Q) grid
      \/ Forall (fun cell => (GridCell.maxLng cell <= FIR.longitude fir)%Q)
           grid ->
      inSomeCell grid fir = false
      /\ assignFIRsToGrid [fir] grid = grid)
  /\ (forall fuel config,
         createGrid fuel config = Some grid ->
         inHalfOpenRegion config fir = true ->
         inSomeCell grid fir = true).
Proof.
  split; [|split; [|split; [|split]]].
  - intros cell _. apply cellContains_iff.
  - apply assignFIR_first.
  - apply assignFIR_dropped.
  - intros Hends.
    assert (Hout : inSomeCell grid fir = false).
    { apply not_true_iff_false.
      intros (cell & Hcell & [[_ Hlat] [_ Hlng]]%cellContains_iff)
               %inSomeCell_iff.
      destruct Hends as [Hends|Hends]; rewrite Forall_forall in Hends;
        specialize (Hends cell Hcell); lra. }
    split; [exact Hout|]. by apply assignFIR_dropped.
  - intros fuel config. apply createGrid_covers.
Qed.

Lemma grid_cells_half_open_witness :
  let config := unitConfig (1 # 2) in
  let onMaxLat := exampleFIR "FIR004" "14:05" 1 (1 # 4) in
  let inside := exampleFIR "FIR001" "14:30" (1 # 4) (1 # 4) in
  let grid := default [] (createGrid 3 config) in
  createGrid 3 config = Some grid
  /\ Forall (fun cell => (GridCell.maxLat cell <= FIR.latitude onMaxLat)%Q)
       grid
  /\ inSomeCell grid onMaxLat = false
  /\ assignFIRsToGrid [onMaxLat] grid = grid
  /\ inSomeCell grid inside = true.
Proof.
  intros config onMaxLat inside grid.
  assert (Hgrid : createGrid 3 config = Some grid)
    by (vm_compute; reflexivity).
  assert (Hends : Forall
                    (fun cell =>
                       (GridCell.maxLat cell <= FIR.latitude onMaxLat)%Q)
                    grid).
  { repeat (constructor; [vm_compute; discriminate|]). constructor. }
  destruct (grid_cells_half_open grid onMaxLat) as (_ & _ & _ & Houter & _).
  destruct (Houter (or_introl Hends)) as [Hout Hdropped].
  destruct (grid_cells_half_open grid inside) as (_ & _ & _ & _ & Hkept).
  split; [exact Hgrid|]. split; [exact Hends|]. split; [exact Hout|].
  split; [exact Hdropped|].
  apply (Hkept 3%nat config Hgrid). vm_compute; reflexivity.
Defined.

(** ** Hotspot order (C5) *)

(** C5: the hotspots come in non-increasing order of [firCount], and
    of two hotspots with the same [firCount] the one whose cell was
    generated first (the smaller cell number in the row-major numbering
    GRID_0, GRID_1, ...) comes first; with positive cell sizes
    [detectHotspots] returns. *)
Theorem detectHotspots_sorted (th : Thresholds.t) (now : Z)
    (firs : list FIR.t) (config : option GridConfig.t) :
  (forall fuel hotspots,
      detectHotspots th now fuel firs config = Some hotspots ->
      StronglySorted
        (fun a b => (Hotspot.firCount b <= Hotspot.firCount a)%nat) hotspots
      /\ StronglySorted (descThenBefore Hotspot.firCount generatedBefore)
           hotspots)
  /\ (positiveSizes (default DEFAULT_GRID_CONFIG config) ->
      exists fuel hotspots,
        detectHotspots th now fuel firs config = Some hotspots).
Proof.
  split; [|apply detectHotspots_terminates].
  intros fuel hotspots Hdetect.
  pose proof (detectHotspots_order _ _ _ _ _ _ Hdetect) as Hsorted.
  split; [|done].
  eapply StronglySorted_weaken; [|exact Hsorted].
  intros a b [?|[-> _]]; lia.
Qed.

Lemma detectHotspots_sorted_witness :
  exists hotspots,
    detectHotspots exampleThresholds 0 3 exampleFIRs
      (Some (unitConfig (1 # 2))) = Some hotspots
    /\ Hotspot.zoneId <$> hotspots = ["GRID_3"; "GRID_0"; "GRID_1"]
    /\ Hotspot.firCount <$> hotspots = [2; 1; 1]%nat
    /\ StronglySorted (descThenBefore Hotspot.firCount generatedBefore)
         hotspots.
Proof.
  eexists. split; [vm_compute; reflexivity|].
  split; [reflexivity|]. split; [reflexivity|].
  apply (proj1 (detectHotspots_sorted exampleThresholds 0 exampleFIRs
                  (Some (unitConfig (1 # 2)))) 3%nat).
  vm_compute; reflexivity.
Defined.

(** ** Empty input (C9) *)

(** C9: on the empty record set [detectHotspots] returns the empty list
    (whatever the configuration and the fuel: the grid is not built),
    [clusterFIRs] returns the empty list, [calculateBounds] returns the
    bounds of [DEFAULT_GRID_CONFIG], [getCenter] returns [null] and
    [findNearbyFIRs] returns the empty list. *)
Theorem empty_input_results (th : Thresholds.t) (now : Z) (fuel : nat)
    (config : option GridConfig.t) (radius : option Q)
    (centerLat centerLng radiusKm : Q) :
  detectHotspots th now fuel [] config = Some []
  /\ clusterFIRs [] radius = []
  /\ calculateBounds [] = configBounds DEFAULT_GRID_CONFIG
  /\ Bounds.minLat (calculateBounds []) = 284 # 10
  /\ Bounds.maxLat (calculateBounds []) = 289 # 10
  /\ Bounds.minLng (calculateBounds []) = 768 # 10
  /\ Bounds.maxLng (calculateBounds []) = 774 # 10
  /\ getCenter [] = None
  /\ findNearbyFIRs [] centerLat centerLng radiusKm = [].
Proof. repeat split. Qed.

(** ** Haversine distance (C8) *)

(** C8: the distance from a point to itself is 0, and the distance
    between two points does not depend on their order. *)
Theorem haversineDistance_self_sym (lat1 lng1 lat2 lng2 : R) :
  haversineDistance lat1 lng1 lat1 lng1 = Some 0%R
  /\ haversineDistance lat1 lng1 lat2 lng2
     = haversineDistance lat2 lng2 lat1 lng1.
Proof.
  split; [apply haversineDistance_self | apply haversineDistance_sym].
Qed.

(** ** Radius search (C6, C10) *)

(** C6: [findNearbyFIRs] returns exactly the input records whose
    haversine distance to the center is at most the radius (a record at
    distance equal to the radius included, a record at a greater distance
    or with a NaN distance excluded), every occurrence kept. *)
Theorem findNearbyFIRs_exact (firs : list FIR.t)
    (centerLat centerLng radiusKm : Q) :
  findNearbyFIRs firs centerLat centerLng radiusKm
  = filter (isNearby centerLat centerLng radiusKm) firs
  /\ forall fir,
       fir ∈ findNearbyFIRs firs centerLat centerLng radiusKm <->
       fir ∈ firs /\
       exists distance : R,
         haversineDistance (Q2R centerLat) (Q2R centerLng)
           (Q2R (FIR.latitude fir)) (Q2R (FIR.longitude fir)) = Some distance
         /\ (distance <= Q2R radiusKm)%R.
Proof.
  split; [|intros fir; apply findNearbyFIRs_elem_of].
  unfold findNearbyFIRs.
  induction firs as [|fir firs IH]; [done|].
  cbn [List.filter]. rewrite filter_cons.
  destruct (decide (isNearby centerLat centerLng radiusKm fir)) as [Hn|Hn].
  - apply withinRadius_iff in Hn as ->. by rewrite IH.
  - destruct (withinRadius _ _) eqn:Hw; [|done].
    by apply withinRadius_iff in Hw.
Qed.

(** C10: the list [findNearbyFIRs] returns is a subsequence of the
    input: obtained by deleting elements, the others kept in their
    order; so each returned record occurs in the input, and a record that
    occurs once in the input occurs at most once in the result. *)
Theorem findNearbyFIRs_subsequence (firs : list FIR.t)
    (centerLat centerLng radiusKm : Q) :
  let nearby := findNearbyFIRs firs centerLat centerLng radiusKm in
  nearby `sublist_of` firs
  /\ (forall fir, fir ∈ nearby -> fir ∈ firs)
  /\ (length nearby <= length firs)%nat
  /\ (NoDup firs -> NoDup nearby).
Proof.
  intros nearby.
  pose proof (findNearbyFIRs_sublist firs centerLat centerLng radiusKm) as Hsub.
  repeat split.
  - done.
  - intros fir Hfir. by eapply elem_of_sublist.
  - by apply sublist_length.
  - intros Hnd. by eapply sublist_NoDup.
Qed.

Lemma findNearbyFIRs_subsequence_witness :
  let firs := [exampleFIR "FIR001" "14:30" (1 # 4) (1 # 4)] in
  NoDup firs /\ NoDup (findNearbyFIRs firs (1 # 4) (1 # 4) (1 # 2)).
Proof.
  intros firs. assert (Hnd : NoDup firs) by apply NoDup_singleton.
  split; [exact Hnd|].
  apply (findNearbyFIRs_subsequence firs (1 # 4) (1 # 4) (1 # 2)), Hnd.
Defined.

(** ** Clustering (C2) *)

(** C2, as stated, fails: the visited set holds identifiers, so of two
    records that share the identifier FIR001 only the first reaches a
    cluster; the cluster sizes sum to 1 for 2 input records. *)
Lemma clusterFIRs_partition_counterexample :
  let a := exampleFIR "FIR001" "14:30" (1 # 4) (1 # 4) in
  let b := exampleFIR "FIR001" "09:45" (3 # 4) (3 # 4) in
  let clusters := clusterFIRs [a; b] None in
  clusters = [[a]]
  /\ b ∉ concat clusters
  /\ clusterSizes clusters = 1%nat
  /\ length [a; b] = 2%nat.
Proof.
  intros a b clusters. unfold clusters.
  rewrite (clusterFIRs_shared_id a b None) by reflexivity.
  repeat split. simpl. intros Hb%list_elem_of_singleton. discriminate Hb.
Qed.

(** C2, amended: when the identifiers of the input records are pairwise
    distinct, the clusters partition the input: listed one after the
    other they are the input records up to order, without repetition;
    every input record is in exactly one cluster; the cluster sizes sum to
    the number of input records; no cluster is empty. *)
Theorem clusterFIRs_partition (firs : list FIR.t) (radiusKm : option Q) :
  NoDup (FIR.id <$> firs) ->
  let clusters := clusterFIRs firs radiusKm in
  concat clusters ≡ₚ firs
  /\ NoDup (concat clusters)
  /\ (forall fir,
         fir ∈ firs ->
         exists i cluster,
           clusters !! i = Some cluster /\ fir ∈ cluster /\
           forall j cluster',
             clusters !! j = Some cluster' -> fir ∈ cluster' -> j = i)
  /\ clusterSizes clusters = length firs
  /\ Forall (fun cluster => cluster <> []) clusters.
Proof.
  intros Hnd clusters.
  destruct (clusterFIRs_perm firs radiusKm Hnd) as [Hperm Hne].
  fold clusters in Hperm, Hne.
  assert (Hndc : NoDup (concat clusters)).
  { rewrite Hperm. by apply NoDup_fmap_1 in Hnd. }
  split; [done|]. split; [done|]. split; [|split; [|done]].
  - intros fir Hfir. rewrite <- Hperm in Hfir.
    apply elem_of_concat in Hfir as (cluster & Hin & Hcluster).
    apply list_elem_of_lookup in Hcluster as [i Hi].
    exists i, cluster. repeat split; [done..|].
    intros j cluster' Hj Hin'.
    by eapply (NoDup_concat_unique clusters j i).
  - by rewrite clusterSizes_concat, Hperm.
Qed.

Lemma clusterFIRs_partition_witness :
  let firs := [exampleFIR "FIR001" "14:30" (1 # 4) (1 # 4);
               exampleFIR "FIR002" "09:45" (3 # 4) (3 # 4)] in
  NoDup (FIR.id <$> firs)
  /\ clusterSizes (clusterFIRs firs (Some (1 # 2))) = 2%nat.
Proof.
  intros firs.
  assert (Hnd : NoDup (FIR.id <$> firs)).
  { apply (bool_decide_unpack (NoDup (FIR.id <$> firs))). vm_compute.
    exact I. }
  split; [exact Hnd|].
  apply (clusterFIRs_partition firs (Some (1 # 2)) Hnd).
Defined.

(** ** Predicted peak hours (C7) *)

(** C7: the predicted peak hours of the insight bundle are three of the
    hours 0..23, listed by rank, and every other hour ranks after each of
    them; an hour ranks before another when its bucket of the 24-bucket
    histogram counts more records, or as many and its number is
    smaller.  The count of a bucket is the number of records whose time
    of day starts with that hour. *)
Theorem getPredictedPeakHours_top3 (now : Z) (firs : list FIR.t) :
  let predicted := getPredictedPeakHours firs in
  CrimeInsight.predictedPeakHours (generateInsights now firs) = predicted
  /\ length predicted = 3%nat
  /\ Forall (fun h => (h < 24)%nat) predicted
  /\ StronglySorted (ranksBefore firs) predicted
  /\ (forall h, (h < 24)%nat -> h ∉ predicted ->
        Forall (fun p => ranksBefore firs p h) predicted)
  /\ (forall b, b ∈ getPeakHours firs ->
        HourCount.count b = hourCount firs (HourCount.hour b)).
Proof.
  intros predicted. unfold predicted, getPredictedPeakHours.
  pose proof (getPeakHours_ranked firs) as Hranked.
  rewrite <- (take_drop 3 (getPeakHours firs)) in Hranked.
  split; [done|]. split; [|split; [|split; [|split]]].
  - rewrite length_map, length_take, getPeakHours_length. done.
  - apply Forall_forall. intros h Hh.
    apply list_elem_of_In, in_map_iff in Hh as (b & <- & Hb).
    apply list_elem_of_In in Hb.
    eapply elem_of_sublist in Hb; [|apply sublist_take].
    by apply getPeakHours_bucket in Hb as [? _].
  - apply StronglySorted_app_1_l in Hranked.
    by eapply (StronglySorted_fmap HourCount.hour) in Hranked.
  - intros h Hh Hnot. apply Forall_forall. intros p Hp.
    apply list_elem_of_In, in_map_iff in Hp as (b & <- & Hb).
    apply list_elem_of_In in Hb.
    set (bh := {| HourCount.hour := h; HourCount.count := hourCount firs h |}).
    assert (Hbh : bh ∈ getPeakHours firs) by by apply getPeakHours_bucket.
    rewrite <- (take_drop 3 (getPeakHours firs)) in Hbh.
    apply elem_of_app in Hbh as [Hbh|Hbh].
    + exfalso. apply Hnot.
      apply list_elem_of_In, in_map_iff. exists bh.
      split; [done|]. by apply list_elem_of_In.
    + exact (StronglySorted_app_1_elem_of _ _ _ b bh Hranked Hb Hbh).
  - intros b Hb. by apply getPeakHours_bucket in Hb as [_ ?].
Qed.

(** ** Purity (C3) *)

(** C3, as stated, fails: [detectHotspots] and [generateInsights] stamp
    their results with [new Date()], so two calls on the same inputs at
    different times return different values. *)
Lemma pure_functions_counterexample :
  let firs := [exampleFIR "FIR001" "14:30" (1 # 4) (1 # 4)] in
  let config := Some (unitConfig (1 # 2)) in
  detectHotspots exampleThresholds 0 3 firs config
  <> detectHotspots exampleThresholds 1 3 firs config
  /\ generateInsights 0 firs <> generateInsights 1 firs.
Proof.
  split.
  - vm_compute. intros [=].
  - intros Heq. apply (f_equal CrimeInsight.generatedAt) in Heq.
    discriminate Heq.
Qed.

(** C3, amended: the results of [detectHotspots] and of
    [generateInsights] are determined by the inputs except for the
    timestamp they carry ([lastUpdated], [generatedAt]), which is the
    time of the call: two calls on the same inputs return the same
    hotspots in the same order and the same insight bundle once the
    timestamps are cleared.  ([findNearbyFIRs], [clusterFIRs],
    [calculateBounds] and [getCenter] read no clock: they are functions of
    their arguments alone.) *)
Theorem outputs_equal_up_to_timestamp (th : Thresholds.t) (now1 now2 : Z)
    (fuel1 fuel2 : nat) (firs : list FIR.t) (config : option GridConfig.t)
    (hotspots1 hotspots2 : list Hotspot.t) :
  detectHotspots th now1 fuel1 firs config = Some hotspots1 ->
  detectHotspots th now2 fuel2 firs config = Some hotspots2 ->
  map withoutLastUpdated hotspots1 = map withoutLastUpdated hotspots2
  /\ Forall (fun h => Hotspot.lastUpdated h = now1) hotspots1
  /\ Forall (fun h => Hotspot.lastUpdated h = now2) hotspots2
  /\ withoutGeneratedAt (generateInsights now1 firs)
     = withoutGeneratedAt (generateInsights now2 firs)
  /\ CrimeInsight.generatedAt (generateInsights now1 firs) = now1
  /\ (forall firs' centerLat centerLng radiusKm radius,
        firs' = firs ->
        findNearbyFIRs firs' centerLat centerLng radiusKm
        = findNearbyFIRs firs centerLat centerLng radiusKm
        /\ clusterFIRs firs' radius = clusterFIRs firs radius
        /\ calculateBounds firs' = calculateBounds firs
        /\ getCenter firs' = getCenter firs).
Proof.
  intros H1 H2. split; [by eapply detectHotspots_clock_fuel|].
  assert (Hstamp : forall now fuel hotspots,
             detectHotspots th now fuel firs config = Some hotspots ->
             Forall (fun h => Hotspot.lastUpdated h = now) hotspots).
  { intros now fuel hotspots
      [[_ ->]|(grid & _ & _ & ->)]%detectHotspots_unfold; [constructor|].
    apply Forall_forall. intros h Hh. rewrite sortDesc_perm in Hh.
    unfold collectHotspots in Hh.
    apply list_elem_of_omap in Hh as (cell & _ & Hcell).
    destruct (0 <? GridCell.firCount cell)%nat; [|done].
    by injection Hcell as <-. }
  split; [by eapply Hstamp|]. split; [by eapply Hstamp|].
  split; [done|]. split; [done|].
  by intros firs' centerLat centerLng radiusKm radius ->.
Qed.

Lemma outputs_equal_up_to_timestamp_witness :
  let firs := [exampleFIR "FIR001" "14:30" (1 # 4) (1 # 4)] in
  let config := Some (unitConfig (1 # 2)) in
  exists hotspots1 hotspots2,
    detectHotspots exampleThresholds 0 3 firs config = Some hotspots1
    /\ detectHotspots exampleThresholds 1 4 firs config = Some hotspots2
    /\ map withoutLastUpdated hotspots1 = map withoutLastUpdated hotspots2.
Proof.
  intros firs config. eexists. eexists.
  split; [vm_compute; reflexivity|]. split; [vm_compute; reflexivity|].
  apply (outputs_equal_up_to_timestamp exampleThresholds 0 1 3 4 firs config);
    vm_compute; reflexivity.
Defined.

(** * Further properties of the code *)

(** ** The grid *)

Lemma firstCell_assignFIR (fir fir' : FIR.t) (grid : list GridCell.t) :
  firstCell (assignFIR fir grid) fir' = firstCell grid fir'.
Proof.
  induction grid as [|cell grid IH]; simpl; [done|].
  destruct (cellContains cell fir); simpl; [done|]. by rewrite IH.
Qed.

Lemma firstCell_assignFIRsToGrid (firs : list FIR.t) (fir' : FIR.t)
    (grid : list GridCell.t) :
  firstCell (assignFIRsToGrid firs grid) fir' = firstCell grid fir'.
Proof.
  unfold assignFIRsToGrid. revert grid.
  induction firs as [|fir firs IH]; intros grid; simpl; [done|].
  by rewrite IH, firstCell_assignFIR.
Qed.

Lemma firstCell_Some (grid : list GridCell.t) (fir : FIR.t) (i : nat) :
  firstCell grid fir = Some i ->
  exists cell, grid !! i = Some cell /\ cellContains cell fir = true.
Proof.
  revert i. induction grid as [|cell grid IH]; intros i; simpl; [done|].
  destruct (cellContains cell fir) eqn:Hc.
  - intros [= <-]. by exists cell.
  - destruct (firstCell grid fir) as [k|]; [|done]. intros [= <-].
    by apply IH.
Qed.

Lemma firstCell_None (grid : list GridCell.t) (fir : FIR.t) :
  firstCell grid fir = None <-> inSomeCell grid fir = false.
Proof.
  unfold inSomeCell. induction grid as [|cell grid IH]; simpl; [done|].
  destruct (cellContains cell fir); simpl; [done|].
  rewrite <- IH. by destruct (firstCell grid fir).
Qed.

(** One record changes only the cell [firstCell] names. *)
Lemma assignFIR_lookup (fir : FIR.t) (grid : list GridCell.t) (i : nat) :
  assignFIR fir grid !! i
  = (fun cell => if bool_decide (firstCell grid fir = Some i)
                 then pushFIR cell fir else cell) <$> grid !! i.
Proof.
  revert i. induction grid as [|cell grid IH]; intros i; simpl; [done|].
  destruct (cellContains cell fir).
  - destruct i as [|i]; cbn [lookup list_lookup fmap option_fmap option_map];
      [by rewrite bool_decide_eq_true_2|].
    destruct (grid !! i); cbn; [|done].
    by rewrite bool_decide_eq_false_2.
  - destruct i as [|i]; cbn [lookup list_lookup fmap option_fmap option_map].
    + rewrite bool_decide_eq_false_2; [done|].
      by destruct (firstCell grid fir).
    + rewrite IH. destruct (grid !! i) as [c|]; cbn; [|done].
      f_equal. destruct (firstCell grid fir) as [k|]; cbn.
      * destruct (decide (k = i)) as [->|Hne].
        -- by rewrite !bool_decide_eq_true_2.
        -- rewrite !bool_decide_eq_false_2; [done|congruence|congruence].
      * by rewrite !bool_decide_eq_false_2.
Qed.

Lemma assignFIRsToGrid_lookup (firs : list FIR.t) (grid : list GridCell.t)
    (i : nat) :
  assignFIRsToGrid firs grid !! i
  = (fun cell =>
       fold_left pushFIR
         (List.filter (fun fir => bool_decide (firstCell grid fir = Some i)) firs)
         cell) <$> grid !! i.
Proof.
  unfold assignFIRsToGrid. revert grid.
  induction firs as [|fir firs IH]; intros grid; simpl.
  - by destruct (grid !! i).
  - rewrite IH, assignFIR_lookup.
    rewrite (List.filter_ext _
               (fun fir' => bool_decide (firstCell grid fir' = Some i)))
      by (intros f; by rewrite firstCell_assignFIR).
    destruct (grid !! i) as [cell|]; simpl; [|done].
    by destruct (bool_decide (firstCell grid fir = Some i)).
Qed.

Lemma pushFIR_fold (cell : GridCell.t) (l : list FIR.t) :
  GridCell.firs (fold_left pushFIR l cell) = GridCell.firs cell ++ l
  /\ GridCell.firCount (fold_left pushFIR l cell)
     = (GridCell.firCount cell + length l)%nat.
Proof.
  revert cell. induction l as [|fir l IH]; intros cell; simpl.
  - by rewrite app_nil_r, Nat.add_0_r.
  - destruct (IH (pushFIR cell fir)) as [-> ->]. simpl.
    rewrite <- (assoc app). split; [done|lia].
Qed.

Lemma lngLoop_empty (fuel : nat) (config : GridConfig.t) (lat lng : Q)
    (cellId : nat) (row : list GridCell.t) :
  lngLoop fuel config lat lng cellId = Some row -> Forall emptyCell row.
Proof.
  revert lng cellId row.
  induction fuel as [|fuel IH]; intros lng cellId row; simpl; [done|].
  destruct (Qlt_bool lng _); [|by intros [= <-]].
  destruct (lngLoop fuel _ _ _ _) as [rest|] eqn:Hrest; [|done].
  intros [= <-]. constructor; [done|]. by eapply IH.
Qed.

Lemma createGrid_empty (fuel : nat) (config : GridConfig.t)
    (grid : list GridCell.t) :
  createGrid fuel config = Some grid -> Forall emptyCell grid.
Proof.
  unfold createGrid. generalize (GridConfig.minLat config), 0%nat, fuel at 2.
  intros lat cellId inner. revert lat cellId grid.
  induction fuel as [|fuel IH]; intros lat cellId grid; simpl; [done|].
  destruct (Qlt_bool lat _); [|by intros [= <-]].
  destruct (lngLoop inner _ _ _ _) as [row|] eqn:Hrow; [|done]. csimpl.
  destruct (latLoop fuel _ _ _ _) as [rest|] eqn:Hrest; [|done].
  intros [= <-]. apply Forall_app. split.
  - by eapply lngLoop_empty.
  - by eapply IH.
Qed.

(** X1: after [assignFIRsToGrid] on a freshly created grid, the records
    of the cell at position [i] are the input records whose first
    containing cell is that cell, in input order, and [firCount] is their
    number. *)
Theorem assignFIRsToGrid_cell_contents (fuel : nat) (config : GridConfig.t)
    (grid : list GridCell.t) (firs : list FIR.t) (i : nat)
    (cell : GridCell.t) :
  createGrid fuel config = Some grid ->
  assignFIRsToGrid firs grid !! i = Some cell ->
  GridCell.firs cell
  = List.filter (fun fir => bool_decide (firstCell grid fir = Some i)) firs
  /\ GridCell.firCount cell = length (GridCell.firs cell)
  /\ Forall (fun fir => cellContains cell fir = true) (GridCell.firs cell).
Proof.
  intros Hgrid Hcell.
  rewrite assignFIRsToGrid_lookup in Hcell.
  destruct (grid !! i) as [c|] eqn:Hc; [|done]. injection Hcell as <-.
  pose proof (createGrid_empty _ _ _ Hgrid) as Hempty.
  rewrite Forall_forall in Hempty.
  destruct (Hempty c (list_elem_of_lookup_2 _ _ _ Hc)) as [Hcount Hfirs].
  destruct (pushFIR_fold c
              (List.filter
                 (fun fir => bool_decide (firstCell grid fir = Some i)) firs))
    as [Hf Hn].
  rewrite Hf, Hn, Hfirs, Hcount. simpl. repeat split.
  apply Forall_forall. intros fir Hfir.
  apply list_elem_of_In, filter_In in Hfir as [_ Hfirst].
  apply bool_decide_eq_true in Hfirst.
  apply firstCell_Some in Hfirst as (c' & Hc' & Hin).
  assert (c' = c) as -> by congruence.
  clear -Hin. revert c Hin.
  induction (List.filter _ firs) as [|f l IH]; intros c Hin; [done|].
  simpl. apply IH. by rewrite cellContains_pushFIR.
Qed.

Lemma assignFIRsToGrid_cell_contents_witness :
  let config := unitConfig (1 # 2) in
  let grid := default [] (createGrid 3 config) in
  exists cell,
    assignFIRsToGrid exampleFIRs grid !! 3%nat = Some cell
    /\ FIR.id <$> GridCell.firs cell = ["FIR002"; "FIR003"]
    /\ GridCell.firCount cell = length (GridCell.firs cell).
Proof.
  intros config grid. eexists. split; [vm_compute; reflexivity|].
  split; [reflexivity|].
  eapply (assignFIRsToGrid_cell_contents 3 config grid exampleFIRs 3);
    vm_compute; reflexivity.
Defined.

(** *** Cells do not overlap *)

Lemma lngLoop_precedes (config : GridConfig.t) (lat : Q) (fuel : nat) :
  forall (lng : Q) (cellId : nat) (row : list GridCell.t),
    (0 < GridConfig.lngGridSize config)%Q ->
    lngLoop fuel config lat lng cellId = Some row ->
    StronglySorted cellPrecedes row
    /\ Forall (fun c => (lng <= GridCell.minLng c)%Q
                        /\ GridCell.minLat c = lat
                        /\ GridCell.maxLat c
                           = (lat + GridConfig.latGridSize config)%Q) row.
Proof.
  induction fuel as [|fuel IH]; intros lng cellId row Hs; simpl; [done|].
  destruct (Qlt_bool lng _); [|intros [= <-]; split; constructor].
  destruct (lngLoop fuel _ _ _ _) as [rest|] eqn:Hrest; [|done].
  intros [= <-]. destruct (IH _ _ _ Hs Hrest) as [Hsorted Hall].
  split.
  - constructor; [done|].
    eapply Forall_impl; [exact Hall|].
    intros c (Hc & _ & _). right. simpl. done.
  - constructor; [simpl; repeat split; lra|].
    eapply Forall_impl; [exact Hall|].
    intros c (Hc & ? & ?). repeat split; [lra|done..].
Qed.

Lemma latLoop_precedes (config : GridConfig.t) (inner fuel : nat) :
  forall (lat : Q) (cellId : nat) (grid : list GridCell.t),
    positiveSizes config ->
    latLoop fuel inner config lat cellId = Some grid ->
    StronglySorted cellPrecedes grid
    /\ Forall (fun c => (lat <= GridCell.minLat c)%Q) grid.
Proof.
  induction fuel as [|fuel IH]; intros lat cellId grid [Hslat Hslng];
    simpl; [done|].
  destruct (Qlt_bool lat _); [|intros [= <-]; split; constructor].
  destruct (lngLoop inner _ _ _ _) as [row|] eqn:Hrow; [|done]. csimpl.
  destruct (latLoop fuel _ _ _ _) as [rest|] eqn:Hrest; [|done].
  intros [= <-].
  destruct (lngLoop_precedes _ _ _ _ _ _ Hslng Hrow) as [Hrs Hrall].
  destruct (IH _ _ _ (conj Hslat Hslng) Hrest) as [Hgs Hgall].
  rewrite Forall_forall in Hrall, Hgall.
  split.
  - apply StronglySorted_app_2; [|done..].
    intros c1 c2 Hc1 Hc2. left.
    destruct (Hrall c1 Hc1) as (_ & _ & ->). by apply Hgall.
  - apply Forall_app. split; apply Forall_forall.
    + intros c Hc. destruct (Hrall c Hc) as (_ & -> & _). lra.
    + intros c Hc. specialize (Hgall c Hc). lra.
Qed.

Lemma StronglySorted_lookup_lt {A : Type} (R : A -> A -> Prop) (l : list A)
    (i j : nat) (x y : A) :
  StronglySorted R l -> (i < j)%nat ->
  l !! i = Some x -> l !! j = Some y -> R x y.
Proof.
  intros Hs. revert i j.
  induction Hs as [|z l Hs IH Hz]; intros i j Hij Hi Hj; [done|].
  destruct j as [|j]; [lia|]. destruct i as [|i]; simpl in *.
  - injection Hi as ->. rewrite Forall_forall in Hz.
    apply Hz. by eapply list_elem_of_lookup_2.
  - apply (IH i j); [lia|done..].
Qed.

Lemma cellPrecedes_disjoint (c1 c2 : GridCell.t) (fir : FIR.t) :
  cellPrecedes c1 c2 ->
  cellContains c1 fir = true -> cellContains c2 fir = true -> False.
Proof.
  intros Hp [[? ?] [? ?]]%cellContains_iff [[? ?] [? ?]]%cellContains_iff.
  destruct Hp; lra.
Qed.

(** X2: with positive cell sizes the cells of a grid do not overlap: a
    record is contained in at most one cell, so the cell a record is
    assigned to is the only cell that contains it. *)
Theorem createGrid_cells_disjoint (fuel : nat) (config : GridConfig.t)
    (grid : list GridCell.t) (fir : FIR.t) (i j : nat)
    (c1 c2 : GridCell.t) :
  positiveSizes config ->
  createGrid fuel config = Some grid ->
  grid !! i = Some c1 -> grid !! j = Some c2 ->
  cellContains c1 fir = true -> cellContains c2 fir = true ->
  i = j /\ firstCell grid fir = Some i.
Proof.
  intros Hpos Hgrid Hi Hj H1 H2.
  destruct (latLoop_precedes _ _ _ _ _ _ Hpos Hgrid) as [Hsorted _].
  assert (Hunique : forall a b ca cb,
             grid !! a = Some ca -> grid !! b = Some cb ->
             cellContains ca fir = true -> cellContains cb fir = true ->
             a = b).
  { intros a b ca cb Ha Hb Hca Hcb.
    destruct (lt_eq_lt_dec a b) as [[Hlt|Heq]|Hgt]; [|done|]; exfalso.
    - eapply cellPrecedes_disjoint; [|exact Hca|exact Hcb].
      by eapply (StronglySorted_lookup_lt _ grid a b).
    - eapply cellPrecedes_disjoint; [|exact Hcb|exact Hca].
      by eapply (StronglySorted_lookup_lt _ grid b a). }
  split; [by eapply Hunique|].
  destruct (firstCell grid fir) as [k|] eqn:Hk.
  - apply firstCell_Some in Hk as (ck & Hck & Hin).
    f_equal. by eapply Hunique.
  - apply firstCell_None in Hk.
    apply not_true_iff_false in Hk. exfalso. apply Hk.
    apply inSomeCell_iff. exists c1.
    split; [by eapply list_elem_of_lookup_2|done].
Qed.

Lemma createGrid_cells_disjoint_witness :
  let config := unitConfig (1 # 2) in
  let grid := default [] (createGrid 3 config) in
  let fir := exampleFIR "FIR002" "09:45" (3 # 4) (3 # 4) in
  exists cell,
    grid !! 3%nat = Some cell /\ firstCell grid fir = Some 3%nat.
Proof.
  intros config grid fir. eexists. split; [vm_compute; reflexivity|].
  eapply (createGrid_cells_disjoint 3 config grid fir 3 3).
  - split; reflexivity.
  - vm_compute; reflexivity.
  - vm_compute; reflexivity.
  - vm_compute; reflexivity.
  - vm_compute; reflexivity.
  - vm_compute; reflexivity.
Defined.

(** *** Shape of the grid *)

(** The longitudes at which the cells of a row start do not depend on the
    row. *)
Lemma lngLoop_columns (config : GridConfig.t) (fuel : nat) :
  forall (lat lat' lng : Q) (cellId cellId' : nat),
    match lngLoop fuel config lat lng cellId,
          lngLoop fuel config lat' lng cellId' with
    | Some row, Some row' =>
        GridCell.minLng <$> row = GridCell.minLng <$> row'
    | None, None => True
    | _, _ => False
    end.
Proof.
  induction fuel as [|fuel IH]; intros lat lat' lng cellId cellId'; simpl;
    [done|].
  destruct (Qlt_bool lng _); [|done].
  specialize (IH lat lat' (lng + GridConfig.lngGridSize config)%Q
                (S cellId) (S cellId')).
  destruct (lngLoop fuel config lat _ _), (lngLoop fuel config lat' _ _);
    csimpl; [|done..].
  by rewrite IH.
Qed.

Lemma lngLoop_starts (config : GridConfig.t) (lat : Q) (fuel : nat) :
  forall (lng : Q) (cellId : nat) (row : list GridCell.t),
    lngLoop fuel config lat lng cellId = Some row ->
    Forall (fun c => GridCell.minLat c = lat
                     /\ (GridCell.minLng c < GridConfig.maxLng config)%Q
                     /\ ((0 < GridConfig.lngGridSize config)%Q ->
                         (lng <= GridCell.minLng c)%Q)) row.
Proof.
  induction fuel as [|fuel IH]; intros lng cellId row; simpl; [done|].
  destruct (Qlt_bool lng _) eqn:Hlt; [|intros [= <-]; constructor].
  apply Qlt_bool_iff in Hlt.
  destruct (lngLoop fuel _ _ _ _) as [rest|] eqn:Hrest; [|done].
  intros [= <-]. constructor.
  - simpl. split; [done|]. split; [done|]. intros _. lra.
  - eapply Forall_impl; [exact (IH _ _ _ Hrest)|].
    intros c (? & ? & Hlo). split; [done|]. split; [done|].
    intros Hpos. specialize (Hlo Hpos). lra.
Qed.

Lemma latLoop_rows (config : GridConfig.t) (inner : nat) (lngs : list Q)
    (fuel : nat) :
  (forall lat cellId row,
      lngLoop inner config lat (GridConfig.minLng config) cellId = Some row ->
      GridCell.minLng <$> row = lngs) ->
  forall (lat : Q) (cellId : nat) (grid : list GridCell.t),
    latLoop fuel inner config lat cellId = Some grid ->
    exists lats : list Q,
      (fun cell => (GridCell.minLat cell, GridCell.minLng cell)) <$> grid
      = list_prod lats lngs
      /\ Forall (fun x => (x < GridConfig.maxLat config)%Q) lats
      /\ ((0 < GridConfig.latGridSize config)%Q ->
          Forall (fun x => (lat <= x)%Q) lats).
Proof.
  intros Hcols.
  induction fuel as [|fuel IH]; intros lat cellId grid; simpl; [done|].
  destruct (Qlt_bool lat _) eqn:Hlt.
  2:{ intros [= <-]. exists []. repeat split; constructor. }
  apply Qlt_bool_iff in Hlt.
  destruct (lngLoop inner _ _ _ _) as [row|] eqn:Hrow; [|done]. csimpl.
  destruct (latLoop fuel _ _ _ _) as [rest|] eqn:Hrest; [|done].
  intros [= <-].
  destruct (IH _ _ _ Hrest) as (lats & Hprod & Hmax & Hmin).
  exists (lat :: lats). split; [|split].
  - rewrite fmap_app, Hprod. cbn [list_prod]. f_equal.
    rewrite <- (Hcols _ _ _ Hrow).
    pose proof (lngLoop_starts _ _ _ _ _ _ Hrow) as Hstarts.
    clear -Hstarts. induction Hstarts as [|c l (Hc & _) _ IHl]; csimpl;
      [done|].
    by rewrite Hc, IHl.
  - by constructor.
  - intros Hpos. constructor; [lra|].
    eapply Forall_impl; [exact (Hmin Hpos)|]. intros x Hx. simpl in Hx. lra.
Qed.

(** X3: the grid is rectangular.  The lower corners of its cells are the
    pairs of a list of latitudes (the rows) and a list of longitudes (the
    columns), row by row, so the number of cells is the number of rows
    times the number of columns; every cell starts below the configured
    maxima and, with positive cell sizes, at or above the configured
    minima. *)
Theorem createGrid_rectangular (fuel : nat) (config : GridConfig.t)
    (grid : list GridCell.t) :
  createGrid fuel config = Some grid ->
  exists lats lngs : list Q,
    (fun cell => (GridCell.minLat cell, GridCell.minLng cell)) <$> grid
    = list_prod lats lngs
    /\ length grid = (length lats * length lngs)%nat
    /\ Forall (fun lat => (lat < GridConfig.maxLat config)%Q) lats
    /\ Forall (fun lng => (lng < GridConfig.maxLng config)%Q) lngs
    /\ (positiveSizes config ->
        Forall (fun lat => (GridConfig.minLat config <= lat)%Q) lats
        /\ Forall (fun lng => (GridConfig.minLng config <= lng)%Q) lngs).
Proof.
  intros Hgrid. unfold createGrid in Hgrid.
  destruct (lngLoop fuel config 0 (GridConfig.minLng config) 0)
    as [row0|] eqn:Hrow0.
  - assert (Hcols : forall lat cellId row,
               lngLoop fuel config lat (GridConfig.minLng config) cellId
               = Some row ->
               GridCell.minLng <$> row = GridCell.minLng <$> row0).
    { intros lat cellId row Hrow.
      pose proof (lngLoop_columns config fuel lat 0
                    (GridConfig.minLng config) cellId 0%nat) as Hsame.
      by rewrite Hrow, Hrow0 in Hsame. }
    destruct (latLoop_rows _ _ _ _ Hcols _ _ _ Hgrid)
      as (lats & Hprod & Hmax & Hmin).
    pose proof (lngLoop_starts _ _ _ _ _ _ Hrow0) as Hstarts.
    exists lats, (GridCell.minLng <$> row0).
    split; [done|]. split; [|split; [done|split]].
    + rewrite <- (length_fmap
                    (fun cell => (GridCell.minLat cell, GridCell.minLng cell))),
        Hprod.
      apply length_prod.
    + apply Forall_fmap. eapply Forall_impl; [exact Hstarts|].
      by intros c (_ & ? & _).
    + intros [Hlat Hlng]. split; [by apply Hmin|].
      apply Forall_fmap. eapply Forall_impl; [exact Hstarts|].
      intros c (_ & _ & Hlo). by apply Hlo.
  - assert (Hcols : forall lat cellId row,
               lngLoop fuel config lat (GridConfig.minLng config) cellId
               = Some row ->
               GridCell.minLng <$> row = []).
    { intros lat cellId row Hrow.
      pose proof (lngLoop_columns config fuel lat 0
                    (GridConfig.minLng config) cellId 0%nat) as Hsame.
      by rewrite Hrow, Hrow0 in Hsame. }
    destruct (latLoop_rows _ _ _ _ Hcols _ _ _ Hgrid)
      as (lats & Hprod & Hmax & Hmin).
    exists lats, [].
    split; [done|]. split; [|split; [done|split; [constructor|]]].
    + rewrite <- (length_fmap
                    (fun cell => (GridCell.minLat cell, GridCell.minLng cell))),
        Hprod.
      apply length_prod.
    + intros [Hlat Hlng]. split; [by apply Hmin|constructor].
Qed.

Lemma createGrid_rectangular_witness :
  let grid := default [] (createGrid 5 (unitConfig (1 # 4))) in
  length grid = 16%nat
  /\ exists lats lngs : list Q,
       (fun cell => (GridCell.minLat cell, GridCell.minLng cell)) <$> grid
       = list_prod lats lngs
       /\ length grid = (length lats * length lngs)%nat.
Proof.
  intros grid. split; [vm_compute; reflexivity|].
  destruct (createGrid_rectangular 5 (unitConfig (1 # 4)) grid)
    as (lats & lngs & Hprod & Hlen & _); [vm_compute; reflexivity|].
  exists lats, lngs. split; [exact Hprod|exact Hlen].
Defined.

(** ** The hotspots *)

Lemma collectHotspots_elem (th : Thresholds.t) (now : Z) (total : nat)
    (grid : list GridCell.t) (h : Hotspot.t) :
  h ∈ collectHotspots th now total grid <->
  exists cell, cell ∈ grid /\ (0 < GridCell.firCount cell)%nat
               /\ h = toHotspot th now total cell.
Proof.
  unfold collectHotspots. rewrite list_elem_of_omap. split.
  - intros (cell & Hcell & Hh).
    destruct (Nat.ltb_spec 0 (GridCell.firCount cell)); [|done].
    injection Hh as <-. by exists cell.
  - intros (cell & Hcell & Hpos & ->). exists cell. split; [done|].
    by destruct (Nat.ltb_spec 0 (GridCell.firCount cell)); [|lia].
Qed.

Lemma collectHotspots_zoneIds (th : Thresholds.t) (now : Z) (total : nat)
    (grid : list GridCell.t) :
  Hotspot.zoneId <$> collectHotspots th now total grid
  `sublist_of` GridCell.id <$> grid.
Proof.
  unfold collectHotspots.
  induction grid as [|cell grid IH]; csimpl; [done|].
  destruct (0 <? GridCell.firCount cell)%nat; csimpl; by constructor.
Qed.

Lemma hotspotCount_ge_length (hotspots : list Hotspot.t) :
  Forall (fun h => (1 <= Hotspot.firCount h)%nat) hotspots ->
  (length hotspots <= hotspotCount hotspots)%nat.
Proof.
  unfold hotspotCount. induction 1 as [|h l Hh _ IH]; simpl; lia.
Qed.

(** X4: every hotspot stands for a cell with at least one record, carries
    the severity of its count and the share of its count in the input;
    the zone identifiers of the hotspots are pairwise distinct; there are
    no more hotspots than input records. *)
Theorem detectHotspots_entries (th : Thresholds.t) (now : Z) (fuel : nat)
    (firs : list FIR.t) (config : option GridConfig.t)
    (hotspots : list Hotspot.t) :
  detectHotspots th now fuel firs config = Some hotspots ->
  Forall (fun h =>
            (1 <= Hotspot.firCount h)%nat
            /\ Hotspot.severity h = classifyBySeverity th (Hotspot.firCount h)
            /\ Hotspot.percentage h
               = (inject_Z (Z.of_nat (Hotspot.firCount h))
                  / inject_Z (Z.of_nat (length firs)) * 100)%Q
            /\ Hotspot.lastUpdated h = now) hotspots
  /\ NoDup (Hotspot.zoneId <$> hotspots)
  /\ (length hotspots <= length firs)%nat.
Proof.
  intros Hdetect.
  destruct (detectHotspots_unfold _ _ _ _ _ _ Hdetect)
    as [[-> ->]|(grid & _ & Hgrid & ->)].
  { repeat split; constructor. }
  assert (Hall : Forall (fun h =>
            (1 <= Hotspot.firCount h)%nat
            /\ Hotspot.severity h = classifyBySeverity th (Hotspot.firCount h)
            /\ Hotspot.percentage h
               = (inject_Z (Z.of_nat (Hotspot.firCount h))
                  / inject_Z (Z.of_nat (length firs)) * 100)%Q
            /\ Hotspot.lastUpdated h = now)
          (sortDesc Hotspot.firCount
             (collectHotspots th now (length firs)
                (assignFIRsToGrid firs grid)))).
  { apply Forall_forall. intros h Hh. rewrite sortDesc_perm in Hh.
    apply collectHotspots_elem in Hh as (cell & _ & Hpos & ->).
    simpl. repeat split; [lia|done..]. }
  split; [done|]. split.
  - rewrite sortDesc_perm.
    eapply sublist_NoDup; [|apply collectHotspots_zoneIds].
    rewrite assignFIRsToGrid_ids, (createGrid_ids _ _ _ Hgrid).
    apply (NoDup_fmap_2 gridId), NoDup_seq.
  - etrans; [apply hotspotCount_ge_length|].
    + eapply Forall_impl; [exact Hall|]. by intros h (? & _).
    + rewrite (detectHotspots_count_cells _ _ _ _ _ _ _ Hdetect Hgrid).
      apply List.filter_length_le.
Qed.

Lemma detectHotspots_entries_witness :
  exists hotspots,
    detectHotspots exampleThresholds 0 3 exampleFIRs
      (Some (unitConfig (1 # 2))) = Some hotspots
    /\ NoDup (Hotspot.zoneId <$> hotspots)
    /\ (length hotspots <= length exampleFIRs)%nat.
Proof.
  eexists. split; [vm_compute; reflexivity|].
  refine (proj2 (detectHotspots_entries exampleThresholds 0 3 exampleFIRs
                   (Some (unitConfig (1 # 2))) _ _)).
  vm_compute; reflexivity.
Defined.

Lemma share_range (count total : nat) :
  (1 <= count <= total)%nat ->
  (0 < inject_Z (Z.of_nat count) / inject_Z (Z.of_nat total) * 100 <= 100)%Q.
Proof.
  intros [Hlo Hhi].
  assert (Hc : (0 < inject_Z (Z.of_nat count))%Q).
  { rewrite <- (Zlt_Qlt 0). lia. }
  assert (Ht : (0 < inject_Z (Z.of_nat total))%Q).
  { rewrite <- (Zlt_Qlt 0). lia. }
  assert (Hle : (inject_Z (Z.of_nat count) <= inject_Z (Z.of_nat total))%Q).
  { rewrite <- Zle_Qle. lia. }
  assert (H0 : (0 < inject_Z (Z.of_nat count) / inject_Z (Z.of_nat total))%Q).
  { apply Qlt_shift_div_l; [done|]. lra. }
  assert (H1 : (inject_Z (Z.of_nat count) / inject_Z (Z.of_nat total)
                <= 1)%Q).
  { apply Qle_shift_div_r; [done|]. lra. }
  split; lra.
Qed.

Lemma share_monotone (count1 count2 total : nat) :
  (count1 <= count2)%nat ->
  (inject_Z (Z.of_nat count1) / inject_Z (Z.of_nat total) * 100
   <= inject_Z (Z.of_nat count2) / inject_Z (Z.of_nat total) * 100)%Q.
Proof.
  intros Hle.
  assert (Hq : (inject_Z (Z.of_nat count1) <= inject_Z (Z.of_nat count2))%Q).
  { rewrite <- Zle_Qle. lia. }
  destruct total as [|total].
  - change (inject_Z (Z.of_nat 0)) with 0%Q. unfold Qdiv.
    assert (Hinv : (/ 0 == 0)%Q) by reflexivity.
    rewrite Hinv. lra.
  - assert (Ht : (0 < / inject_Z (Z.of_nat (S total)))%Q).
    { apply Qinv_lt_0_compat. rewrite <- (Zlt_Qlt 0). lia. }
    unfold Qdiv. nra.
Qed.

(** The hotspots of a result: each stands for between 1 and all of the
    input records and carries their share; they come in descending order
    of count. *)
Lemma detectHotspots_shares (th : Thresholds.t) (now : Z) (fuel : nat)
    (firs : list FIR.t) (config : option GridConfig.t)
    (hotspots : list Hotspot.t) :
  detectHotspots th now fuel firs config = Some hotspots ->
  Forall (fun h =>
            (1 <= Hotspot.firCount h <= length firs)%nat
            /\ Hotspot.percentage h
               = (inject_Z (Z.of_nat (Hotspot.firCount h))
                  / inject_Z (Z.of_nat (length firs)) * 100)%Q) hotspots
  /\ StronglySorted
       (fun a b => (Hotspot.firCount b <= Hotspot.firCount a)%nat) hotspots.
Proof.
  intros Hdetect.
  destruct (detectHotspots_unfold _ _ _ _ _ _ Hdetect)
    as [[-> ->]|(grid & _ & Hgrid & ->)].
  { split; constructor. }
  split; [|apply sortDesc_descending].
  apply Forall_forall. intros h Hh. rewrite sortDesc_perm in Hh.
  apply collectHotspots_elem in Hh as (cell & Hcell & Hpos & ->).
  simpl. split; [|done]. split; [lia|].
  etrans; [apply (sum_list_with_in _ GridCell.firCount _ Hcell)|].
  fold (gridCount (assignFIRsToGrid firs grid)).
  rewrite assignFIRsToGrid_count, (createGrid_count _ _ _ Hgrid).
  apply List.filter_length_le.
Qed.

(** X5: the percentage of every hotspot is above 0 and at most 100, the
    hotspots come in descending order of percentage, and two hotspots
    with the same count carry the same percentage. *)
Theorem detectHotspots_percentages (th : Thresholds.t) (now : Z)
    (fuel : nat) (firs : list FIR.t) (config : option GridConfig.t)
    (hotspots : list Hotspot.t) :
  detectHotspots th now fuel firs config = Some hotspots ->
  Forall (fun h => (0 < Hotspot.percentage h <= 100)%Q) hotspots
  /\ StronglySorted
       (fun a b => (Hotspot.percentage b <= Hotspot.percentage a)%Q)
       hotspots
  /\ (forall a b,
        a ∈ hotspots -> b ∈ hotspots ->
        Hotspot.firCount a = Hotspot.firCount b ->
        Hotspot.percentage a = Hotspot.percentage b).
Proof.
  intros Hdetect.
  destruct (detectHotspots_shares _ _ _ _ _ _ Hdetect) as [Hall Hsorted].
  rewrite Forall_forall in Hall.
  split; [|split].
  - apply Forall_forall. intros h Hh. destruct (Hall h Hh) as [Hc ->].
    by apply share_range.
  - clear Hdetect. induction Hsorted as [|h l Hl IH Hh]; constructor.
    + apply IH. intros x Hx. apply Hall. by right.
    + rewrite Forall_forall in Hh |- *. intros x Hx.
      destruct (Hall h) as [_ ->]; [by left|].
      destruct (Hall x) as [_ ->]; [by right|].
      apply share_monotone. by apply Hh.
  - intros a b Ha Hb Heq.
    destruct (Hall a Ha) as [_ ->]. destruct (Hall b Hb) as [_ ->].
    by rewrite Heq.
Qed.

Lemma detectHotspots_percentages_witness :
  exists hotspots,
    detectHotspots exampleThresholds 0 3 exampleFIRs
      (Some (unitConfig (1 # 2))) = Some hotspots
    /\ Forall (fun h => (0 < Hotspot.percentage h <= 100)%Q) hotspots.
Proof.
  eexists. split; [vm_compute; reflexivity|].
  refine (proj1 (detectHotspots_percentages exampleThresholds 0 3
                   exampleFIRs (Some (unitConfig (1 # 2))) _ _)).
  vm_compute; reflexivity.
Defined.

(** X6: the severity tier never decreases when the count grows, whatever
    the thresholds; a count reaches the tier [high] exactly from the
    [high] threshold on. *)
Theorem classifyBySeverity_monotone (th : Thresholds.t) (m n : nat) :
  (classifyBySeverity th n = high <-> (Thresholds.high th <= n)%nat)
  /\ ((m <= n)%nat ->
      (severityRank (classifyBySeverity th m)
       <= severityRank (classifyBySeverity th n))%nat).
Proof.
  unfold classifyBySeverity. split.
  - destruct (Nat.leb_spec (Thresholds.high th) n); [done|].
    destruct (Thresholds.medium th <=? n)%nat; split; (done || lia).
  - intros Hmn.
    destruct (Nat.leb_spec (Thresholds.high th) m),
             (Nat.leb_spec (Thresholds.high th) n),
             (Nat.leb_spec (Thresholds.medium th) m),
             (Nat.leb_spec (Thresholds.medium th) n); simpl; lia.
Qed.

(** ** The clusters *)

Lemma clusterStep_seeded (firs : list FIR.t) (radiusKm : Q)
    (st : list (list FIR.t) * gset string) (fir : FIR.t) :
  Forall (seededCluster firs radiusKm) st.1 ->
  fir ∈ firs ->
  Forall (seededCluster firs radiusKm) (clusterStep firs radiusKm st fir).1.
Proof.
  destruct st as [clusters visited]. intros Hall Hfir. simpl in *.
  unfold clusterStep.
  destruct (decide (FIR.id fir ∈ visited)); [done|].
  destruct (visitNearby_fold
              (findNearbyFIRs firs (FIR.latitude fir) (FIR.longitude fir)
                 radiusKm) [fir] ({[FIR.id fir]} ∪ visited))
    as (added & -> & Hadded & _).
  simpl. apply Forall_app. split; [done|].
  constructor; [|constructor].
  exists fir, added. repeat split; [done|].
  apply Forall_forall. intros x Hx.
  eapply elem_of_sublist in Hx; [|exact Hadded].
  by apply findNearbyFIRs_elem_of in Hx.
Qed.

Lemma clusterStep_fold_seeded (firs : list FIR.t) (radiusKm : Q)
    (todo : list FIR.t) :
  forall st,
    Forall (seededCluster firs radiusKm) st.1 ->
    (forall fir, fir ∈ todo -> fir ∈ firs) ->
    Forall (seededCluster firs radiusKm)
      (fold_left (clusterStep firs radiusKm) todo st).1.
Proof.
  induction todo as [|fir todo IH]; intros st Hall Htodo; simpl; [done|].
  apply IH.
  - apply clusterStep_seeded; [done|]. apply Htodo. by left.
  - intros x Hx. apply Htodo. by right.
Qed.

(** X7: every cluster consists of a seed record of the input followed
    by input records whose haversine distance to the seed is at most the
    radius (0.5 km when the radius is omitted), and the clusters are
    listed in non-increasing order of size. *)
Theorem clusterFIRs_seeded_sorted (firs : list FIR.t) (radiusKm : option Q) :
  Forall (seededCluster firs (default (1 # 2) radiusKm))
    (clusterFIRs firs radiusKm)
  /\ StronglySorted (fun a b => (length b <= length a)%nat)
       (clusterFIRs firs radiusKm).
Proof.
  unfold clusterFIRs.
  pose proof (clusterStep_fold_seeded firs (default (1 # 2) radiusKm) firs
                ([], ∅)) as Hfold.
  destruct (fold_left _ firs _) as [clusters visited]. simpl in Hfold.
  split; [|apply sortDesc_descending].
  apply Forall_forall. intros cluster Hc. rewrite sortDesc_perm in Hc.
  revert cluster Hc. apply Forall_forall. by apply Hfold.
Qed.

(** X8: whatever the input, the records of the clusters are input
    records with pairwise distinct identifiers, and every identifier of
    the input is the identifier of a clustered record: each identifier is
    clustered exactly once. *)
Theorem clusterFIRs_identifiers_once (firs : list FIR.t)
    (radiusKm : option Q) :
  let clustered := concat (clusterFIRs firs radiusKm) in
  NoDup (FIR.id <$> clustered)
  /\ (forall fir, fir ∈ clustered -> fir ∈ firs)
  /\ (forall id, id ∈ FIR.id <$> firs <-> id ∈ FIR.id <$> clustered)
  /\ (length clustered <= length firs)%nat.
Proof.
  intros clustered.
  destruct (clusterFIRs_ids firs radiusKm) as (Hnd & Hsub & Hall & _).
  fold clustered in Hnd, Hsub, Hall.
  split; [done|]. split; [done|]. split.
  - intros id. split.
    + intros (fir & -> & Hfir)%list_elem_of_fmap. by apply Hall.
    + intros (fir & -> & Hfir)%list_elem_of_fmap.
      apply list_elem_of_fmap. exists fir. split; [done|]. by apply Hsub.
  - apply submseteq_length, NoDup_submseteq; [|done].
    by apply NoDup_fmap_1 in Hnd.
Qed.

(** ** Bounds and centroid *)

Lemma jsMin_spec (x y : Q) :
  (jsMin x y <= x)%Q /\ (jsMin x y <= y)%Q /\ (jsMin x y = x \/ jsMin x y = y).
Proof.
  unfold jsMin. destruct (Qle_bool x y) eqn:H.
  - apply Qle_bool_iff in H. repeat split; [lra|done|by left].
  - apply not_true_iff_false in H. rewrite Qle_bool_iff in H.
    apply Qnot_le_lt in H. repeat split; [lra|lra|by right].
Qed.

Lemma jsMax_spec (x y : Q) :
  (x <= jsMax x y)%Q /\ (y <= jsMax x y)%Q /\ (jsMax x y = x \/ jsMax x y = y).
Proof.
  unfold jsMax. destruct (Qle_bool x y) eqn:H.
  - apply Qle_bool_iff in H. repeat split; [done|lra|by right].
  - apply not_true_iff_false in H. rewrite Qle_bool_iff in H.
    apply Qnot_le_lt in H. repeat split; [lra|lra|by left].
Qed.

(** The loop of [calculateBounds] from the bounds [b0]: the result
    contains [b0] and the records, and each of its four values is a
    value of [b0] or of a record. *)
Lemma calculateBounds_loop (l : list FIR.t) :
  forall b0 : Bounds.t,
    let b :=
      fold_left
        (fun b fir =>
           {| Bounds.minLat := jsMin (Bounds.minLat b) (FIR.latitude fir);
              Bounds.maxLat := jsMax (Bounds.maxLat b) (FIR.latitude fir);
              Bounds.minLng := jsMin (Bounds.minLng b) (FIR.longitude fir);
              Bounds.maxLng := jsMax (Bounds.maxLng b) (FIR.longitude fir) |})
        l b0 in
    ((Bounds.minLat b <= Bounds.minLat b0)%Q
     /\ (Bounds.maxLat b0 <= Bounds.maxLat b)%Q
     /\ (Bounds.minLng b <= Bounds.minLng b0)%Q
     /\ (Bounds.maxLng b0 <= Bounds.maxLng b)%Q)
    /\ Forall (withinBounds b) l
    /\ (Bounds.minLat b = Bounds.minLat b0
        \/ exists fir, fir ∈ l /\ Bounds.minLat b = FIR.latitude fir)
    /\ (Bounds.maxLat b = Bounds.maxLat b0
        \/ exists fir, fir ∈ l /\ Bounds.maxLat b = FIR.latitude fir)
    /\ (Bounds.minLng b = Bounds.minLng b0
        \/ exists fir, fir ∈ l /\ Bounds.minLng b = FIR.longitude fir)
    /\ (Bounds.maxLng b = Bounds.maxLng b0
        \/ exists fir, fir ∈ l /\ Bounds.maxLng b = FIR.longitude fir).
Proof.
  induction l as [|fir l IH]; intros b0; cbn zeta; simpl.
  - split; [repeat split; lra|]. split; [constructor|].
    repeat split; by left.
  - match goal with
    | |- context [fold_left ?f l ?b1] =>
        specialize (IH b1); cbn zeta in IH; simpl in IH;
        set (b := fold_left f l b1) in *
    end.
    destruct IH as ((H1 & H2 & H3 & H4) & Hall & A1 & A2 & A3 & A4).
    destruct (jsMin_spec (Bounds.minLat b0) (FIR.latitude fir))
      as (m1 & m2 & m3).
    destruct (jsMax_spec (Bounds.maxLat b0) (FIR.latitude fir))
      as (M1 & M2 & M3).
    destruct (jsMin_spec (Bounds.minLng b0) (FIR.longitude fir))
      as (n1 & n2 & n3).
    destruct (jsMax_spec (Bounds.maxLng b0) (FIR.longitude fir))
      as (N1 & N2 & N3).
    split; [repeat split; lra|].
    split; [constructor; [split; split; lra|done]|].
    assert (Hlift : forall (v : Q) (proj : FIR.t -> Q),
               (exists f, f ∈ l /\ v = proj f) ->
               exists f, f ∈ fir :: l /\ v = proj f).
    { intros v proj (f & Hf & ->). exists f. split; [by right|done]. }
    assert (Hhead : forall (v : Q) (proj : FIR.t -> Q),
               v = proj fir -> exists f, f ∈ fir :: l /\ v = proj f).
    { intros v proj ->. exists fir. split; [by left|done]. }
    repeat split.
    + destruct A1 as [->|?]; [|right; by apply Hlift].
      destruct m3 as [->| ->]; [by left|right; by apply Hhead].
    + destruct A2 as [->|?]; [|right; by apply Hlift].
      destruct M3 as [->| ->]; [by left|right; by apply Hhead].
    + destruct A3 as [->|?]; [|right; by apply Hlift].
      destruct n3 as [->| ->]; [by left|right; by apply Hhead].
    + destruct A4 as [->|?]; [|right; by apply Hlift].
      destruct N3 as [->| ->]; [by left|right; by apply Hhead].
Qed.

(** On a non-empty record set the bounds contain every record, and each
    of the four bounds is the latitude or the longitude of some record. *)
Lemma calculateBounds_spec (firs : list FIR.t) :
  firs <> [] ->
  let b := calculateBounds firs in
  Forall (withinBounds b) firs
  /\ (exists fir, fir ∈ firs /\ Bounds.minLat b = FIR.latitude fir)
  /\ (exists fir, fir ∈ firs /\ Bounds.maxLat b = FIR.latitude fir)
  /\ (exists fir, fir ∈ firs /\ Bounds.minLng b = FIR.longitude fir)
  /\ (exists fir, fir ∈ firs /\ Bounds.maxLng b = FIR.longitude fir).
Proof.
  destruct firs as [|first rest]; [done|]. intros _ b.
  pose proof (calculateBounds_loop (first :: rest)
                {| Bounds.minLat := FIR.latitude first;
                   Bounds.maxLat := FIR.latitude first;
                   Bounds.minLng := FIR.longitude first;
                   Bounds.maxLng := FIR.longitude first |}) as Hloop.
  cbn zeta in Hloop. change (fold_left _ (first :: rest) _) with b in Hloop.
  destruct Hloop as (_ & Hall & A1 & A2 & A3 & A4). simpl in A1, A2, A3, A4.
  split; [done|].
  repeat split.
  - destruct A1 as [->|?]; [|done]. exists first. split; [by left|done].
  - destruct A2 as [->|?]; [|done]. exists first. split; [by left|done].
  - destruct A3 as [->|?]; [|done]. exists first. split; [by left|done].
  - destruct A4 as [->|?]; [|done]. exists first. split; [by left|done].
Qed.

(** X9: on a non-empty record set the bounds of [calculateBounds]
    contain every record, and each of the four bounds is the latitude or
    the longitude of some record: the box is the smallest one around the
    records.  On such a set [getCenter] returns a point (not [null]). *)
Theorem calculateBounds_smallest_box (firs : list FIR.t) :
  firs <> [] ->
  let b := calculateBounds firs in
  Forall (withinBounds b) firs
  /\ (exists fir, fir ∈ firs /\ Bounds.minLat b = FIR.latitude fir)
  /\ (exists fir, fir ∈ firs /\ Bounds.maxLat b = FIR.latitude fir)
  /\ (exists fir, fir ∈ firs /\ Bounds.minLng b = FIR.longitude fir)
  /\ (exists fir, fir ∈ firs /\ Bounds.maxLng b = FIR.longitude fir)
  /\ is_Some (getCenter firs).
Proof.
  intros Hne b.
  destruct (calculateBounds_spec firs Hne) as (H1 & H2 & H3 & H4 & H5).
  repeat (split; [done|]).
  unfold getCenter. destruct firs as [|fir firs]; [done|].
  cbn [length Nat.eqb]. by destruct (fold_left _ _ _).
Qed.

Lemma calculateBounds_smallest_box_witness :
  testFIRs <> []
  /\ Forall (withinBounds (calculateBounds testFIRs)) testFIRs
  /\ is_Some (getCenter testFIRs).
Proof.
  assert (Hne : testFIRs <> []) by discriminate.
  split; [exact Hne|].
  destruct (calculateBounds_smallest_box testFIRs Hne)
    as (Hall & _ & _ & _ & _ & Hcenter).
  split; [exact Hall|exact Hcenter].
Defined.

(** ** Distance and radius search *)

Lemma atan2_nonneg_range (y x : R) :
  (0 <= y)%R -> (0 <= x)%R -> (0 <= atan2 y x <= PI / 2)%R.
Proof.
  intros Hy Hx. unfold atan2. pose proof PI_RGT_0 as Hpi.
  destruct (Rlt_dec 0 x) as [Hpos|Hnpos].
  - assert (Hq : (0 <= y / x)%R).
    { apply Rmult_le_pos; [done|]. left. by apply Rinv_0_lt_compat. }
    pose proof (atan_bound (y / x)) as [_ Hup].
    split; [|lra].
    destruct Hq as [Hq|<-]; [|rewrite atan_0; lra].
    apply atan_increasing in Hq. rewrite atan_0 in Hq. lra.
  - destruct (Rlt_dec x 0); [lra|].
    destruct (Rlt_dec 0 y); [lra|].
    destruct (Rlt_dec y 0); lra.
Qed.

Lemma filter_none {A : Type} (f : A -> bool) (l : list A) :
  Forall (fun x => f x = false) l -> List.filter f l = [].
Proof.
  induction 1 as [|x l Hx _ IH]; simpl; [done|]. by rewrite Hx.
Qed.

Lemma PI_upper : (PI <= 31416 / 10000)%R.
Proof.
  destruct (PI_2_3_7_ineq 2) as [_ H].
  unfold sum_f_R0, tg_alt, PI_2_3_7_tg, Ratan_seq in H.
  simpl in H. lra.
Qed.

Lemma haversineDistance_Some (lat1 lng1 lat2 lng2 d : R) :
  haversineDistance lat1 lng1 lat2 lng2 = Some d ->
  (0 <= d <= 6371 * PI)%R.
Proof.
  unfold haversineDistance.
  match goal with
  | |- (jsSqrt ?a ≫= _) = _ -> _ =>
      destruct (jsSqrt a) as [sa|] eqn:Hsa; csimpl; [|done]
  end.
  match goal with
  | |- (jsSqrt ?b ≫= _) = _ -> _ =>
      destruct (jsSqrt b) as [sb|] eqn:Hsb; csimpl; [|done]
  end.
  intros [= Hd]. subst d. unfold jsSqrt in Hsa, Hsb.
  destruct (Rlt_dec _ 0) in Hsa; [done|]. injection Hsa as Hsa. subst sa.
  destruct (Rlt_dec _ 0) in Hsb; [done|]. injection Hsb as Hsb. subst sb.
  match goal with
  | |- context [atan2 (sqrt ?a) (sqrt ?b)] =>
      pose proof (atan2_nonneg_range (sqrt a) (sqrt b)
                    (sqrt_pos a) (sqrt_pos b)) as Hrange
  end.
  split; nra.
Qed.

(** X10: the haversine distance, when it is a number, lies between 0
    and 20016 kilometres (half the circumference of the model Earth is
    6371 * PI, about 20015.09).  So a radius search with a negative
    radius finds nothing, and a radius search with a radius of 20016
    kilometres or more finds every record whose distance to the center
    is a number. *)
Theorem haversineDistance_range (firs : list FIR.t)
    (centerLat centerLng radiusKm : Q) :
  (forall lat1 lng1 lat2 lng2 d,
      haversineDistance lat1 lng1 lat2 lng2 = Some d ->
      (0 <= d <= 20016)%R)
  /\ ((radiusKm < 0)%Q ->
      findNearbyFIRs firs centerLat centerLng radiusKm = [])
  /\ ((20016 <= radiusKm)%Q ->
      findNearbyFIRs firs centerLat centerLng radiusKm
      = List.filter
          (fun fir =>
             bool_decide
               (is_Some
                  (haversineDistance (Q2R centerLat) (Q2R centerLng)
                     (Q2R (FIR.latitude fir)) (Q2R (FIR.longitude fir)))))
          firs).
Proof.
  assert (Hrange : forall lat1 lng1 lat2 lng2 d,
             haversineDistance lat1 lng1 lat2 lng2 = Some d ->
             (0 <= d <= 20016)%R).
  { intros lat1 lng1 lat2 lng2 d Hd.
    apply haversineDistance_Some in Hd. pose proof PI_upper. lra. }
  split; [exact Hrange|]. split.
  - intros Hneg. apply Qreals.Qlt_Rlt in Hneg.
    rewrite RMicromega.Q2R_0 in Hneg.
    unfold findNearbyFIRs. apply filter_none, Forall_forall.
    intros fir _. cbn zeta. apply not_true_iff_false.
    intros (d & Hd & Hle)%withinRadius_iff.
    apply Hrange in Hd. lra.
  - intros Hbig. apply Qreals.Qle_Rle in Hbig.
    assert (H20016 : Q2R 20016 = 20016%R) by (unfold Q2R; simpl; lra).
    rewrite H20016 in Hbig.
    unfold findNearbyFIRs. apply List.filter_ext. intros fir. cbn zeta.
    apply eq_true_iff_eq. rewrite withinRadius_iff, bool_decide_eq_true.
    split.
    + intros (d & Hd & _). by exists d.
    + intros [d Hd]. exists d. split; [done|].
      apply Hrange in Hd. lra.
Qed.

Lemma isNearby_sym (a b : FIR.t) (radiusKm : Q) :
  isNearby (FIR.latitude a) (FIR.longitude a) radiusKm b ->
  isNearby (FIR.latitude b) (FIR.longitude b) radiusKm a.
Proof.
  intros (d & Hd & Hle). exists d. split; [|done].
  by rewrite haversineDistance_sym.
Qed.

(** X11: the radius search grows with the radius (the result for a
    smaller radius is a subsequence of the result for a larger one), a
    record of the input is found around its own position for every
    radius that is not negative, and being within a radius is symmetric:
    [b] is found around [a] exactly when [a] is found around [b]. *)
Theorem findNearbyFIRs_neighbourhood (firs : list FIR.t)
    (centerLat centerLng r1 r2 : Q) (a b : FIR.t) :
  ((r1 <= r2)%Q ->
   findNearbyFIRs firs centerLat centerLng r1
   `sublist_of` findNearbyFIRs firs centerLat centerLng r2)
  /\ (a ∈ firs -> (0 <= r1)%Q ->
      a ∈ findNearbyFIRs firs (FIR.latitude a) (FIR.longitude a) r1)
  /\ (a ∈ firs -> b ∈ firs ->
      (b ∈ findNearbyFIRs firs (FIR.latitude a) (FIR.longitude a) r1 <->
       a ∈ findNearbyFIRs firs (FIR.latitude b) (FIR.longitude b) r1)).
Proof.
  split; [|split].
  - intros Hr. apply Qreals.Qle_Rle in Hr. unfold findNearbyFIRs.
    induction firs as [|fir firs IH]; simpl; [done|].
    destruct (withinRadius _ r1) eqn:H1.
    + apply withinRadius_iff in H1 as (d & Hd & Hle).
      assert (H2 : withinRadius
                     (haversineDistance (Q2R centerLat) (Q2R centerLng)
                        (Q2R (FIR.latitude fir)) (Q2R (FIR.longitude fir)))
                     r2 = true).
      { apply withinRadius_iff. exists d. split; [done|lra]. }
      rewrite H2. by constructor.
    + destruct (withinRadius _ r2); [by constructor|done].
  - intros Ha Hr. apply findNearbyFIRs_elem_of. split; [done|].
    exists 0%R. split; [apply haversineDistance_self|].
    apply Qreals.Qle_Rle in Hr. by rewrite RMicromega.Q2R_0 in Hr.
  - intros Ha Hb. rewrite !findNearbyFIRs_elem_of.
    split; intros [_ Hn]; (split; [done|]); by apply isNearby_sym.
Qed.

(** ** Insight service *)

(** A counting loop over a [gmap]: the bucket under [k] holds the number
    of records that [key] sends to [k]. *)
Lemma countLoop_lookup {K : Type} `{Countable K} (key : FIR.t -> K)
    (firs : list FIR.t) (k : K) :
  default 0%nat
    (fold_left
       (fun (m : gmap K nat) fir =>
          <[key fir := (default 0 (m !! key fir) + 1)%nat]> m)
       firs ∅ !! k)
  = countBy key firs k.
Proof.
  unfold countBy.
  enough (Hgen : forall m : gmap K nat,
             default 0%nat
               (fold_left
                  (fun (m : gmap K nat) fir =>
                     <[key fir := (default 0 (m !! key fir) + 1)%nat]> m)
                  firs m !! k)
             = (default 0%nat (m !! k)
                + length (List.filter
                            (fun fir => bool_decide (key fir = k)) firs))%nat).
  { by rewrite Hgen, lookup_empty. }
  induction firs as [|fir firs IH]; intros m; simpl; [lia|].
  rewrite IH. case_bool_decide as Hkey.
  - rewrite Hkey, lookup_insert_eq. simpl. lia.
  - by rewrite lookup_insert_ne.
Qed.

(** The records with a key below [n], counted key by key. *)
Lemma countBy_below (key : FIR.t -> nat) (firs : list FIR.t) (n : nat) :
  sum_list_with (countBy key firs) (seq 0 n)
  = length (List.filter (fun fir => bool_decide (key fir < n)%nat) firs).
Proof.
  induction n as [|n IH].
  - cbn [seq sum_list_with].
    induction firs as [|fir firs IHf]; cbn [List.filter]; [done|].
    rewrite bool_decide_eq_false_2 by lia. done.
  - rewrite seq_S, sum_list_with_app, IH.
    cbn [sum_list_with Nat.add]. unfold countBy.
    clear IH. induction firs as [|fir firs IHf]; cbn [List.filter]; [done|].
    repeat case_bool_decide; cbn [length]; lia.
Qed.

Lemma filter_length_le {A : Type} (f : A -> bool) (l : list A) :
  (length (List.filter f l) <= length l)%nat.
Proof.
  induction l as [|x l IH]; simpl; [done|]. destruct (f x); simpl; lia.
Qed.

Lemma sumCounts_sum (l : list DayCount.t) :
  sumCounts l = sum_list_with DayCount.count l.
Proof.
  unfold sumCounts.
  enough (Hgen : forall acc,
             fold_left (fun sum d => (sum + DayCount.count d)%nat) l acc
             = (acc + sum_list_with DayCount.count l)%nat) by apply Hgen.
  induction l as [|d l IH]; intros acc; simpl; [lia|]. rewrite IH. lia.
Qed.

Lemma getDayWiseTrends_explicit (firs : list FIR.t) :
  getDayWiseTrends firs
  = imap (fun index day =>
            {| DayCount.day := day; DayCount.count := dayCount firs index |})
      dayNames.
Proof.
  unfold getDayWiseTrends, dayCount, dayCounts.
  apply imap_ext. intros i day _. by rewrite countLoop_lookup.
Qed.

Lemma getMonthlyTrends_explicit (firs : list FIR.t) :
  getMonthlyTrends firs
  = imap (fun index month =>
            {| MonthCount.month := month;
               MonthCount.count := monthCount firs index |})
      monthNames.
Proof.
  unfold getMonthlyTrends, monthCount, monthCounts.
  apply imap_ext. intros i month _. by rewrite countLoop_lookup.
Qed.

Lemma getDayWiseTrends_names (firs : list FIR.t) :
  map DayCount.day (getDayWiseTrends firs) = dayNames.
Proof. by rewrite getDayWiseTrends_explicit. Qed.

Lemma getDayWiseTrends_entry (firs : list FIR.t) (i : nat)
    (entry : DayCount.t) :
  getDayWiseTrends firs !! i = Some entry ->
  dayNames !! i = Some (DayCount.day entry)
  /\ DayCount.count entry = dayCount firs i.
Proof.
  rewrite getDayWiseTrends_explicit. intros Hi.
  rewrite list_lookup_imap in Hi.
  destruct (dayNames !! i) as [day|] eqn:Hday; [|done].
  simpl in Hi. injection Hi as <-. done.
Qed.

Lemma getDayWiseTrends_sum (firs : list FIR.t) :
  sumCounts (getDayWiseTrends firs)
  = length (List.filter
              (fun fir => bool_decide (JSDate.getDay (FIR.date fir) < 7)%nat)
              firs).
Proof.
  rewrite getDayWiseTrends_explicit.
  rewrite <- (countBy_below (fun fir => JSDate.getDay (FIR.date fir))).
  rewrite sumCounts_sum. simpl. unfold dayCount. lia.
Qed.

Lemma getMonthlyTrends_sum (firs : list FIR.t) :
  sum_list_with MonthCount.count (getMonthlyTrends firs)
  = length (List.filter
              (fun fir =>
                 bool_decide (JSDate.getMonth (FIR.date fir) < 12)%nat)
              firs).
Proof.
  rewrite getMonthlyTrends_explicit.
  rewrite <- (countBy_below (fun fir => JSDate.getMonth (FIR.date fir))).
  simpl. unfold monthCount. lia.
Qed.

Lemma getMonthlyTrends_entry (firs : list FIR.t) (i : nat)
    (entry : MonthCount.t) :
  getMonthlyTrends firs !! i = Some entry ->
  monthNames !! i = Some (MonthCount.month entry)
  /\ MonthCount.count entry = monthCount firs i.
Proof.
  rewrite getMonthlyTrends_explicit. intros Hi.
  rewrite list_lookup_imap in Hi.
  destruct (monthNames !! i) as [month|] eqn:Hmonth; [|done].
  simpl in Hi. injection Hi as <-. done.
Qed.

(** X12: [getDayWiseTrends] returns the seven weekdays in calendar order,
    Sunday first, and [getMonthlyTrends] the twelve months, January
    first; the entry of a weekday or month holds the number of records
    filed on that day or in that month; the counts sum to the number of
    records whose [getDay()] is one of 0..6, or whose [getMonth()] is one
    of 0..11, which is at most the number of records. *)
Theorem calendarTrends_counts (firs : list FIR.t) :
  let days := getDayWiseTrends firs in
  let months := getMonthlyTrends firs in
  (map DayCount.day days = dayNames
   /\ (forall i entry,
         days !! i = Some entry ->
         dayNames !! i = Some (DayCount.day entry)
         /\ DayCount.count entry = dayCount firs i)
   /\ sumCounts days
      = length (List.filter
                  (fun fir =>
                     bool_decide (JSDate.getDay (FIR.date fir) < 7)%nat)
                  firs)
   /\ (sumCounts days <= length firs)%nat)
  /\ (map MonthCount.month months = monthNames
      /\ (forall i entry,
            months !! i = Some entry ->
            monthNames !! i = Some (MonthCount.month entry)
            /\ MonthCount.count entry = monthCount firs i)
      /\ sum_list_with MonthCount.count months
         = length (List.filter
                     (fun fir =>
                        bool_decide
                          (JSDate.getMonth (FIR.date fir) < 12)%nat) firs)
      /\ (sum_list_with MonthCount.count months <= length firs)%nat).
Proof.
  intros days months. unfold days, months. split.
  - split; [apply getDayWiseTrends_names|].
    split; [apply getDayWiseTrends_entry|].
    split; [apply getDayWiseTrends_sum|].
    rewrite getDayWiseTrends_sum. apply filter_length_le.
  - split; [by rewrite getMonthlyTrends_explicit|].
    split; [apply getMonthlyTrends_entry|].
    split; [apply getMonthlyTrends_sum|].
    rewrite getMonthlyTrends_sum. apply filter_length_le.
Qed.

Lemma hourCount_below (firs : list FIR.t) (n : nat) :
  sum_list_with (hourCount firs) (seq 0 n)
  = length (List.filter
              (fun fir =>
                 match hourOf fir with
                 | Some h => bool_decide (0 <= h < Z.of_nat n)%Z
                 | None => false
                 end) firs).
Proof.
  induction n as [|n IH].
  - cbn [seq sum_list_with].
    induction firs as [|fir firs IHf]; cbn [List.filter]; [done|].
    destruct (hourOf fir) as [h|]; [|done].
    rewrite bool_decide_eq_false_2 by lia. done.
  - rewrite seq_S, sum_list_with_app, IH.
    cbn [sum_list_with Nat.add]. unfold hourCount.
    clear IH. induction firs as [|fir firs IHf]; cbn [List.filter]; [done|].
    destruct (hourOf fir) as [h|].
    + cbn [Nat.add]. destruct (decide (h = Z.of_nat n)) as [->|Hne].
      * rewrite (bool_decide_eq_true_2 (Some _ = Some _)) by done.
        rewrite (bool_decide_eq_false_2 (_ <= _ < Z.of_nat n)%Z) by lia.
        rewrite (bool_decide_eq_true_2 (_ <= _ < Z.of_nat (S n))%Z) by lia.
        cbn [length]. lia.
      * rewrite (bool_decide_eq_false_2 (Some _ = Some _)) by congruence.
        repeat case_bool_decide; cbn [length]; lia.
    + rewrite bool_decide_eq_false_2 by done. done.
Qed.

Lemma getPeakHours_sum (firs : list FIR.t) :
  sum_list_with HourCount.count (getPeakHours firs)
  = length (List.filter hasClockHour firs).
Proof.
  rewrite getPeakHours_perm.
  transitivity (sum_list_with (hourCount firs) (seq 0 24)).
  - generalize (seq 0 24). intros l.
    induction l as [|i l IH]; simpl; [done|]. by rewrite IH.
  - apply hourCount_below.
Qed.

(** X13: [getPeakHours] returns one bucket for each hour 0..23, in
    descending order of count; the counts sum to the number of records
    whose time of day starts with an hour between 0 and 23, so a record
    whose time does not parse, or parses to another number, is counted
    in no bucket. *)
Theorem getPeakHours_histogram (firs : list FIR.t) :
  let buckets := getPeakHours firs in
  map HourCount.hour buckets ≡ₚ seq 0 24
  /\ StronglySorted
       (fun a b => (HourCount.count b <= HourCount.count a)%nat) buckets
  /\ sum_list_with HourCount.count buckets
     = length (List.filter hasClockHour firs)
  /\ (sum_list_with HourCount.count buckets <= length firs)%nat.
Proof.
  intros buckets. unfold buckets.
  pose proof (getPeakHours_sum firs) as Hsum.
  split; [|split; [|split; [done|]]].
  - rewrite getPeakHours_perm, map_map. cbn [HourCount.hour].
    by rewrite map_id.
  - apply sortDesc_descending.
  - rewrite Hsum. apply filter_length_le.
Qed.

(** *** Plain objects used as counters *)

Lemma objGet_objSet_eq (obj : JSObject) (k : string) (v : nat) :
  objGet (objSet obj k v) k = v.
Proof.
  induction obj as [|[k' w] obj IH]; simpl.
  - by rewrite String.eqb_refl.
  - destruct (String.eqb k' k) eqn:Hk; simpl; by rewrite Hk.
Qed.

Lemma objGet_objSet_ne (obj : JSObject) (k k' : string) (v : nat) :
  k <> k' -> objGet (objSet obj k v) k' = objGet obj k'.
Proof.
  intros Hne. induction obj as [|[k0 w] obj IH]; simpl.
  - apply String.eqb_neq in Hne. by rewrite Hne.
  - destruct (String.eqb k0 k) eqn:Hk; simpl.
    + apply String.eqb_eq in Hk as ->.
      apply String.eqb_neq in Hne. by rewrite Hne.
    + by rewrite IH.
Qed.

Lemma objSet_keys (obj : JSObject) (k k' : string) (v : nat) :
  k' ∈ (objSet obj k v).*1 <-> k' = k \/ k' ∈ obj.*1.
Proof.
  induction obj as [|[k0 w] obj IH]; simpl.
  - set_solver.
  - destruct (String.eqb k0 k) eqn:Hk; simpl.
    + apply String.eqb_eq in Hk as ->. set_solver.
    + rewrite !elem_of_cons, IH. tauto.
Qed.

Lemma objSet_NoDup (obj : JSObject) (k : string) (v : nat) :
  NoDup obj.*1 -> NoDup (objSet obj k v).*1.
Proof.
  induction obj as [|[k0 w] obj IH]; simpl; intros Hnd.
  - apply NoDup_singleton.
  - apply NoDup_cons in Hnd as [Hnot Hnd].
    destruct (String.eqb k0 k) eqn:Hk; simpl.
    + by apply NoDup_cons.
    + apply NoDup_cons. split; [|by apply IH].
      rewrite objSet_keys. intros [->|?]; [|done].
      by rewrite String.eqb_refl in Hk.
Qed.

Lemma objSet_increment (obj : JSObject) (k : string) :
  sum_list_with snd (objSet obj k (objGet obj k + 1))
  = S (sum_list_with snd obj).
Proof.
  induction obj as [|[k0 w] obj IH]; simpl; [lia|].
  destruct (String.eqb k0 k); simpl; [lia|]. rewrite IH. lia.
Qed.

Lemma objGet_entry (obj : JSObject) (k : string) (v : nat) :
  NoDup obj.*1 -> (k, v) ∈ obj -> objGet obj k = v.
Proof.
  induction obj as [|[k0 w] obj IH]; simpl; intros Hnd Hin.
  - by apply elem_of_nil in Hin.
  - apply NoDup_cons in Hnd as [Hnot Hnd].
    apply elem_of_cons in Hin as [[= <- <-]|Hin].
    + by rewrite String.eqb_refl.
    + destruct (String.eqb k0 k) eqn:Hk; [|by apply IH].
      apply String.eqb_eq in Hk as ->. exfalso. apply Hnot.
      apply list_elem_of_fmap. by exists (k, v).
Qed.

Lemma insertIndex_perm (e : N * (string * nat))
    (l : list (N * (string * nat))) :
  insertIndex e l ≡ₚ e :: l.
Proof.
  induction l as [|e' l IH]; simpl; [done|].
  destruct (e.1 <? e'.1)%N; [done|]. rewrite IH. apply Permutation_swap.
Qed.

(** [Object.entries] lists every property once. *)
Lemma objectEntries_perm (obj : JSObject) : objectEntries obj ≡ₚ obj.
Proof.
  unfold objectEntries.
  assert (Hsorted : forall l : list (N * (string * nat)),
             foldr insertIndex [] l ≡ₚ l).
  { induction l as [|e l IH]; simpl; [done|].
    by rewrite insertIndex_perm, IH. }
  rewrite Hsorted. clear Hsorted.
  induction obj as [|e obj IH]; simpl; [done|].
  destruct (arrayIndex e.1) as [i|] eqn:Hi; csimpl.
  - by rewrite IH.
  - rewrite <- IH at 3. by rewrite Permutation_middle.
Qed.

(** The counting loop: distinct keys, one for each key of the input, each
    with the number of records of that key. *)
Lemma tally_spec (key : FIR.t -> string) (firs : list FIR.t) :
  NoDup (tally key firs).*1
  /\ (forall k, objGet (tally key firs) k = countBy key firs k)
  /\ (forall k, k ∈ (tally key firs).*1 <->
                exists fir, fir ∈ firs /\ key fir = k)
  /\ sum_list_with snd (tally key firs) = length firs.
Proof.
  unfold tally, countBy.
  enough (Hgen : forall obj0 : JSObject,
             NoDup obj0.*1 ->
             let obj :=
               fold_left
                 (fun obj fir =>
                    objSet obj (key fir) (objGet obj (key fir) + 1))
                 firs obj0 in
             NoDup obj.*1
             /\ (forall k,
                   objGet obj k
                   = (objGet obj0 k
                      + length (List.filter
                                  (fun fir => bool_decide (key fir = k))
                                  firs))%nat)
             /\ (forall k, k ∈ obj.*1 <->
                           k ∈ obj0.*1
                           \/ exists fir, fir ∈ firs /\ key fir = k)
             /\ sum_list_with snd obj
                = (sum_list_with snd obj0 + length firs)%nat).
  { destruct (Hgen [] (NoDup_nil_2)) as (H1 & H2 & H3 & H4).
    split; [done|]. split; [done|]. split; [|done].
    intros k. rewrite H3. simpl. rewrite elem_of_nil. tauto. }
  induction firs as [|fir firs IH]; intros obj0 Hnd; simpl.
  - split; [done|]. split; [intros; lia|]. split; [|lia].
    intros k. split; [tauto|]. intros [?|(fir & Hfir & _)]; [done|].
    by apply elem_of_nil in Hfir.
  - destruct (IH _ (objSet_NoDup obj0 (key fir)
                      (objGet obj0 (key fir) + 1) Hnd))
      as (H1 & H2 & H3 & H4).
    split; [done|]. split; [|split].
    + intros k. rewrite H2. case_bool_decide as Hk; simpl.
      * rewrite Hk, objGet_objSet_eq. lia.
      * by rewrite objGet_objSet_ne.
    + intros k. rewrite H3, objSet_keys. split.
      * intros [[->|?]|(fir' & Hfir' & Hk)]; [right|by left|right].
        -- exists fir. split; [by left|done].
        -- exists fir'. split; [by right|done].
      * intros [?|(fir' & Hfir' & Hk)]; [by left; right|].
        apply elem_of_cons in Hfir' as [->|Hfir'].
        -- left; left. done.
        -- right. by exists fir'.
    + rewrite H4, objSet_increment. lia.
Qed.

Section RankedEntries.
Context {B : Type} (key : FIR.t -> string) (f : string * nat -> B).
Context (kf : B -> string) (cf : B -> nat).
Hypothesis kf_f : forall e, kf (f e) = e.1.
Hypothesis cf_f : forall e, cf (f e) = e.2.

(** The entries of a counting object, turned into records and sorted by
    descending count. *)
Lemma ranked_entries (firs : list FIR.t) :
  let ranked := sortDesc cf (map f (objectEntries (tally key firs))) in
  NoDup (map kf ranked)
  /\ Forall (fun b => cf b = countBy key firs (kf b) /\ (1 <= cf b)%nat)
       ranked
  /\ StronglySorted (fun a b => (cf b <= cf a)%nat) ranked
  /\ (forall k, k ∈ map kf ranked <-> exists fir, fir ∈ firs /\ key fir = k)
  /\ sum_list_with cf ranked = length firs.
Proof using kf_f cf_f.
  intros ranked.
  destruct (tally_spec key firs) as (Hnd & Hget & Hkeys & Hsum).
  assert (Hperm : ranked ≡ₚ map f (tally key firs)).
  { unfold ranked. by rewrite sortDesc_perm, objectEntries_perm. }
  assert (Hmapk : map kf (map f (tally key firs)) = (tally key firs).*1).
  { rewrite map_map. apply map_ext. intros e. apply kf_f. }
  split; [|split; [|split; [|split]]].
  - by rewrite Hperm, Hmapk.
  - rewrite Hperm. apply Forall_forall. intros b Hb.
    apply list_elem_of_In, in_map_iff in Hb as ([k v] & <- & He).
    apply list_elem_of_In in He.
    rewrite kf_f, cf_f. simpl.
    pose proof (objGet_entry _ _ _ Hnd He) as Hv.
    rewrite Hget in Hv. split; [done|].
    assert (Hk : k ∈ (tally key firs).*1).
    { apply list_elem_of_fmap. by exists (k, v). }
    apply Hkeys in Hk as (fir & Hfir & Hkey).
    rewrite <- Hv. unfold countBy.
    apply list_elem_of_In in Hfir.
    assert (Hin : In fir (List.filter
                            (fun fir => bool_decide (key fir = k)) firs)).
    { apply filter_In. split; [done|]. by apply bool_decide_eq_true_2. }
    destruct (List.filter _ firs); [done|simpl; lia].
  - apply sortDesc_descending.
  - intros k. by rewrite Hperm, Hmapk.
  - rewrite Hperm, <- Hsum. generalize (tally key firs). intros l.
    induction l as [|e l IH]; simpl; [done|]. by rewrite cf_f, IH.
Qed.
End RankedEntries.

Lemma getTopCrimeTypes_ranked (firs : list FIR.t)
    (limit : option JSNumber.t) :
  getTopCrimeTypes firs limit
  = sliceTo
      (sortDesc TypeCount.count
         (map (fun '(type, count) =>
                 {| TypeCount.type := type; TypeCount.count := count |})
            (objectEntries (tally FIR.crimeType firs))))
      (default (JSNumber.Finite 10) limit).
Proof. reflexivity. Qed.

(** [slice(0, end)] returns a front part of the array. *)
Lemma sliceTo_take {A : Type} (l : list A) (end_ : JSNumber.t) :
  exists n, sliceTo l end_ = take n l.
Proof.
  destruct end_ as [| | |q]; simpl; try by eexists.
  destruct (truncate q <? 0)%Z; by eexists.
Qed.

Lemma truncate_nonneg (q : Q) : (0 <= q)%Q -> truncate q = Qfloor q.
Proof.
  destruct q as [num den]. unfold Qle, truncate, Qfloor. simpl.
  intros Hnum. apply Z.quot_div_nonneg; lia.
Qed.

Lemma truncate_neg (q : Q) : (q < 0)%Q -> truncate q = Qceiling q.
Proof.
  destruct q as [num den]. unfold Qlt, truncate, Qceiling, Qfloor. simpl.
  intros Hnum.
  rewrite <- (Z.opp_involutive num) at 1.
  rewrite Z.quot_opp_l by lia. f_equal.
  apply Z.quot_div_nonneg; lia.
Qed.

Lemma sliceTo_finite {A : Type} (l : list A) (q : Q) :
  ((0 <= q)%Q -> sliceTo l (JSNumber.Finite q) = take (Z.to_nat (Qfloor q)) l)
  /\ ((q <= -1)%Q ->
      sliceTo l (JSNumber.Finite q)
      = take (length l - Z.to_nat (- Qceiling q)) l)
  /\ ((-1 < q < 0)%Q -> sliceTo l (JSNumber.Finite q) = []).
Proof.
  split; [|split].
  - intros Hq. cbn [sliceTo]. cbv zeta. rewrite (truncate_nonneg q Hq).
    assert (Hfloor : (0 <= Qfloor q)%Z).
    { change 0%Z with (Qfloor 0). by apply Qfloor_resp_le. }
    destruct (Z.ltb_spec (Qfloor q) 0); [lia|].
    destruct (Z.min_spec (Qfloor q) (Z.of_nat (length l)))
      as [[_ ->]|[Hlen ->]]; [done|].
    rewrite Nat2Z.id, !take_ge; [done|lia|lia].
  - intros Hq. cbn [sliceTo]. cbv zeta.
    rewrite (truncate_neg q) by lra.
    assert (Hceil : (Qceiling q <= -1)%Z).
    { change (-1)%Z with (Qceiling (-1)). by apply Qceiling_resp_le. }
    destruct (Z.ltb_spec (Qceiling q) 0); [|lia].
    f_equal. lia.
  - intros [Hlo Hhi]. cbn [sliceTo]. cbv zeta.
    rewrite (truncate_neg q Hhi).
    assert (Hceil : Qceiling q = 0%Z).
    { assert (H1 : (Qceiling (-1) <= Qceiling q)%Z)
        by (apply Qceiling_resp_le; lra).
      assert (H2 : (Qceiling q <= Qceiling 0)%Z)
        by (apply Qceiling_resp_le; lra).
      change (Qceiling (-1)) with (-1)%Z in H1.
      change (Qceiling 0) with 0%Z in H2.
      destruct (Z.eq_dec (Qceiling q) (-1)%Z) as [Heq|]; [|lia].
      pose proof (Qle_ceiling q) as Hle. rewrite Heq in Hle.
      change (inject_Z (-1)) with (-1)%Q in Hle. lra. }
    rewrite Hceil. simpl. by destruct l.
Qed.

(** X14: when no crime type is the name of a property of
    [Object.prototype], [getTopCrimeTypes] returns a front part of the
    ranking of the crime types: the crime types of the input, each once,
    each with the number of records of that type (at least one), in
    descending order of count.  An omitted limit stands for 10; a limit
    that is not negative keeps that many entries (its integer part), a
    limit of -1 or less drops that many entries from the end, and a
    limit between -1 and 0, NaN or -Infinity keeps none.  A crime type
    that is left out has no more records than any listed one. *)
Theorem getTopCrimeTypes_top (firs : list FIR.t)
    (limit : option JSNumber.t) :
  Forall (fun fir => FIR.crimeType fir ∉ objectPrototypeKeys) firs ->
  let top := getTopCrimeTypes firs limit in
  let ranking := getTopCrimeTypes firs (Some JSNumber.Infinity) in
  (NoDup (map TypeCount.type ranking)
   /\ (forall type, type ∈ map TypeCount.type ranking <->
                    exists fir, fir ∈ firs /\ FIR.crimeType fir = type)
   /\ Forall (fun e =>
                TypeCount.count e = crimeTypeCount firs (TypeCount.type e)
                /\ (1 <= TypeCount.count e)%nat) ranking
   /\ StronglySorted
        (fun a b => (TypeCount.count b <= TypeCount.count a)%nat) ranking)
  /\ top `prefix_of` ranking
  /\ (limit = None -> top = take 10 ranking)
  /\ (forall q, limit = Some (JSNumber.Finite q) ->
        ((0 <= q)%Q -> top = take (Z.to_nat (Qfloor q)) ranking)
        /\ ((q <= -1)%Q ->
            top = take (length ranking - Z.to_nat (- Qceiling q)) ranking)
        /\ ((-1 < q < 0)%Q -> top = []))
  /\ (limit = Some JSNumber.NaN \/ limit = Some JSNumber.NegInfinity ->
      top = [])
  /\ (forall fir,
        fir ∈ firs ->
        FIR.crimeType fir ∉ map TypeCount.type top ->
        Forall (fun e =>
                  (crimeTypeCount firs (FIR.crimeType fir)
                   <= TypeCount.count e)%nat) top).
Proof.
  intros _ top ranking. unfold top, ranking.
  rewrite !getTopCrimeTypes_ranked.
  set (mk := fun '(type, count) =>
               {| TypeCount.type := type; TypeCount.count := count |}).
  destruct (ranked_entries FIR.crimeType mk TypeCount.type TypeCount.count
              ltac:(by intros [? ?]) ltac:(by intros [? ?]) firs)
    as (Hnd & Hall & Hsorted & Hkeys & _).
  set (ranked := sortDesc TypeCount.count
                   (map mk (objectEntries (tally FIR.crimeType firs))))
    in *.
  assert (Hfull : sliceTo ranked (default (JSNumber.Finite 10)
                                    (Some JSNumber.Infinity)) = ranked).
  { simpl. by rewrite take_ge. }
  rewrite Hfull.
  split; [done|].
  destruct (sliceTo_take ranked (default (JSNumber.Finite 10) limit))
    as [n Hn].
  split; [rewrite Hn; apply prefix_take|].
  split.
  { intros ->. simpl default.
    destruct (sliceTo_finite ranked 10) as (H10 & _). by rewrite H10. }
  split.
  { intros q ->. simpl default. apply sliceTo_finite. }
  split.
  { intros [-> | ->]; simpl; by rewrite take_0. }
  rewrite Hn. intros fir Hfir Hnot.
  rewrite <- (take_drop n ranked) in Hall, Hsorted, Hkeys.
  assert (Hin : FIR.crimeType fir ∈ map TypeCount.type
                  (take n ranked ++ drop n ranked)).
  { apply Hkeys. by exists fir. }
  rewrite map_app in Hin. apply elem_of_app in Hin as [Hin|Hin]; [done|].
  apply list_elem_of_In, in_map_iff in Hin as (b & Hb & Hin).
  apply list_elem_of_In in Hin.
  apply Forall_forall. intros e He.
  pose proof (StronglySorted_app_1_elem_of _ _ _ e b Hsorted He Hin)
    as Hle.
  apply Forall_app in Hall as [_ Hall].
  rewrite Forall_forall in Hall. destruct (Hall b Hin) as [Hcount _].
  rewrite Hb in Hcount. unfold crimeTypeCount. by rewrite <- Hcount.
Qed.

Lemma getTopCrimeTypes_top_witness :
  Forall (fun fir => FIR.crimeType fir ∉ objectPrototypeKeys) exampleFIRs
  /\ getTopCrimeTypes exampleFIRs (Some (JSNumber.Finite (-1))) = []
  /\ getTopCrimeTypes exampleFIRs None
     = take 10 (getTopCrimeTypes exampleFIRs (Some JSNumber.Infinity)).
Proof.
  assert (Hkeys : Forall (fun fir => FIR.crimeType fir ∉ objectPrototypeKeys)
                    exampleFIRs).
  { apply (bool_decide_unpack _). vm_compute. reflexivity. }
  split; [exact Hkeys|]. split; [vm_compute; reflexivity|].
  destruct (getTopCrimeTypes_top exampleFIRs None Hkeys)
    as (_ & _ & Hnone & _).
  exact (Hnone eq_refl).
Defined.

Lemma getAreaStatistics_ranked (firs : list FIR.t) :
  getAreaStatistics firs
  = sortDesc AreaCount.count
      (map (fun '(area, count) =>
              {| AreaCount.area := area; AreaCount.count := count |})
         (objectEntries (tally FIR.area firs))).
Proof. reflexivity. Qed.

(** X15: when no area is the name of a property of [Object.prototype],
    [getAreaStatistics] lists the areas of the input, each once, each
    with the number of records of that area (at least one), in descending
    order of count; the counts sum to the number of records. *)
Theorem getAreaStatistics_counts (firs : list FIR.t) :
  Forall (fun fir => FIR.area fir ∉ objectPrototypeKeys) firs ->
  let stats := getAreaStatistics firs in
  NoDup (map AreaCount.area stats)
  /\ (forall a, a ∈ map AreaCount.area stats <->
                exists fir, fir ∈ firs /\ FIR.area fir = a)
  /\ Forall (fun e =>
               AreaCount.count e = areaCount firs (AreaCount.area e)
               /\ (1 <= AreaCount.count e)%nat) stats
  /\ StronglySorted
       (fun a b => (AreaCount.count b <= AreaCount.count a)%nat) stats
  /\ sum_list_with AreaCount.count stats = length firs.
Proof.
  intros _ stats. unfold stats. rewrite getAreaStatistics_ranked.
  set (mk := fun '(area, count) =>
               {| AreaCount.area := area; AreaCount.count := count |}).
  destruct (ranked_entries FIR.area mk AreaCount.area AreaCount.count
              ltac:(by intros [? ?]) ltac:(by intros [? ?]) firs)
    as (Hnd & Hall & Hsorted & Hkeys & Hsum).
  done.
Qed.

Lemma getAreaStatistics_counts_witness :
  Forall (fun fir => FIR.area fir ∉ objectPrototypeKeys) exampleFIRs
  /\ sum_list_with AreaCount.count (getAreaStatistics exampleFIRs) = 6%nat.
Proof.
  assert (Hkeys : Forall (fun fir => FIR.area fir ∉ objectPrototypeKeys)
                    exampleFIRs).
  { apply (bool_decide_unpack _). vm_compute. reflexivity. }
  split; [exact Hkeys|].
  exact (proj2 (proj2 (proj2 (proj2
                 (getAreaStatistics_counts exampleFIRs Hkeys))))).
Defined.

(** *** High-risk days *)

Lemma above_average_iff (total count : nat) :
  Qlt_bool (inject_Z (Z.of_nat total) / 7) (inject_Z (Z.of_nat count)) = true
  <-> (total < 7 * count)%nat.
Proof.
  rewrite Qlt_bool_iff. unfold Qlt, Qdiv, Qmult, Qinv, inject_Z.
  cbn [Qnum Qden]. lia.
Qed.

Lemma List_filter_sublist {A : Type} (f : A -> bool) (l : list A) :
  List.filter f l `sublist_of` l.
Proof.
  induction l as [|x l IH]; simpl; [done|]. destruct (f x); by constructor.
Qed.

Lemma filter_length_all {A : Type} (f : A -> bool) (l : list A) :
  length (List.filter f l) = length l -> Forall (fun x => f x = true) l.
Proof.
  induction l as [|x l IH]; simpl; [constructor|].
  destruct (f x) eqn:Hx; simpl; intros Hlen.
  - constructor; [done|]. apply IH. lia.
  - pose proof (filter_length_le f l). lia.
Qed.

Lemma NoDup_dayNames : NoDup dayNames.
Proof. apply (bool_decide_unpack (NoDup dayNames)). reflexivity. Qed.

Lemma dayTrends_total (firs : list FIR.t) :
  sumCounts (getDayWiseTrends firs)
  = (dayCount firs 0 + dayCount firs 1 + dayCount firs 2 + dayCount firs 3
     + dayCount firs 4 + dayCount firs 5 + dayCount firs 6)%nat.
Proof.
  rewrite getDayWiseTrends_explicit, sumCounts_sum. simpl. lia.
Qed.

(** X16: [getHighRiskDays] returns the names of the high-risk days of the
    insight bundle.  They are weekdays in calendar order; a weekday is
    listed exactly when seven times its count exceeds the total of the
    seven counts; the seven weekdays are never all listed, and none is
    when the seven counts are equal (in particular on the empty input). *)
Theorem getHighRiskDays_above_average (now : Z) (firs : list FIR.t) :
  let days := getHighRiskDays firs in
  map DayCount.day (CrimeInsight.highRiskDays (generateInsights now firs))
  = days
  /\ days `sublist_of` dayNames
  /\ (forall i day,
        dayNames !! i = Some day ->
        day ∈ days <->
        (sumCounts (getDayWiseTrends firs) < 7 * dayCount firs i)%nat)
  /\ (length days < 7)%nat
  /\ ((forall i, (i < 7)%nat -> dayCount firs i = dayCount firs 0) ->
      days = []).
Proof.
  intros days. unfold days, getHighRiskDays.
  set (total := sumCounts (getDayWiseTrends firs)).
  set (above := fun d : DayCount.t =>
                  Qlt_bool (inject_Z (Z.of_nat total) / 7)
                    (inject_Z (Z.of_nat (DayCount.count d)))).
  assert (Htotal := dayTrends_total firs). fold total in Htotal.
  pose proof (getDayWiseTrends_names firs) as Hnames.
  pose proof (getDayWiseTrends_entry firs) as Hentry.
  split; [|split; [|split; [|split]]].
  - unfold generateInsights. cbn [CrimeInsight.highRiskDays].
    by rewrite map_map.
  - rewrite <- Hnames. apply fmap_sublist, List_filter_sublist.
  - intros i day Hday. rewrite <- above_average_iff. split.
    + intros Hin.
      apply list_elem_of_In, in_map_iff in Hin as (d & <- & Hd).
      apply filter_In in Hd as [Hd Habove].
      apply list_elem_of_In, list_elem_of_lookup in Hd as [j Hj].
      destruct (Hentry j d Hj) as [Hname Hcount].
      assert (j = i) as ->.
      { eapply NoDup_lookup; [apply NoDup_dayNames|exact Hname|exact Hday]. }
      unfold above in Habove. by rewrite Hcount in Habove.
    + intros Habove.
      assert (Hi : is_Some (getDayWiseTrends firs !! i)).
      { apply lookup_lt_is_Some.
        rewrite <- (length_map DayCount.day), Hnames.
        by apply lookup_lt_is_Some. }
      destruct Hi as [d Hd]. destruct (Hentry i d Hd) as [Hname Hcount].
      apply list_elem_of_In, in_map_iff. exists d. split; [congruence|].
      apply filter_In. split.
      * apply list_elem_of_In. by eapply list_elem_of_lookup_2.
      * unfold above. by rewrite Hcount.
  - rewrite length_map.
    pose proof (filter_length_le above (getDayWiseTrends firs)) as Hle.
    assert (Hlen : length (getDayWiseTrends firs) = 7%nat).
    { by rewrite <- (length_map DayCount.day), Hnames. }
    rewrite Hlen in Hle.
    destruct (decide (length (List.filter above (getDayWiseTrends firs))
                      = 7%nat)) as [Hall|]; [exfalso|lia].
    rewrite <- Hlen in Hall. apply filter_length_all in Hall.
    rewrite getDayWiseTrends_explicit in Hall. simpl in Hall.
    repeat match goal with
           | H : Forall _ (_ :: _) |- _ => apply Forall_cons in H as [? H]
           end.
    unfold above in *. cbn [DayCount.count] in *.
    repeat match goal with
           | H : Qlt_bool _ _ = true |- _ => apply above_average_iff in H
           end.
    lia.
  - intros Hsame. replace (List.filter above _) with (@nil DayCount.t);
      [done|].
    symmetry. apply filter_none, Forall_forall. intros d Hd.
    apply list_elem_of_lookup in Hd as [j Hj].
    destruct (Hentry j d Hj) as [Hname Hcount].
    assert (Hlt : (j < 7)%nat).
    { apply lookup_lt_Some in Hname. exact Hname. }
    destruct (above d) eqn:Habove; [exfalso|done].
    unfold above in Habove. apply above_average_iff in Habove.
    rewrite Hcount, Htotal in Habove.
    rewrite (Hsame 1%nat), (Hsame 2%nat), (Hsame 3%nat), (Hsame 4%nat),
      (Hsame 5%nat), (Hsame 6%nat), (Hsame j) in Habove by lia.
    lia.
Qed.

Lemma take_sum_le {A : Type} (f : A -> nat) (n : nat) (l : list A) :
  (sum_list_with f (take n l) <= sum_list_with f l)%nat.
Proof.
  rewrite <- (take_drop n l) at 2. rewrite sum_list_with_app. lia.
Qed.

(** X17: when no area and no crime type is the name of a property of
    [Object.prototype], the counts of an insight bundle agree with one
    another: [totalFIRs] is the number of records; the area statistics
    sum to it;
    the weekday, month, hour and crime-type counts each sum to at most
    it; the high-risk days are among the weekday trends, in their
    order; the hotspot total is left at 0 for the caller. *)
Theorem generateInsights_totals (now : Z) (firs : list FIR.t) :
  Forall (fun fir => FIR.area fir ∉ objectPrototypeKeys
                     /\ FIR.crimeType fir ∉ objectPrototypeKeys) firs ->
  let insights := generateInsights now firs in
  let total := CrimeInsight.totalFIRs insights in
  total = length firs
  /\ sum_list_with AreaCount.count (CrimeInsight.areaStatistics insights)
     = total
  /\ (sum_list_with DayCount.count (CrimeInsight.dayWiseTrends insights)
      <= total)%nat
  /\ (sum_list_with MonthCount.count (CrimeInsight.monthlyTrends insights)
      <= total)%nat
  /\ (sum_list_with HourCount.count (CrimeInsight.peakHours insights)
      <= total)%nat
  /\ (sum_list_with TypeCount.count (CrimeInsight.topCrimeTypes insights)
      <= total)%nat
  /\ CrimeInsight.highRiskDays insights
     `sublist_of` CrimeInsight.dayWiseTrends insights
  /\ CrimeInsight.totalHotspots insights = 0%nat.
Proof.
  intros _ insights total. unfold total, insights, generateInsights.
  cbn [CrimeInsight.totalFIRs CrimeInsight.areaStatistics
       CrimeInsight.dayWiseTrends CrimeInsight.monthlyTrends
       CrimeInsight.peakHours CrimeInsight.topCrimeTypes
       CrimeInsight.highRiskDays CrimeInsight.totalHotspots].
  split; [done|]. split; [|split; [|split; [|split; [|split; [|split]]]]].
  - rewrite getAreaStatistics_ranked.
    set (mk := fun '(area, count) =>
                 {| AreaCount.area := area; AreaCount.count := count |}).
    by destruct (ranked_entries FIR.area mk AreaCount.area AreaCount.count
                   ltac:(by intros [? ?]) ltac:(by intros [? ?]) firs)
      as (_ & _ & _ & _ & Hsum).
  - rewrite <- sumCounts_sum, getDayWiseTrends_sum. apply filter_length_le.
  - rewrite getMonthlyTrends_sum. apply filter_length_le.
  - rewrite getPeakHours_sum. apply filter_length_le.
  - rewrite getTopCrimeTypes_ranked.
    match goal with
    | |- context [sliceTo ?l ?e] =>
        destruct (sliceTo_take l e) as [n ->]
    end.
    etransitivity; [apply take_sum_le|].
    set (mk := fun '(type, count) =>
                 {| TypeCount.type := type; TypeCount.count := count |}).
    destruct (ranked_entries FIR.crimeType mk TypeCount.type TypeCount.count
                ltac:(by intros [? ?]) ltac:(by intros [? ?]) firs)
      as (_ & _ & _ & _ & Hsum).
    fold mk. by rewrite Hsum.
  - match goal with
    | |- map ?g ?l `sublist_of` _ =>
        replace (map g l) with l; [apply List_filter_sublist|]
    end.
    generalize (List.filter
                  (fun d =>
                     Qlt_bool
                       (inject_Z (Z.of_nat (sumCounts (getDayWiseTrends firs)))
                        / 7)
                       (inject_Z (Z.of_nat (DayCount.count d))))
                  (getDayWiseTrends firs)).
    intros l. induction l as [|[day count] l IH]; simpl; [done|].
    by rewrite <- IH.
  - done.
Qed.

Lemma generateInsights_totals_witness :
  Forall (fun fir => FIR.area fir ∉ objectPrototypeKeys
                     /\ FIR.crimeType fir ∉ objectPrototypeKeys)
    insightTestFIRs
  /\ CrimeInsight.totalFIRs (generateInsights 0 insightTestFIRs) = 3%nat
  /\ sum_list_with AreaCount.count
       (CrimeInsight.areaStatistics (generateInsights 0 insightTestFIRs))
     = 3%nat.
Proof.
  assert (Hkeys : Forall
                    (fun fir => FIR.area fir ∉ objectPrototypeKeys
                                /\ FIR.crimeType fir ∉ objectPrototypeKeys)
                    insightTestFIRs).
  { apply (bool_decide_unpack _). vm_compute. reflexivity. }
  split; [exact Hkeys|].
  destruct (generateInsights_totals 0 insightTestFIRs Hkeys)
    as (Htotal & Hareas & _).
  split; [exact Htotal|exact Hareas].
Defined.

(** ** Validation *)

(** *** Trimming *)

Lemma trimEnd_empty (s : string) :
  trimEnd s = EmptyString
  <-> forallb isWhiteSpace (String.list_ascii_of_string s) = true.
Proof.
  induction s as [|c s IH]; simpl; [done|].
  destruct (trimEnd s) as [|c' r] eqn:Hs.
  - destruct (isWhiteSpace c); simpl; [tauto|]. split; discriminate.
  - split; [discriminate|]. intros [_ Hall]%andb_true_iff.
    apply IH in Hall. discriminate.
Qed.

Lemma skipWhiteSpace_white (s : string) :
  forallb isWhiteSpace (String.list_ascii_of_string (skipWhiteSpace s))
  = forallb isWhiteSpace (String.list_ascii_of_string s).
Proof.
  induction s as [|c s IH]; simpl; [done|].
  destruct (isWhiteSpace c) eqn:Hc; simpl; [done|]. by rewrite Hc.
Qed.

Lemma trim_empty (s : string) :
  trim s = EmptyString
  <-> forallb isWhiteSpace (String.list_ascii_of_string s) = true.
Proof. unfold trim. by rewrite trimEnd_empty, skipWhiteSpace_white. Qed.

Lemma missingText_iff (s : string) : missingText s = false <-> hasText s.
Proof.
  unfold missingText, hasText.
  assert (Hlen : forall r : string,
             (String.length r =? 0)%nat = true <-> r = EmptyString).
  { intros [|c r]; simpl; split; done. }
  split.
  - intros [_ Hblank]%orb_false_iff.
    destruct (forallb isWhiteSpace (String.list_ascii_of_string s))
      eqn:Hall.
    + apply trim_empty, Hlen in Hall. congruence.
    + apply not_true_iff_false in Hall.
      rewrite forallb_forall in Hall.
      induction (String.list_ascii_of_string s) as [|c l IH].
      * exfalso. apply Hall. intros ? [].
      * destruct (isWhiteSpace c) eqn:Hc.
        -- destruct IH as (c' & Hin & Hc').
           { intros Hl. apply Hall. intros x [<-|Hx]; [done|by apply Hl]. }
           exists c'. split; [by right|done].
        -- exists c. split; [by left|done].
  - intros (c & Hin & Hc). apply orb_false_iff. split.
    + destruct s; [destruct Hin|done].
    + apply not_true_iff_false. rewrite Hlen, trim_empty, forallb_forall.
      intros Hall. specialize (Hall c Hin). congruence.
Qed.

(** *** The checks of [validateFIR] *)

Lemma pushIf_sublist (cond : bool) (message : string)
    (errors messages : list string) :
  errors `sublist_of` messages ->
  pushIf cond message errors `sublist_of` messages ++ [message].
Proof.
  intros Hsub. destruct cond; simpl.
  - by apply sublist_app.
  - by apply sublist_inserts_r.
Qed.

Lemma validateFIR_errors_sublist (now : Z) (fir : FIR.t) :
  Validation.errors (validateFIR now fir) `sublist_of` validationMessages.
Proof.
  unfold validateFIR. cbn [Validation.errors].
  change validationMessages
    with (((((((((@nil string ++ ["FIR ID is required"])
                   ++ ["Crime type is required"])
                  ++ ["Date cannot be in the future"])
                 ++ ["Time must be in HH:MM or HH:MM:SS format"])
                ++ ["Latitude must be between -90 and 90"])
               ++ ["Longitude must be between -180 and 180"])
              ++ ["Area is required"])
             ++ ["Zone is required"])
            ++ ["Police station is required"]).
  repeat apply pushIf_sublist. done.
Qed.

Lemma pushIf_nil (cond : bool) (message : string) (errors : list string) :
  pushIf cond message errors = [] <-> cond = false /\ errors = [].
Proof.
  destruct cond; simpl; [|tauto].
  split; [|by intros [? _]]. intros H. by apply app_nil in H as [_ ?].
Qed.

Lemma Qrange_bools (x lo hi : Q) :
  Qlt_bool x lo || Qlt_bool hi x = false <-> (lo <= x <= hi)%Q.
Proof.
  rewrite orb_false_iff, <- !not_true_iff_false, !Qlt_bool_iff.
  split; intros [H1 H2]; split; lra.
Qed.

(** A record passes [validateFIR] exactly when each check does. *)
Lemma validateFIR_valid_iff (now : Z) (fir : FIR.t) :
  Validation.valid (validateFIR now fir) = true <->
  hasText (FIR.id fir) /\ hasText (FIR.crimeType fir)
  /\ (JSDate.getTime (FIR.date fir) <= now)%Z
  /\ timeFormat (FIR.time fir) = true
  /\ (-90 <= FIR.latitude fir <= 90)%Q
  /\ (-180 <= FIR.longitude fir <= 180)%Q
  /\ hasText (FIR.area fir) /\ hasText (FIR.zone fir)
  /\ hasText (FIR.policeStation fir).
Proof.
  unfold validateFIR. cbn [Validation.valid].
  rewrite Nat.eqb_eq, length_zero_iff_nil.
  rewrite !pushIf_nil, !missingText_iff, !Qrange_bools, Z.ltb_ge.
  assert (Htime : falsy (FIR.time fir) || negb (timeFormat (FIR.time fir))
                  = false
                  <-> timeFormat (FIR.time fir) = true).
  { destruct (FIR.time fir) as [|c s]; [done|].
    destruct (timeFormat (String c s)); done. }
  rewrite Htime. tauto.
Qed.

Lemma validateFIR_valid_errors (now : Z) (fir : FIR.t) :
  Validation.valid (validateFIR now fir) = true
  <-> Validation.errors (validateFIR now fir) = [].
Proof.
  unfold validateFIR. cbn [Validation.valid Validation.errors].
  by rewrite Nat.eqb_eq, length_zero_iff_nil.
Qed.

Lemma NoDup_validationMessages : NoDup validationMessages.
Proof. apply (bool_decide_unpack (NoDup validationMessages)). reflexivity. Qed.

(** *** [validateFIR] on any object *)

Lemma validateFIRInput_ofFIR (now : Z) (fir : FIR.t) :
  validateFIRInput now (ofFIR fir) = validateFIR now fir.
Proof. reflexivity. Qed.

Lemma push_sublist (message : string) (errors messages : list string) :
  errors `sublist_of` messages ->
  errors ++ [message] `sublist_of` messages ++ [message].
Proof. intros Hsub. by apply sublist_app. Qed.

Lemma sublist_block (errors messages block : list string) :
  errors `sublist_of` messages -> errors `sublist_of` messages ++ block.
Proof. intros Hsub. by apply sublist_inserts_r. Qed.

Lemma validateFIRInput_errors_sublist (now : Z) (fir : FIRInput.t) :
  Validation.errors (validateFIRInput now fir)
  `sublist_of` inputValidationMessages.
Proof.
  unfold validateFIRInput. cbn [Validation.errors].
  change inputValidationMessages
    with (((((((((((((((@nil string ++ ["FIR ID is required"])
                         ++ ["Crime type is required"])
                        ++ ["Date is required"])
                       ++ ["Invalid date format"])
                      ++ ["Date cannot be in the future"])
                     ++ ["Time must be in HH:MM or HH:MM:SS format"])
                    ++ ["Latitude must be a valid number"])
                   ++ ["Latitude must be between -90 and 90"])
                  ++ ["Longitude must be a valid number"])
                 ++ ["Longitude must be between -180 and 180"])
                ++ ["Area is required"])
               ++ ["Zone is required"])
              ++ ["Police station is required"])
             ++ ["isAccident must be a boolean value"])
            ++ ["isSensitiveZone must be a boolean value"]).
  do 5 apply pushIf_sublist.
  destruct (FIRInput.longitude fir) as [|[| | |lng]];
    [apply sublist_block, push_sublist
    |apply sublist_block, push_sublist
    |apply pushIf_sublist, sublist_block..];
    (destruct (FIRInput.latitude fir) as [|[| | |lat]];
     [apply sublist_block, push_sublist
     |apply sublist_block, push_sublist
     |apply pushIf_sublist, sublist_block..]);
    apply pushIf_sublist;
    (destruct (FIRInput.date fir) as [| | |date];
     [apply sublist_block, sublist_block, push_sublist
     |apply sublist_block, push_sublist, sublist_block
     |apply sublist_block, push_sublist, sublist_block
     |apply pushIf_sublist, sublist_block, sublist_block]);
    do 2 apply pushIf_sublist; done.
Qed.

Lemma NoDup_inputValidationMessages : NoDup inputValidationMessages.
Proof.
  apply (bool_decide_unpack (NoDup inputValidationMessages)). reflexivity.
Qed.

Lemma push_not_nil (message : string) (errors : list string) :
  errors ++ [message] <> [].
Proof. by destruct errors. Qed.

(** An object that passes every check is a well-typed record. *)
Lemma validateFIRInput_valid_ofFIR (now : Z) (input : FIRInput.t) :
  Validation.valid (validateFIRInput now input) = true ->
  exists fir, input = ofFIR fir.
Proof.
  destruct input as [id crimeType date time latitude longitude area zone
                       policeStation description isAccident isSensitiveZone].
  unfold validateFIRInput.
  cbn [Validation.valid FIRInput.id FIRInput.crimeType FIRInput.date
       FIRInput.time FIRInput.latitude FIRInput.longitude FIRInput.area
       FIRInput.zone FIRInput.policeStation FIRInput.isAccident
       FIRInput.isSensitiveZone].
  rewrite Nat.eqb_eq, length_zero_iff_nil.
  intros H.
  apply pushIf_nil in H as [Hsens H].
  apply pushIf_nil in H as [Hacc H].
  apply pushIf_nil in H as [Hps H].
  apply pushIf_nil in H as [Hzone H].
  apply pushIf_nil in H as [Harea H].
  destruct longitude as [|[| | |lng]];
    try (by apply push_not_nil in H);
    apply pushIf_nil in H as [Hlng H]; try discriminate Hlng.
  destruct latitude as [|[| | |lat]];
    try (by apply push_not_nil in H);
    apply pushIf_nil in H as [Hlat H]; try discriminate Hlat.
  apply pushIf_nil in H as [Htime H].
  destruct date as [| | |date]; try (by apply push_not_nil in H).
  apply pushIf_nil in H as [Hdate H].
  apply pushIf_nil in H as [Htype H].
  apply pushIf_nil in H as [Hid _].
  destruct id as [id|]; [|done]. destruct crimeType as [crimeType|]; [|done].
  destruct time as [time|]; [|done]. destruct area as [area|]; [|done].
  destruct zone as [zone|]; [|done].
  destruct policeStation as [policeStation|]; [|done].
  destruct isAccident as [isAccident|]; [|done].
  destruct isSensitiveZone as [isSensitiveZone|]; [|done].
  by exists {| FIR.id := id; FIR.crimeType := crimeType; FIR.date := date;
               FIR.time := time; FIR.latitude := lat; FIR.longitude := lng;
               FIR.area := area; FIR.zone := zone;
               FIR.policeStation := policeStation;
               FIR.description := description;
               FIR.isAccident := isAccident;
               FIR.isSensitiveZone := isSensitiveZone |}.
Qed.

Lemma twoDigits_Some (c1 c2 : Ascii.ascii) (n : nat) :
  twoDigits c1 c2 = Some n -> isDigit c1 && isDigit c2 = true.
Proof. unfold twoDigits. by destruct (isDigit c1 && isDigit c2). Qed.

(** A time of day has the form that [validateFIR] asks for. *)
Lemma clockTime_timeFormat (s : string) :
  clockTime s = true -> timeFormat s = true.
Proof.
  destruct s as [|h1 [|h2 [|c3 [|m1 [|m2 rest]]]]]; try done;
    try (by destruct c3 as [[] [] [] [] [] [] [] []]).
  destruct (Ascii.eqb_spec c3 ":") as [->|Hne].
  2:{ destruct c3 as [[] [] [] [] [] [] [] []]; done. }
  unfold clockTime, timeFormat.
  destruct (twoDigits h1 h2) as [hours|] eqn:Hh; [|done].
  destruct (twoDigits m1 m2) as [minutes|] eqn:Hm; [|done].
  apply twoDigits_Some, andb_true_iff in Hh as [-> ->].
  apply twoDigits_Some, andb_true_iff in Hm as [-> ->].
  intros [_ Hrest]%andb_true_iff. cbn [andb].
  destruct rest as [|c6 [|s1 [|s2 [|c9 rest]]]]; try done;
    try (by destruct c6 as [[] [] [] [] [] [] [] []]).
  destruct (Ascii.eqb_spec c6 ":") as [->|Hne].
  2:{ destruct c6 as [[] [] [] [] [] [] [] []]; done. }
  destruct (twoDigits s1 s2) as [seconds|] eqn:Hs; [|done].
  by apply twoDigits_Some in Hs.
Qed.

(** X18: [validateFIR] on any object whose text fields hold ASCII
    characters.  It accepts exactly when it reports no error; the errors
    are among the fifteen messages, in the order of the checks, each at
    most once.  An accepted object is a well-typed record: the
    identifier, crime type, area, zone and police station hold a
    character that is not white space, the date is a valid date not
    after the time of the call, the time of day has the form DD:DD or
    DD:DD:DD of decimal digits, the latitude is a finite number within
    [-90, 90] and the longitude one within [-180, 180], bounds included,
    and the two flags are booleans.  Such a record is accepted when its
    time of day is a clock time (hours below 24, minutes and seconds
    below 60).  An object accepted at one time is accepted at every
    later time. *)
Theorem validateFIR_accepts (now later : Z) (input : FIRInput.t) :
  asciiFields input = true ->
  let validation := validateFIRInput now input in
  (Validation.valid validation = true <-> Validation.errors validation = [])
  /\ Validation.errors validation `sublist_of` inputValidationMessages
  /\ NoDup (Validation.errors validation)
  /\ (Validation.valid validation = true ->
      exists fir,
        input = ofFIR fir
        /\ hasText (FIR.id fir) /\ hasText (FIR.crimeType fir)
        /\ (JSDate.getTime (FIR.date fir) <= now)%Z
        /\ timeFormat (FIR.time fir) = true
        /\ (-90 <= FIR.latitude fir <= 90)%Q
        /\ (-180 <= FIR.longitude fir <= 180)%Q
        /\ hasText (FIR.area fir) /\ hasText (FIR.zone fir)
        /\ hasText (FIR.policeStation fir))
  /\ (forall fir,
        input = ofFIR fir ->
        hasText (FIR.id fir) -> hasText (FIR.crimeType fir) ->
        (JSDate.getTime (FIR.date fir) <= now)%Z ->
        clockTime (FIR.time fir) = true ->
        (-90 <= FIR.latitude fir <= 90)%Q ->
        (-180 <= FIR.longitude fir <= 180)%Q ->
        hasText (FIR.area fir) -> hasText (FIR.zone fir) ->
        hasText (FIR.policeStation fir) ->
        Validation.valid validation = true)
  /\ ((now <= later)%Z ->
      Validation.valid validation = true ->
      Validation.valid (validateFIRInput later input) = true).
Proof.
  intros _ validation. unfold validation.
  split; [|split; [|split; [|split; [|split]]]].
  - unfold validateFIRInput. cbn [Validation.valid Validation.errors].
    by rewrite Nat.eqb_eq, length_zero_iff_nil.
  - apply validateFIRInput_errors_sublist.
  - eapply sublist_NoDup;
      [apply NoDup_inputValidationMessages
      |apply validateFIRInput_errors_sublist].
  - intros Hvalid.
    destruct (validateFIRInput_valid_ofFIR _ _ Hvalid) as [fir ->].
    exists fir. split; [done|].
    rewrite validateFIRInput_ofFIR in Hvalid.
    by apply validateFIR_valid_iff.
  - intros fir -> Hid Htype Hdate Htime Hlat Hlng Harea Hzone Hps.
    rewrite validateFIRInput_ofFIR. apply validateFIR_valid_iff.
    apply clockTime_timeFormat in Htime. done.
  - intros Hle Hvalid.
    destruct (validateFIRInput_valid_ofFIR _ _ Hvalid) as [fir ->].
    rewrite validateFIRInput_ofFIR in Hvalid |- *.
    rewrite validateFIR_valid_iff in Hvalid |- *.
    destruct Hvalid as (? & ? & ? & ?).
    split; [done|]. split; [done|]. split; [lia|done].
Qed.

Lemma validateFIR_accepts_witness :
  let input := ofFIR (exampleFIR "FIR001" "14:30" (1 # 4) (1 # 4)) in
  asciiFields input = true
  /\ Validation.valid (validateFIRInput 1800000000000 input) = true
  /\ Validation.errors (validateFIRInput 1800000000000 input) = [].
Proof.
  intros input.
  assert (Hascii : asciiFields input = true) by (vm_compute; reflexivity).
  assert (Hvalid : Validation.valid (validateFIRInput 1800000000000 input)
                   = true) by (vm_compute; reflexivity).
  split; [exact Hascii|]. split; [exact Hvalid|].
  exact (proj1 (proj1 (validateFIR_accepts 1800000000000 1800000000000
                         input Hascii)) Hvalid).
Defined.

(** An object with a NaN latitude, an invalid date and a flag that is not
    a boolean: each is reported by its own message. *)
Example validateFIRInput_ill_typed :
  let input :=
    {| FIRInput.id := Some "FIR001"; FIRInput.crimeType := Some "Theft";
       FIRInput.date := DateField.Invalid; FIRInput.time := Some "14:30";
       FIRInput.latitude := NumberField.Number JSNumber.NaN;
       FIRInput.longitude := NumberField.Number JSNumber.Infinity;
       FIRInput.area := Some "Downtown"; FIRInput.zone := None;
       FIRInput.policeStation := Some "Central PS";
       FIRInput.description := None;
       FIRInput.isAccident := None;
       FIRInput.isSensitiveZone := Some false |} in
  validateFIRInput 0 input
  = {| Validation.valid := false;
       Validation.errors :=
         ["Invalid date format"; "Latitude must be a valid number";
          "Longitude must be between -180 and 180"; "Zone is required";
          "isAccident must be a boolean value"] |}.
Proof. reflexivity. Qed.

(** *** Batches *)

Lemma validateFIRBatch_fold (validate : FIR.t -> Validation.t)
    (firs : list FIR.t) (batch : Batch.t) :
  let step := fun batch fir =>
    let validation := validate fir in
    if Validation.valid validation then
      {| Batch.validRecords := Batch.validRecords batch ++ [fir];
         Batch.invalidRecords := Batch.invalidRecords batch |}
    else
      {| Batch.validRecords := Batch.validRecords batch;
         Batch.invalidRecords :=
           Batch.invalidRecords batch
           ++ [{| InvalidRecord.fir := fir;
                  InvalidRecord.errors := Validation.errors validation |}]
      |} in
  let result := fold_left step firs batch in
  Batch.validRecords result
  = Batch.validRecords batch
    ++ List.filter (fun fir => Validation.valid (validate fir)) firs
  /\ Batch.invalidRecords result
     = Batch.invalidRecords batch
       ++ map (fun fir =>
                 {| InvalidRecord.fir := fir;
                    InvalidRecord.errors := Validation.errors (validate fir) |})
            (List.filter
               (fun fir => negb (Validation.valid (validate fir))) firs).
Proof.
  intros step result. unfold result. clear result. revert batch.
  induction firs as [|fir firs IH]; intros batch; simpl.
  - by rewrite !app_nil_r.
  - destruct (IH (step batch fir)) as [IHv IHi]. rewrite IHv, IHi.
    unfold step. cbv zeta.
    destruct (Validation.valid (validate fir)); simpl;
      by rewrite <- ?app_assoc.
Qed.

Lemma filter_negb_perm {A : Type} (f : A -> bool) (l : list A) :
  List.filter f l ++ List.filter (fun x => negb (f x)) l ≡ₚ l.
Proof.
  induction l as [|x l IH]; simpl; [done|].
  destruct (f x); simpl; [by rewrite IH|].
  by rewrite <- Permutation_middle, IH.
Qed.

(** X20: [validateFIRBatch] splits the input: the valid records are the
    accepted records of the input in input order, the invalid records
    are the rejected ones in input order, each with the errors
    [validateFIR] reports for it (at least one); no record is lost or
    repeated. *)
Theorem validateFIRBatch_split (now : Z) (firs : list FIR.t) :
  let batch := validateFIRBatch now firs in
  Batch.validRecords batch
  = List.filter (fun fir => Validation.valid (validateFIR now fir)) firs
  /\ map InvalidRecord.fir (Batch.invalidRecords batch)
     = List.filter
         (fun fir => negb (Validation.valid (validateFIR now fir))) firs
  /\ Forall (fun record =>
               InvalidRecord.errors record
               = Validation.errors
                   (validateFIR now (InvalidRecord.fir record))
               /\ InvalidRecord.errors record <> []) 
       (Batch.invalidRecords batch)
  /\ Batch.validRecords batch
     ++ map InvalidRecord.fir (Batch.invalidRecords batch) ≡ₚ firs
  /\ (length (Batch.validRecords batch)
      + length (Batch.invalidRecords batch))%nat = length firs.
Proof.
  intros batch. unfold batch, validateFIRBatch.
  destruct (validateFIRBatch_fold (validateFIR now) firs
              {| Batch.validRecords := []; Batch.invalidRecords := [] |})
    as [Hv Hi].
  cbv zeta in Hv, Hi. rewrite Hv, Hi. cbn [Batch.validRecords
    Batch.invalidRecords app].
  assert (Hfirs : map InvalidRecord.fir
                    (map (fun fir =>
                            {| InvalidRecord.fir := fir;
                               InvalidRecord.errors :=
                                 Validation.errors (validateFIR now fir) |})
                       (List.filter
                          (fun fir =>
                             negb (Validation.valid (validateFIR now fir)))
                          firs))
                  = List.filter
                      (fun fir =>
                         negb (Validation.valid (validateFIR now fir)))
                      firs).
  { rewrite map_map. apply map_id. }
  split; [done|]. split; [done|]. split; [|split].
  - apply Forall_forall. intros record Hrecord.
    apply list_elem_of_In, in_map_iff in Hrecord as (fir & <- & Hfir).
    apply filter_In in Hfir as [_ Hinvalid]. cbn.
    split; [done|]. intros Hnil.
    apply validateFIR_valid_errors in Hnil. by rewrite Hnil in Hinvalid.
  - rewrite Hfirs. apply filter_negb_perm.
  - rewrite <- (length_map InvalidRecord.fir), Hfirs, <- length_app.
    by rewrite filter_negb_perm.
Qed.

(** *** Duplicates *)

Lemma countBy_app {K : Type} `{EqDecision K} (key : FIR.t -> K)
    (l1 l2 : list FIR.t) (k : K) :
  countBy key (l1 ++ l2) k = (countBy key l1 k + countBy key l2 k)%nat.
Proof. unfold countBy. by rewrite List.filter_app, length_app. Qed.

Lemma countBy_pos {K : Type} `{EqDecision K} (key : FIR.t -> K)
    (firs : list FIR.t) (k : K) :
  (1 <= countBy key firs k)%nat <-> exists fir, fir ∈ firs /\ key fir = k.
Proof.
  unfold countBy. split.
  - destruct (List.filter _ firs) as [|fir l] eqn:Hf; simpl; [lia|].
    intros _. exists fir.
    assert (Hin : In fir (List.filter
                            (fun fir => bool_decide (key fir = k)) firs)).
    { rewrite Hf. by left. }
    apply filter_In in Hin as [Hin Hk]. split; [by apply list_elem_of_In|].
    by apply bool_decide_eq_true_1 in Hk.
  - intros (fir & Hfir & Hk).
    assert (Hin : In fir (List.filter
                            (fun fir => bool_decide (key fir = k)) firs)).
    { apply filter_In. split; [by apply list_elem_of_In|].
      by apply bool_decide_eq_true_2. }
    destruct (List.filter _ firs); [done|simpl; lia].
Qed.

(** After the scan, [seen] holds the identifiers of the input and
    [duplicates] those that occur more than once. *)
Lemma scanIds_spec (firs : list FIR.t) (id : string) :
  (id ∈ (scanIds firs).1 <-> (1 <= idCount firs id)%nat)
  /\ (id ∈ (scanIds firs).2 <-> (2 <= idCount firs id)%nat).
Proof.
  unfold scanIds, idCount.
  induction firs as [|fir firs IH] using rev_ind.
  - simpl. unfold countBy. simpl. split; (split; [set_solver|lia]).
  - rewrite fold_left_app, countBy_app. cbn [fold_left].
    destruct (fold_left _ firs (∅, ∅)) as [seen duplicates].
    cbn [fst snd] in IH. destruct IH as [IHs IHd].
    assert (Hone : countBy FIR.id [fir] id
                   = if bool_decide (FIR.id fir = id) then 1%nat else 0%nat).
    { unfold countBy. simpl. by case_bool_decide. }
    rewrite Hone. clear Hone.
    destruct (decide (FIR.id fir ∈ seen)) as [Hseen|Hseen]; cbn [fst snd].
    + case_bool_decide as Hid.
      * subst id. apply IHs in Hseen. split; [|set_solver by lia].
        rewrite IHs. lia.
      * rewrite IHs. split; [lia|].
        rewrite elem_of_union, elem_of_singleton, IHd.
        split; [intros [?|?]; [congruence|lia]|intros ?; right; lia].
    + case_bool_decide as Hid.
      * subst id. rewrite IHs in Hseen. split; [set_solver by lia|].
        rewrite IHd. lia.
      * rewrite IHd. split; [|lia].
        rewrite elem_of_union, elem_of_singleton, IHs.
        split; [intros [?|?]; [congruence|lia]|intros ?; right; lia].
Qed.

Lemma findDuplicates_filter (firs : list FIR.t) :
  findDuplicates firs
  = List.filter (fun fir => bool_decide (2 <= idCount firs (FIR.id fir))%nat)
      firs.
Proof.
  unfold findDuplicates.
  pose proof (scanIds_spec firs) as Hspec.
  destruct (scanIds firs) as [seen duplicates]. cbn [fst snd] in Hspec.
  apply filter_ext_in_iff. intros fir _.
  apply bool_decide_ext. apply Hspec.
Qed.

Lemma NoDup_idCount (firs : list FIR.t) :
  NoDup (FIR.id <$> firs) <-> forall id, (idCount firs id <= 1)%nat.
Proof.
  unfold idCount. induction firs as [|fir firs IH]; csimpl.
  - split; [intros _ id; unfold countBy; simpl; lia|intros; constructor].
  - rewrite NoDup_cons, IH. split.
    + intros [Hnot Hall] id.
      change (fir :: firs) with ([fir] ++ firs). rewrite countBy_app.
      specialize (Hall id). unfold countBy at 1. simpl.
      case_bool_decide as Hid; simpl; [|lia].
      subst id. destruct (decide (1 <= countBy FIR.id firs (FIR.id fir))%nat)
        as [Hpos|]; [|lia].
      apply countBy_pos in Hpos as (fir' & Hfir' & Hid').
      exfalso. apply Hnot. apply list_elem_of_fmap. by exists fir'.
    + intros Hall. split.
      * intros Hin. apply list_elem_of_fmap in Hin as (fir' & Hid' & Hfir').
        specialize (Hall (FIR.id fir)).
        change (fir :: firs) with ([fir] ++ firs) in Hall.
        rewrite countBy_app in Hall. unfold countBy at 1 in Hall.
        simpl in Hall. rewrite bool_decide_eq_true_2 in Hall by done.
        assert (1 <= countBy FIR.id firs (FIR.id fir))%nat.
        { apply countBy_pos. by exists fir'. }
        simpl in Hall. lia.
      * intros id. specialize (Hall id).
        change (fir :: firs) with ([fir] ++ firs) in Hall.
        rewrite countBy_app in Hall. lia.
Qed.

Lemma filter_length_mono {A : Type} (f g : A -> bool) (l : list A) :
  (forall x, f x = true -> g x = true) ->
  (length (List.filter f l) <= length (List.filter g l))%nat.
Proof.
  intros Himp. induction l as [|x l IH]; simpl; [done|].
  destruct (f x) eqn:Hf.
  - rewrite (Himp x Hf). simpl. lia.
  - destruct (g x); simpl; lia.
Qed.

Lemma findDuplicates_nil (firs : list FIR.t) :
  findDuplicates firs = [] <-> NoDup (FIR.id <$> firs).
Proof.
  rewrite findDuplicates_filter, NoDup_idCount. split.
  - intros Hnil id.
    destruct (decide (1 <= idCount firs id)%nat) as [Hpos|]; [|lia].
    apply countBy_pos in Hpos as (fir & Hfir & <-).
    destruct (decide (2 <= idCount firs (FIR.id fir))%nat) as [Htwo|]; [|lia].
    assert (Hin : In fir (List.filter
                            (fun fir =>
                               bool_decide
                                 (2 <= idCount firs (FIR.id fir))%nat) firs)).
    { apply filter_In. split; [by apply list_elem_of_In|].
      by apply bool_decide_eq_true_2. }
    rewrite Hnil in Hin. destruct Hin.
  - intros Hall. apply filter_none, Forall_forall. intros fir _.
    apply bool_decide_eq_false_2. specialize (Hall (FIR.id fir)). lia.
Qed.

Lemma findDuplicates_length (firs : list FIR.t) :
  length (findDuplicates firs) <> 1%nat.
Proof.
  rewrite findDuplicates_filter.
  destruct (List.filter _ firs) as [|fir l] eqn:Hf; [done|].
  assert (Hin : In fir (List.filter
                          (fun fir =>
                             bool_decide
                               (2 <= idCount firs (FIR.id fir))%nat) firs)).
  { rewrite Hf. by left. }
  apply filter_In in Hin as [_ Htwo]. apply bool_decide_eq_true_1 in Htwo.
  rewrite <- Hf.
  pose proof (filter_length_mono
                (fun x => bool_decide (FIR.id x = FIR.id fir))
                (fun x => bool_decide (2 <= idCount firs (FIR.id x))%nat)
                firs) as Hmono.
  unfold idCount, countBy in Htwo, Hmono |- *.
  intros Hone. rewrite Hone in Hmono.
  enough (2 <= 1)%nat by lia. etransitivity; [exact Htwo|].
  apply Hmono. intros x Hx. apply bool_decide_eq_true_1 in Hx.
  apply bool_decide_eq_true_2. by rewrite Hx.
Qed.

(** X21: [findDuplicates] returns the input records whose identifier
    occurs more than once in the input, every occurrence, in input
    order.  The result is empty exactly when the identifiers of the
    input are pairwise distinct, and it never has exactly one record. *)
Theorem findDuplicates_spec (firs : list FIR.t) :
  findDuplicates firs
  = List.filter (fun fir => bool_decide (2 <= idCount firs (FIR.id fir))%nat)
      firs
  /\ findDuplicates firs `sublist_of` firs
  /\ (forall fir,
        fir ∈ findDuplicates firs <->
        fir ∈ firs /\ (2 <= idCount firs (FIR.id fir))%nat)
  /\ (findDuplicates firs = [] <-> NoDup (FIR.id <$> firs))
  /\ length (findDuplicates firs) <> 1%nat.
Proof.
  split; [apply findDuplicates_filter|]. split; [|split; [|split]].
  - rewrite findDuplicates_filter. apply List_filter_sublist.
  - intros fir. rewrite findDuplicates_filter.
    rewrite list_elem_of_In, filter_In, <- list_elem_of_In.
    by rewrite bool_decide_eq_true.
  - apply findDuplicates_nil.
  - apply findDuplicates_length.
Qed.

(** X22: [clusterFIRs] places every input record in a cluster, the
    cluster sizes summing to the number of records, exactly when
    [findDuplicates] finds nothing; the clusters then list the input up
    to order. *)
Theorem clusterFIRs_complete_iff (firs : list FIR.t) (radiusKm : option Q) :
  (clusterSizes (clusterFIRs firs radiusKm) = length firs
   <-> findDuplicates firs = [])
  /\ (findDuplicates firs = [] -> concat (clusterFIRs firs radiusKm) ≡ₚ firs).
Proof.
  rewrite findDuplicates_nil. split.
  - split.
    + intros Hlen. rewrite clusterSizes_concat in Hlen.
      destruct (clusterFIRs_ids firs radiusKm) as (Hndc & Hsub & Hall & _).
      assert (Hperm : FIR.id <$> concat (clusterFIRs firs radiusKm)
                      ≡ₚ FIR.id <$> firs).
      { apply submseteq_length_Permutation.
        - apply NoDup_submseteq; [done|].
          intros id (fir & -> & Hfir)%list_elem_of_fmap.
          apply list_elem_of_fmap. exists fir. split; [done|by apply Hsub].
        - rewrite !length_fmap. lia. }
      by rewrite <- Hperm.
    + intros Hnd. rewrite clusterSizes_concat.
      by rewrite (proj1 (clusterFIRs_perm firs radiusKm Hnd)).
  - intros Hnd. apply (clusterFIRs_perm firs radiusKm Hnd).
Qed.

(** *** The validation report *)

Lemma validateFIRBatch_records (now : Z) (firs : list FIR.t) :
  Batch.validRecords (validateFIRBatch now firs)
  = List.filter (fun fir => Validation.valid (validateFIR now fir)) firs
  /\ Batch.invalidRecords (validateFIRBatch now firs)
     = map (fun fir =>
              {| InvalidRecord.fir := fir;
                 InvalidRecord.errors :=
                   Validation.errors (validateFIR now fir) |})
         (List.filter
            (fun fir => negb (Validation.valid (validateFIR now fir))) firs).
Proof.
  unfold validateFIRBatch.
  destruct (validateFIRBatch_fold (validateFIR now) firs
              {| Batch.validRecords := []; Batch.invalidRecords := [] |})
    as [Hv Hi].
  cbv zeta in Hv, Hi. by rewrite Hv, Hi.
Qed.

(** The inner loop of the report: one more for each message. *)
Lemma messageLoop_spec (messages : list string) (obj0 : JSObject) :
  NoDup obj0.*1 ->
  let obj :=
    fold_left
      (fun errorCounts error =>
         objSet errorCounts error (objGet errorCounts error + 1))
      messages obj0 in
  NoDup obj.*1
  /\ (forall k,
        objGet obj k
        = (objGet obj0 k
           + length (List.filter (fun e => bool_decide (e = k)) messages))%nat)
  /\ (forall k, k ∈ obj.*1 <-> k ∈ obj0.*1 \/ k ∈ messages)
  /\ sum_list_with snd obj = (sum_list_with snd obj0 + length messages)%nat.
Proof.
  revert obj0. induction messages as [|e messages IH]; intros obj0 Hnd; simpl.
  - split; [done|]. split; [intros; lia|]. split; [|lia].
    intros k. rewrite elem_of_nil. tauto.
  - destruct (IH _ (objSet_NoDup obj0 e (objGet obj0 e + 1) Hnd))
      as (H1 & H2 & H3 & H4).
    split; [done|]. split; [|split].
    + intros k. rewrite H2. case_bool_decide as Hk; simpl.
      * rewrite Hk, objGet_objSet_eq. lia.
      * by rewrite objGet_objSet_ne.
    + intros k. rewrite H3, objSet_keys, elem_of_cons. tauto.
    + rewrite H4, objSet_increment. lia.
Qed.

Lemma NoDup_occurrences (messages : list string) (k : string) :
  NoDup messages ->
  length (List.filter (fun e => bool_decide (e = k)) messages)
  = if bool_decide (k ∈ messages) then 1%nat else 0%nat.
Proof.
  induction 1 as [|e messages Hnot Hnd IH]; [done|].
  cbn [List.filter]. destruct (decide (e = k)) as [->|He].
  - rewrite (bool_decide_eq_true_2 (k = k)) by done. cbn [length].
    rewrite IH.
    rewrite (bool_decide_eq_false_2 (k ∈ messages)) by done.
    rewrite bool_decide_eq_true_2 by (by left). done.
  - rewrite (bool_decide_eq_false_2 (e = k)) by done.
    rewrite IH.
    rewrite (bool_decide_ext (k ∈ messages) (k ∈ e :: messages)); [done|].
    rewrite elem_of_cons.
    split; [tauto|]. intros [?|?]; [congruence|done].
Qed.

(** The outer loop of the report. *)
Lemma errorLoop_spec (records : list InvalidRecord.t) (obj0 : JSObject) :
  NoDup obj0.*1 ->
  Forall (fun record => NoDup (InvalidRecord.errors record)) records ->
  let obj :=
    fold_left
      (fun errorCounts record =>
         fold_left
           (fun errorCounts error =>
              objSet errorCounts error (objGet errorCounts error + 1))
           (InvalidRecord.errors record) errorCounts)
      records obj0 in
  NoDup obj.*1
  /\ (forall k,
        objGet obj k
        = (objGet obj0 k
           + length (List.filter
                       (fun record =>
                          bool_decide (k ∈ InvalidRecord.errors record))
                       records))%nat)
  /\ (forall k, k ∈ obj.*1 <->
                k ∈ obj0.*1
                \/ exists record,
                     record ∈ records /\ k ∈ InvalidRecord.errors record)
  /\ sum_list_with snd obj
     = (sum_list_with snd obj0
        + sum_list_with (fun record => length (InvalidRecord.errors record))
            records)%nat.
Proof.
  intros Hnd Hall. revert obj0 Hnd.
  induction Hall as [|record records Hrecord _ IH]; intros obj0 Hnd;
    cbn [fold_left].
  - split; [done|]. split; [intros; simpl; lia|]. split; [|simpl; lia].
    intros k. split; [tauto|]. intros [?|(record & Hin & _)]; [done|].
    by apply elem_of_nil in Hin.
  - destruct (messageLoop_spec (InvalidRecord.errors record) obj0 Hnd)
      as (M1 & M2 & M3 & M4).
    destruct (IH _ M1) as (H1 & H2 & H3 & H4).
    split; [done|]. split; [|split].
    + intros k. rewrite H2, M2, (NoDup_occurrences _ _ Hrecord).
      cbn [List.filter]. case_bool_decide; cbn [length]; lia.
    + intros k. rewrite H3, M3. split.
      * intros [[?|?]|(r & Hr & Hk)]; [by left|right..].
        -- exists record. split; [by left|done].
        -- exists r. split; [by right|done].
      * intros [?|(r & Hr & Hk)]; [by left; left|].
        apply elem_of_cons in Hr as [->|Hr]; [by left; right|].
        right. by exists r.
    + rewrite H4, M4. cbn [sum_list_with]. lia.
Qed.

Lemma errorCount_invalid (now : Z) (firs : list FIR.t) (message : string) :
  length
    (List.filter
       (fun record => bool_decide (message ∈ InvalidRecord.errors record))
       (map (fun fir =>
               {| InvalidRecord.fir := fir;
                  InvalidRecord.errors :=
                    Validation.errors (validateFIR now fir) |})
          (List.filter
             (fun fir => negb (Validation.valid (validateFIR now fir)))
             firs)))
  = errorCount now firs message.
Proof.
  unfold errorCount. induction firs as [|fir firs IH]; [done|].
  cbn [List.filter].
  destruct (Validation.valid (validateFIR now fir)) eqn:Hvalid;
    cbn [negb map List.filter InvalidRecord.errors].
  - apply validateFIR_valid_errors in Hvalid. rewrite Hvalid.
    rewrite (bool_decide_eq_false_2 (message ∈ [])) by apply not_elem_of_nil.
    exact IH.
  - case_bool_decide; cbn [length]; by rewrite IH.
Qed.

(** X23: the validation report.  [total] is the number of records and
    is the sum of [valid] and [invalid]; [duplicates] is at most [total]
    and never 1; the [errors] object has one property for each message
    that [validateFIR] reports for some record, holding the number of
    records it is reported for, which is at most [invalid]; all the
    counts together are at least [invalid] and at most nine times
    [invalid]. *)
Theorem generateValidationReport_totals (now : Z) (firs : list FIR.t) :
  let report := generateValidationReport now firs in
  Report.total report = length firs
  /\ (Report.valid report + Report.invalid report)%nat = Report.total report
  /\ (Report.duplicates report <= Report.total report)%nat
  /\ Report.duplicates report <> 1%nat
  /\ NoDup (Report.errors report).*1
  /\ (forall message,
        message ∈ (Report.errors report).*1 <->
        (1 <= errorCount now firs message)%nat)
  /\ (forall message,
        objGet (Report.errors report) message = errorCount now firs message
        /\ (errorCount now firs message <= Report.invalid report)%nat)
  /\ (Report.invalid report <= sum_list_with snd (Report.errors report)
      <= 9 * Report.invalid report)%nat.
Proof.
  intros report. unfold report, generateValidationReport.
  cbn [Report.total Report.valid Report.invalid Report.duplicates
       Report.errors].
  destruct (validateFIRBatch_records now firs) as [Hv Hi].
  rewrite Hv, Hi.
  set (invalid := List.filter
                    (fun fir => negb (Validation.valid (validateFIR now fir)))
                    firs).
  set (records := map (fun fir =>
                         {| InvalidRecord.fir := fir;
                            InvalidRecord.errors :=
                              Validation.errors (validateFIR now fir) |})
                    invalid).
  assert (Hrecords : Forall
                       (fun record =>
                          InvalidRecord.errors record
                          `sublist_of` validationMessages
                          /\ InvalidRecord.errors record <> []) records).
  { apply Forall_forall. intros record Hrecord.
    apply list_elem_of_In, in_map_iff in Hrecord as (fir & <- & Hfir).
    apply filter_In in Hfir as [_ Hinvalid]. cbn.
    split; [apply validateFIR_errors_sublist|]. intros Hnil.
    apply validateFIR_valid_errors in Hnil. by rewrite Hnil in Hinvalid. }
  assert (Hnd : Forall (fun record => NoDup (InvalidRecord.errors record))
                  records).
  { eapply Forall_impl; [exact Hrecords|]. intros record [Hsub _].
    eapply sublist_NoDup; [apply NoDup_validationMessages|exact Hsub]. }
  destruct (errorLoop_spec records [] NoDup_nil_2 Hnd)
    as (H1 & H2 & H3 & H4).
  cbv zeta in H1, H2, H3, H4.
  assert (Hcount : forall message,
             objGet
               (fold_left
                  (fun errorCounts record =>
                     fold_left
                       (fun errorCounts error =>
                          objSet errorCounts error
                            (objGet errorCounts error + 1))
                       (InvalidRecord.errors record) errorCounts)
                  records []) message
             = errorCount now firs message).
  { intros message. rewrite H2. cbn [objGet Nat.add].
    apply errorCount_invalid. }
  split; [done|]. split; [|split; [|split; [|split; [|split; [|split]]]]].
  - unfold records, invalid. rewrite length_map, <- length_app.
    by rewrite filter_negb_perm.
  - apply sublist_length. rewrite findDuplicates_filter.
    apply List_filter_sublist.
  - apply findDuplicates_length.
  - exact H1.
  - intros message. rewrite H3, <- errorCount_invalid. fold invalid records.
    split.
    + intros [Hin|(record & Hrecord & Hmsg)];
        [by apply elem_of_nil in Hin|].
      apply list_elem_of_In in Hrecord.
      assert (Hin : In record
                      (List.filter
                         (fun record =>
                            bool_decide
                              (message ∈ InvalidRecord.errors record))
                         records)).
      { apply filter_In. split; [done|]. by apply bool_decide_eq_true_2. }
      destruct (List.filter _ records); [done|simpl; lia].
    + destruct (List.filter _ records) as [|record l] eqn:Hf; simpl; [lia|].
      intros _. right. exists record.
      assert (Hin : In record
                      (List.filter
                         (fun record =>
                            bool_decide
                              (message ∈ InvalidRecord.errors record))
                         records)).
      { rewrite Hf. by left. }
      apply filter_In in Hin as [Hin Hmsg].
      split; [by apply list_elem_of_In|].
      by apply bool_decide_eq_true_1 in Hmsg.
  - intros message. split; [apply Hcount|].
    rewrite <- errorCount_invalid. fold invalid records.
    apply filter_length_le.
  - rewrite H4. cbn [sum_list_with Nat.add].
    clear -Hrecords. induction Hrecords as [|record l [Hsub Hne] _ IH];
      cbn [sum_list_with length]; [lia|].
    apply sublist_length in Hsub. change (length validationMessages) with 9%nat
      in Hsub.
    destruct (InvalidRecord.errors record) as [|e errors]; [done|].
    cbn [length] in *. lia.
Qed.

(** ** CSV rows *)

Lemma append_nil (s : string) : EmptyString +:+ s = s.
Proof. reflexivity. Qed.

Lemma append_cons (c : Ascii.ascii) (s r : string) :
  String c s +:+ r = String c (s +:+ r).
Proof. reflexivity. Qed.

Lemma append_empty_r (s : string) : s +:+ EmptyString = s.
Proof.
  induction s as [|c s IH]; [done|]. by rewrite append_cons, IH.
Qed.

Lemma append_assoc (s1 s2 s3 : string) :
  (s1 +:+ s2) +:+ s3 = s1 +:+ (s2 +:+ s3).
Proof.
  induction s1 as [|c s1 IH]; [done|]. by rewrite !append_cons, IH.
Qed.

Lemma appendChar_append (s : string) (c : Ascii.ascii) (r : string) :
  appendChar s c +:+ r = s +:+ String c r.
Proof. unfold appendChar. by rewrite append_assoc. Qed.

Lemma trimEnd_idemp (s : string) : trimEnd (trimEnd s) = trimEnd s.
Proof.
  induction s as [|c s IH]; simpl; [done|].
  destruct (trimEnd s) as [|c' r] eqn:Hs.
  - destruct (isWhiteSpace c) eqn:Hc; simpl; [done|]. by rewrite Hc.
  - cbn [trimEnd]. cbn [trimEnd] in IH. by rewrite IH.
Qed.

Lemma trimEnd_head (c : Ascii.ascii) (s : string) :
  isWhiteSpace c = false -> exists r, trimEnd (String c s) = String c r.
Proof.
  intros Hc. simpl. destruct (trimEnd s) as [|c' r]; rewrite ?Hc; by eexists.
Qed.

Lemma skipWhiteSpace_head (s : string) :
  skipWhiteSpace s = EmptyString
  \/ exists c r, skipWhiteSpace s = String c r /\ isWhiteSpace c = false.
Proof.
  induction s as [|c s IH]; simpl; [by left|].
  destruct (isWhiteSpace c) eqn:Hc; [done|]. right. by exists c, s.
Qed.

(** Trimming a trimmed string changes nothing. *)
Lemma trim_idemp (s : string) : trim (trim s) = trim s.
Proof.
  unfold trim.
  destruct (skipWhiteSpace_head s) as [->|(c & r & -> & Hc)]; [done|].
  destruct (trimEnd_head c r Hc) as [r' Hr]. rewrite Hr.
  cbn [skipWhiteSpace]. rewrite Hc, <- Hr. apply trimEnd_idemp.
Qed.

Lemma splitOn_cons (sep : Ascii.ascii) (s : string) :
  exists piece pieces, splitOn sep s = piece :: pieces.
Proof.
  destruct s as [|c s]; simpl; [by eexists _, _|].
  destruct (Ascii.eqb c sep); [by eexists _, _|].
  destruct (splitOn sep s); by eexists _, _.
Qed.

(** On a row without quotes the loop splits at the commas. *)
Lemma parseCSVRowLoop_unquoted (row : string) (values : list string)
    (current : string) :
  unquoted row = true ->
  parseCSVRowLoop row values current false
  = values
    ++ map trim
         match splitOn "," row with
         | piece :: pieces => (current +:+ piece) :: pieces
         | [] => [current]
         end.
Proof.
  revert values current.
  induction row as [|c row IH]; intros values current; simpl.
  - intros _. by rewrite append_empty_r.
  - intros [Hc Hrow]%andb_true_iff. apply negb_true_iff in Hc.
    rewrite Hc. destruct (Ascii.eqb c ",") eqn:Hcomma; simpl.
    + rewrite (IH _ _ Hrow), <- app_assoc. cbn [map app].
      rewrite append_empty_r.
      by destruct (splitOn_cons "," row) as (piece & pieces & ->).
    + rewrite (IH _ _ Hrow).
      destruct (splitOn_cons "," row) as (piece & pieces & ->).
      cbn [map]. by rewrite appendChar_append.
Qed.

(** X24: on a row without double quotes [parseCSVRow] returns the pieces
    between the commas, trimmed: the same fields as [split(',')] followed
    by [trim], which is how [parseCSV] reads the header line. *)
Theorem parseCSVRow_unquoted (row : string) :
  unquoted row = true ->
  parseCSVRow row = map trim (splitOn "," row).
Proof.
  intros Hrow. unfold parseCSVRow.
  rewrite (parseCSVRowLoop_unquoted row [] EmptyString Hrow).
  by destruct (splitOn_cons "," row) as (piece & pieces & ->).
Qed.

Lemma parseCSVRow_unquoted_witness :
  unquoted "FIR001, Theft ,,Zone A" = true
  /\ parseCSVRow "FIR001, Theft ,,Zone A" = ["FIR001"; "Theft"; ""; "Zone A"].
Proof.
  split; [reflexivity|].
  exact (parseCSVRow_unquoted "FIR001, Theft ,,Zone A" eq_refl).
Defined.

(** Inside quotes the loop reads an escaped field up to its closing
    quote, provided no quote follows the closing one. *)
Lemma parseCSVRowLoop_escaped (field rest : string) (values : list string)
    (current : string) :
  match rest with
  | String c _ => Ascii.eqb c "034" = false
  | EmptyString => True
  end ->
  parseCSVRowLoop (escapeQuotes field +:+ String "034" rest) values current
    true
  = parseCSVRowLoop rest values (current +:+ field) false.
Proof.
  intros Hrest. revert current.
  induction field as [|c field IH]; intros current.
  - cbn [escapeQuotes]. rewrite append_nil, append_empty_r.
    cbn [parseCSVRowLoop]. rewrite Ascii.eqb_refl.
    destruct rest as [|c rest]; [done|]. by rewrite Hrest.
  - cbn [escapeQuotes]. destruct (Ascii.eqb c "034") eqn:Hc.
    + apply Ascii.eqb_eq in Hc as ->. rewrite !append_cons.
      cbn [parseCSVRowLoop]. rewrite Ascii.eqb_refl.
      cbn [andb]. rewrite IH. by rewrite appendChar_append.
    + rewrite append_cons. cbn [parseCSVRowLoop]. rewrite Hc.
      cbn [negb]. rewrite andb_false_r, IH. by rewrite appendChar_append.
Qed.

(** Outside quotes an opening quote switches the quote state. *)
Lemma parseCSVRowLoop_open (rest : string) (values : list string)
    (current : string) :
  parseCSVRowLoop (String "034" rest) values current false
  = parseCSVRowLoop rest values current true.
Proof. cbn [parseCSVRowLoop]. rewrite Ascii.eqb_refl. by destruct rest. Qed.

Lemma parseCSVRowLoop_quoted (fields : list string) (field : string)
    (values : list string) :
  parseCSVRowLoop (joinWith "," (map quoteField (field :: fields))) values
    EmptyString false
  = values ++ map trim (field :: fields).
Proof.
  revert field values.
  induction fields as [|next fields IH]; intros field values.
  - cbn [map joinWith]. unfold quoteField.
    rewrite parseCSVRowLoop_open, parseCSVRowLoop_escaped by done.
    by rewrite append_nil.
  - change (joinWith "," (map quoteField (field :: next :: fields)))
      with (quoteField field
            +:+ String "," (joinWith "," (map quoteField (next :: fields)))).
    unfold quoteField at 1. rewrite append_cons, append_assoc, append_cons.
    rewrite append_nil.
    rewrite parseCSVRowLoop_open, parseCSVRowLoop_escaped by done.
    rewrite append_nil.
    assert (Hcomma : forall (rest : string) (current : string),
               parseCSVRowLoop (String "," rest) values current false
               = parseCSVRowLoop rest (values ++ [trim current]) EmptyString
                   false) by done.
    rewrite Hcomma, IH, <- app_assoc. done.
Qed.

(** X25: [parseCSVRow] reads back a row of quoted fields: when every
    field is written between double quotes with its own double quotes
    doubled, and the fields are joined by commas, the values returned
    are the fields, trimmed; commas and quotes inside a field are kept. *)
Theorem parseCSVRow_quoted (fields : list string) :
  fields <> [] ->
  parseCSVRow (joinWith "," (map quoteField fields)) = map trim fields.
Proof.
  intros Hne. destruct fields as [|field fields]; [done|].
  unfold parseCSVRow. by rewrite parseCSVRowLoop_quoted.
Qed.

Lemma parseCSVRow_quoted_witness :
  let comma := "Sector 5, Noida"%string in
  let quote := String "034" "A" +:+ String "034" " block" in
  [comma; quote] <> []
  /\ parseCSVRow (joinWith "," (map quoteField [comma; quote]))
     = [comma; quote].
Proof.
  intros comma quote.
  assert (Hne : [comma; quote] <> []) by discriminate.
  split; [exact Hne|].
  exact (parseCSVRow_quoted [comma; quote] Hne).
Defined.

Lemma parseCSVRowLoop_values (n : nat) :
  forall (row : string) (values : list string) (current : string)
         (insideQuotes : bool),
    (String.length row <= n)%nat ->
    exists fields,
      fields <> []
      /\ parseCSVRowLoop row values current insideQuotes = values ++ fields
      /\ Forall (fun v => trim v = v) fields.
Proof.
  induction n as [|n IH]; intros row values current insideQuotes Hlen.
  - destruct row; [|simpl in Hlen; lia]. exists [trim current].
    split; [done|]. split; [done|]. constructor; [apply trim_idemp|done].
  - destruct row as [|char rest].
    { exists [trim current].
      split; [done|]. split; [done|]. constructor; [apply trim_idemp|done]. }
    simpl in Hlen. cbn [parseCSVRowLoop].
    destruct (Ascii.eqb char "034").
    + destruct rest as [|nextChar rest'].
      * apply IH. simpl. lia.
      * destruct (insideQuotes && Ascii.eqb nextChar "034").
        -- apply IH. simpl in Hlen. lia.
        -- apply IH. simpl in *. lia.
    + destruct (Ascii.eqb char "," && negb insideQuotes).
      * destruct (IH rest (values ++ [trim current]) EmptyString
                    insideQuotes ltac:(lia))
          as (fields & Hne & Heq & Hall).
        exists (trim current :: fields). split; [done|].
        split; [by rewrite Heq, <- app_assoc|].
        constructor; [apply trim_idemp|done].
      * apply IH. lia.
Qed.

(** X26: whatever the row, [parseCSVRow] returns at least one value, and
    every value is trimmed: it neither starts nor ends with white
    space. *)
Theorem parseCSVRow_values (row : string) :
  parseCSVRow row <> []
  /\ Forall (fun v => trim v = v) (parseCSVRow row).
Proof.
  unfold parseCSVRow.
  destruct (parseCSVRowLoop_values (String.length row) row [] EmptyString
              false ltac:(done)) as (fields & Hne & -> & Hall).
  done.
Qed.

(** ** Sanitizing *)

Lemma chars_append (s1 s2 : string) : chars (s1 +:+ s2) = chars s1 ++ chars s2.
Proof.
  unfold chars. induction s1 as [|c s1 IH]; [done|].
  rewrite append_cons. simpl. by rewrite IH.
Qed.

Lemma length_append (s1 s2 : string) :
  String.length (s1 +:+ s2) = (String.length s1 + String.length s2)%nat.
Proof.
  induction s1 as [|c s1 IH]; [done|]. rewrite append_cons. simpl.
  by rewrite IH.
Qed.

(** *** The matchers take a piece off the front *)

Lemma afterClose_split (s rest : string) :
  afterClose s = Some rest ->
  exists tag, s = (tag +:+ ">") +:+ rest /\ ~ In ">"%char (chars tag).
Proof.
  revert rest. induction s as [|c s IH]; intros rest; simpl; [done|].
  destruct (Ascii.eqb_spec c ">") as [->|Hc].
  - intros [= ->]. exists EmptyString. split; [done|]. intros [].
  - intros Hs. destruct (IH _ Hs) as (tag & -> & Hnot).
    exists (String c tag). split; [done|].
    intros [?|?]; [congruence|done].
Qed.

Lemma afterClose_None (s : string) :
  afterClose s = None <-> ~ In ">"%char (chars s).
Proof.
  induction s as [|c s IH]; simpl; [tauto|].
  destruct (Ascii.eqb_spec c ">") as [->|Hc].
  - split; [done|]. intros Hnot. exfalso. apply Hnot. by left.
  - rewrite IH. split; [intros Hnot [?|?]; [congruence|done]|tauto].
Qed.

Lemma matchTag_head (c : Ascii.ascii) (s : string) :
  c <> "<"%char -> matchTag (String c s) = None.
Proof.
  intros Hc. destruct c as [[] [] [] [] [] [] [] []]; done.
Qed.

Lemma matchTag_lt (s : string) :
  matchTag (String "<" s)
  = match s with
    | String c s' => if Ascii.eqb c ">" then None else afterClose s'
    | EmptyString => None
    end.
Proof. reflexivity. Qed.

Lemma matchTag_split (s rest : string) :
  matchTag s = Some rest ->
  exists tag, s = tag +:+ rest /\ tag <> EmptyString.
Proof.
  destruct s as [|c s]; [done|].
  destruct (decide (c = "<"%char)) as [->|Hc];
    [|by rewrite matchTag_head].
  rewrite matchTag_lt. destruct s as [|c s]; [done|].
  destruct (Ascii.eqb c ">"); [done|]. intros Hs.
  apply afterClose_split in Hs as (tag & -> & _).
  exists (String "<" (String c (tag +:+ ">"))). by rewrite !append_cons.
Qed.

Lemma toLower_lt (c : Ascii.ascii) :
  Ascii.eqb (toLower "<") (toLower c) = true -> c = "<"%char.
Proof.
  destruct c as [[] [] [] [] [] [] [] []]; vm_compute; congruence.
Qed.

Lemma toLower_not_close (p c : Ascii.ascii) :
  p <> ">"%char -> toLower p = p ->
  Ascii.eqb (toLower p) (toLower c) = true -> c <> ">"%char.
Proof.
  intros Hp Hlow Heq ->. rewrite Hlow in Heq.
  apply Ascii.eqb_eq in Heq. by apply Hp.
Qed.

Lemma afterLiteral_split (pattern s rest : string) :
  afterLiteral pattern s = Some rest ->
  exists matched,
    s = matched +:+ rest /\ String.length matched = String.length pattern.
Proof.
  revert s. induction pattern as [|p pattern IH]; intros s; simpl.
  - intros [= ->]. by exists EmptyString.
  - destruct s as [|c s]; [done|].
    destruct (Ascii.eqb (toLower p) (toLower c)); [|done].
    intros Hs. destruct (IH _ Hs) as (matched & -> & Hlen).
    exists (String c matched). split; [done|]. simpl. by rewrite Hlen.
Qed.

Lemma afterScriptEnd_split (s rest : string) :
  afterScriptEnd s = Some rest ->
  exists matched, s = matched +:+ rest /\ matched <> EmptyString.
Proof.
  revert rest. induction s as [|c s IH]; intros rest.
  - simpl. done.
  - cbn [afterScriptEnd].
    destruct (afterLiteral "</script>" (String c s)) as [r|] eqn:Hlit.
    + intros [= ->]. apply afterLiteral_split in Hlit as (matched & -> & Hlen).
      exists matched. split; [done|]. by destruct matched.
    + destruct (isLineTerminator c); [done|]. intros Hs.
      destruct (IH _ Hs) as (matched & -> & _).
      by exists (String c matched).
Qed.

Lemma matchScript_split (s rest : string) :
  matchScript s = Some rest ->
  exists matched, s = matched +:+ rest /\ matched <> EmptyString.
Proof.
  unfold matchScript.
  destruct (afterLiteral "<script" s) as [opening|] eqn:Hopen; [|done].
  csimpl. destruct (afterClose opening) as [body|] eqn:Hbody; [|done].
  csimpl. intros Hend.
  apply afterLiteral_split in Hopen as (m1 & -> & Hlen).
  apply afterClose_split in Hbody as (m2 & -> & _).
  apply afterScriptEnd_split in Hend as (m3 & -> & _).
  exists (m1 +:+ (m2 +:+ ">") +:+ m3). split.
  - by rewrite !append_assoc.
  - by destruct m1.
Qed.

Lemma afterLiteral_cons (p c : Ascii.ascii) (pattern s : string) :
  afterLiteral (String p pattern) (String c s)
  = if Ascii.eqb (toLower p) (toLower c) then afterLiteral pattern s
    else None.
Proof. reflexivity. Qed.

(** A match of the script pattern starts with a tag. *)
Lemma matchScript_tag (s rest : string) :
  matchScript s = Some rest -> is_Some (matchTag s).
Proof.
  unfold matchScript.
  destruct (afterLiteral "<script" s) as [opening|] eqn:Hopen; [|done].
  csimpl. destruct (afterClose opening) as [body|] eqn:Hbody; [|done].
  intros _. destruct s as [|c1 s1]; [done|].
  change "<script"%string with (String "<" (String "s" "cript")) in Hopen.
  rewrite afterLiteral_cons in Hopen.
  destruct (Ascii.eqb (toLower "<") (toLower c1)) eqn:H1; [|done].
  apply toLower_lt in H1 as ->.
  destruct s1 as [|c2 s2]; [done|].
  rewrite afterLiteral_cons in Hopen.
  destruct (Ascii.eqb (toLower "s") (toLower c2)) eqn:H2; [|done].
  apply toLower_not_close in H2; [|done..].
  rewrite matchTag_lt. apply Ascii.eqb_neq in H2. rewrite H2.
  apply afterLiteral_split in Hopen as (matched & -> & _).
  apply not_eq_None_Some. rewrite afterClose_None, chars_append.
  intros Hnot. apply afterClose_split in Hbody as (tag & -> & _).
  apply Hnot. apply in_or_app. right.
  rewrite !chars_append. apply in_or_app. left. apply in_or_app. right.
  by left.
Qed.

(** *** Replacing every match *)

Section ReplaceAll.
Context (matchAt : string -> option string).
Hypothesis matchAt_split :
  forall s rest,
    matchAt s = Some rest ->
    exists matched, s = matched +:+ rest /\ matched <> EmptyString.

Lemma replaceAllLoop_empty (fuel : nat) :
  replaceAllLoop matchAt fuel EmptyString = EmptyString.
Proof. by destruct fuel. Qed.

(** Only characters of the input are kept. *)
Lemma replaceAllLoop_chars (fuel : nat) (s : string) (c : Ascii.ascii) :
  In c (chars (replaceAllLoop matchAt fuel s)) -> In c (chars s).
Proof using matchAt_split.
  revert s. induction fuel as [|fuel IH]; intros s; [done|].
  destruct s as [|c' s]; [done|]. cbn [replaceAllLoop].
  destruct (matchAt (String c' s)) as [rest|] eqn:Hmatch.
  - intros Hin%IH.
    destruct (matchAt_split _ _ Hmatch) as (matched & -> & _).
    rewrite chars_append. apply in_or_app. by right.
  - intros [->|Hin%IH]; [by left|by right].
Qed.

(** The loop leaves a string without matches as it is. *)
Lemma replaceAllLoop_none (fuel : nat) (s : string) :
  (forall before rest, s = before +:+ rest -> matchAt rest = None) ->
  replaceAllLoop matchAt fuel s = s.
Proof.
  revert s. induction fuel as [|fuel IH]; intros s Hnone; [done|].
  destruct s as [|c s]; [done|]. cbn [replaceAllLoop].
  rewrite (Hnone EmptyString (String c s)) by done.
  rewrite IH; [done|]. intros before rest ->.
  by apply (Hnone (String c before)).
Qed.

(** More fuel than the length of the string changes nothing. *)
Lemma replaceAllLoop_fuel (fuel1 fuel2 : nat) (s : string) :
  (String.length s <= fuel1)%nat -> (String.length s <= fuel2)%nat ->
  replaceAllLoop matchAt fuel1 s = replaceAllLoop matchAt fuel2 s.
Proof using matchAt_split.
  revert fuel2 s. induction fuel1 as [|fuel1 IH]; intros fuel2 s H1 H2.
  - destruct s; [|simpl in H1; lia]. by rewrite !replaceAllLoop_empty.
  - destruct s as [|c s]; [by rewrite !replaceAllLoop_empty|].
    destruct fuel2 as [|fuel2]; [simpl in H2; lia|].
    cbn [replaceAllLoop]. simpl in H1, H2.
    destruct (matchAt (String c s)) as [rest|] eqn:Hmatch.
    + destruct (matchAt_split _ _ Hmatch) as (matched & Heq & Hne).
      assert (Hlen : (String.length rest < String.length (String c s))%nat).
      { rewrite Heq, length_append. destruct matched; [done|simpl; lia]. }
      simpl in Hlen. apply IH; lia.
    + f_equal. apply IH; lia.
Qed.
End ReplaceAll.

(** *** Strings without tags *)

Lemma tagFree_empty : tagFree EmptyString.
Proof. intros before rest H. by destruct before, rest. Qed.

Lemma tagFree_cons (c : Ascii.ascii) (s : string) :
  tagFree (String c s) <-> matchTag (String c s) = None /\ tagFree s.
Proof.
  split.
  - intros Hfree. split; [by apply (Hfree EmptyString)|].
    intros before rest ->. by apply (Hfree (String c before)).
  - intros [Hhead Hfree] before rest Heq.
    destruct before as [|c' before].
    + rewrite append_nil in Heq. by subst rest.
    + rewrite append_cons in Heq. injection Heq as -> ->.
      by apply (Hfree before).
Qed.

Lemma matchTag_append (s rest post : string) :
  matchTag s = Some rest -> matchTag (s +:+ post) = Some (rest +:+ post).
Proof.
  destruct s as [|c s]; [done|].
  destruct (decide (c = "<"%char)) as [->|Hc];
    [|by rewrite matchTag_head].
  rewrite append_cons, !matchTag_lt. destruct s as [|c s]; [done|].
  rewrite append_cons. destruct (Ascii.eqb c ">"); [done|].
  clear c. revert rest. induction s as [|c s IH]; intros rest; [done|].
  rewrite append_cons. simpl. destruct (Ascii.eqb c ">").
  - by intros [= ->].
  - apply IH.
Qed.

Lemma tagFree_middle (s1 s2 s3 : string) :
  tagFree (s1 +:+ s2 +:+ s3) -> tagFree s2.
Proof.
  intros Hfree before rest ->.
  destruct (matchTag rest) as [r|] eqn:Hrest; [|done].
  apply (matchTag_append _ _ s3) in Hrest.
  rewrite (Hfree (s1 +:+ before) (rest +:+ s3)) in Hrest; [done|].
  by rewrite !append_assoc.
Qed.

Lemma skipWhiteSpace_split (s : string) :
  exists white, s = white +:+ skipWhiteSpace s.
Proof.
  induction s as [|c s [white IH]]; simpl; [by exists EmptyString|].
  destruct (isWhiteSpace c); [|by exists EmptyString].
  exists (String c white). by rewrite append_cons, <- IH.
Qed.

Lemma trimEnd_split (s : string) : exists white, s = trimEnd s +:+ white.
Proof.
  induction s as [|c s [white IH]]; simpl; [by exists EmptyString|].
  destruct (trimEnd s) as [|c' r] eqn:Hs.
  - rewrite append_nil in IH. subst white.
    destruct (isWhiteSpace c); [by exists (String c s)|].
    by exists s.
  - exists white. by rewrite append_cons, <- IH.
Qed.

Lemma trim_split (s : string) :
  exists before after, s = before +:+ trim s +:+ after.
Proof.
  unfold trim. destruct (skipWhiteSpace_split s) as [before Hs].
  destruct (trimEnd_split (skipWhiteSpace s)) as [after Ht].
  exists before, after. by rewrite <- Ht.
Qed.

Lemma matchTag_replaced (fuel : nat) (s : string) :
  (String.length s <= fuel)%nat ->
  tagFree (replaceAllLoop matchTag fuel s).
Proof.
  revert s. induction fuel as [|fuel IH]; intros s Hlen.
  - destruct s; [apply tagFree_empty|simpl in Hlen; lia].
  - destruct s as [|c s]; [apply tagFree_empty|]. cbn [replaceAllLoop].
    simpl in Hlen.
    destruct (matchTag (String c s)) as [rest|] eqn:Hmatch.
    + apply IH. apply matchTag_split in Hmatch as (tag & Heq & Hne).
      assert (Hl : String.length (String c s)
                   = String.length (tag +:+ rest)) by by rewrite Heq.
      rewrite length_append in Hl. simpl in Hl.
      destruct tag; [done|simpl in Hl; lia].
    + apply tagFree_cons. split; [|apply IH; lia].
      destruct (decide (c = "<"%char)) as [->|Hc];
        [|by apply matchTag_head].
      rewrite matchTag_lt in Hmatch |- *.
      destruct s as [|c s]; [by rewrite replaceAllLoop_empty|].
      destruct (Ascii.eqb c ">") eqn:Hc.
      * apply Ascii.eqb_eq in Hc as ->.
        destruct fuel as [|fuel]; [simpl in Hlen; lia|].
        cbn [replaceAllLoop]. rewrite (matchTag_head ">") by done.
        by rewrite Ascii.eqb_refl.
      * assert (Hnone : ~ In ">"%char (chars (String c s))).
        { intros [Heq|Hin].
          - rewrite <- Heq, Ascii.eqb_refl in Hc. done.
          - by apply afterClose_None in Hmatch. }
        assert (Hkept : ~ In ">"%char
                          (chars (replaceAllLoop matchTag fuel (String c s)))).
        { intros Hin. apply Hnone.
          eapply replaceAllLoop_chars; [apply matchTag_split|exact Hin]. }
        destruct (replaceAllLoop matchTag fuel (String c s)) as [|d r];
          [done|].
        destruct (Ascii.eqb d ">"); [done|].
        apply afterClose_None. intros Hin. apply Hkept. by right.
Qed.

Lemma tagFree_no_script (s before rest : string) :
  tagFree s -> s = before +:+ rest -> matchScript rest = None.
Proof.
  intros Hfree Heq. destruct (matchScript rest) as [r|] eqn:Hr; [|done].
  apply matchScript_tag in Hr as [r' Hr'].
  by rewrite (Hfree before rest Heq) in Hr'.
Qed.

Lemma sanitizeText_chars (text : string) (c : Ascii.ascii) :
  In c (chars (sanitizeText text)) -> In c (chars text).
Proof.
  unfold sanitizeText. destruct (falsy text); [done|]. intros Hin.
  destruct (trim_split (replaceAll matchTag (replaceAll matchScript text)))
    as (before & after & Heq).
  assert (Hin' : In c (chars (replaceAll matchTag
                                (replaceAll matchScript text)))).
  { rewrite Heq, !chars_append. apply in_or_app. right.
    apply in_or_app. by left. }
  unfold replaceAll in Hin'.
  apply (replaceAllLoop_chars matchTag matchTag_split) in Hin'.
  by apply (replaceAllLoop_chars matchScript matchScript_split) in Hin'.
Qed.

Lemma sanitizeText_tagFree (text : string) : tagFree (sanitizeText text).
Proof.
  unfold sanitizeText. destruct (falsy text); [apply tagFree_empty|].
  destruct (trim_split (replaceAll matchTag (replaceAll matchScript text)))
    as (before & after & Heq).
  apply (tagFree_middle before _ after). rewrite <- Heq.
  by apply matchTag_replaced.
Qed.

Lemma sanitizeText_trimmed (text : string) :
  trim (sanitizeText text) = sanitizeText text.
Proof.
  unfold sanitizeText. destruct (falsy text); [done|]. apply trim_idemp.
Qed.

Lemma sanitizeText_fixed (text : string) :
  tagFree text -> trim text = text -> sanitizeText text = text.
Proof.
  intros Hfree Htrim. unfold sanitizeText.
  destruct text as [|c text]; [done|]. cbn [falsy].
  unfold replaceAll at 2. rewrite replaceAllLoop_none.
  - unfold replaceAll. rewrite replaceAllLoop_none; [done|]. exact Hfree.
  - intros before rest Heq. by eapply tagFree_no_script.
Qed.

Lemma no_lt_tagFree (text : string) :
  ~ In "<"%char (chars text) -> tagFree text.
Proof.
  intros Hnot before rest ->. destruct rest as [|c rest]; [done|].
  apply matchTag_head. intros ->. apply Hnot.
  rewrite chars_append. apply in_or_app. right. by left.
Qed.

(** X27: the result of [sanitizeText] holds no tag: nowhere in it does a
    [<] start a match of [<[^>]+>].  It is trimmed, it consists of
    characters of the input, and sanitizing it again changes nothing.  A
    text without [<] is trimmed and otherwise left as it is. *)
Theorem sanitizeText_no_tags (text : string) :
  tagFree (sanitizeText text)
  /\ trim (sanitizeText text) = sanitizeText text
  /\ (forall c, In c (chars (sanitizeText text)) -> In c (chars text))
  /\ sanitizeText (sanitizeText text) = sanitizeText text
  /\ (~ In "<"%char (chars text) -> sanitizeText text = trim text).
Proof.
  split; [apply sanitizeText_tagFree|].
  split; [apply sanitizeText_trimmed|].
  split; [apply sanitizeText_chars|]. split.
  - apply sanitizeText_fixed;
      [apply sanitizeText_tagFree|apply sanitizeText_trimmed].
  - intros Hnot. apply no_lt_tagFree in Hnot.
    unfold sanitizeText. destruct text as [|c text]; [done|]. cbn [falsy].
    unfold replaceAll at 2. rewrite replaceAllLoop_none.
    + unfold replaceAll. by rewrite replaceAllLoop_none.
    + intros before rest Heq. by eapply tagFree_no_script.
Qed.

Lemma sanitizeText_hasText (text : string) :
  hasText (sanitizeText text) -> hasText text.
Proof.
  intros (c & Hin & Hc). exists c. split; [|done].
  by apply sanitizeText_chars.
Qed.

(** X28: [sanitizeFIR] changes only the text fields; each of them is
    left without tags and trimmed, and so is the description, which is
    dropped when it is empty.  A record that [validateFIR] accepts after
    sanitizing was acceptable before: sanitizing never repairs a
    record. *)
Theorem sanitizeFIR_fields (now : Z) (fir : FIR.t) :
  let clean := sanitizeFIR fir in
  (FIR.date clean, FIR.time clean, FIR.latitude clean, FIR.longitude clean,
   FIR.isAccident clean, FIR.isSensitiveZone clean)
  = (FIR.date fir, FIR.time fir, FIR.latitude fir, FIR.longitude fir,
     FIR.isAccident fir, FIR.isSensitiveZone fir)
  /\ Forall (fun text => tagFree text /\ trim text = text)
       [FIR.id clean; FIR.crimeType clean; FIR.area clean; FIR.zone clean;
        FIR.policeStation clean]
  /\ match FIR.description clean with
     | Some description =>
         tagFree description /\ trim description = description
         /\ FIR.description fir <> None
     | None =>
         FIR.description fir = None
         \/ FIR.description fir = Some EmptyString
     end
  /\ (Validation.valid (validateFIR now clean) = true ->
      Validation.valid (validateFIR now fir) = true).
Proof.
  intros clean. unfold clean, sanitizeFIR. cbn [FIR.date FIR.time
    FIR.latitude FIR.longitude FIR.isAccident FIR.isSensitiveZone FIR.id
    FIR.crimeType FIR.area FIR.zone FIR.policeStation FIR.description].
  split; [done|]. split; [|split].
  - repeat (constructor;
            [split; [apply sanitizeText_tagFree|apply sanitizeText_trimmed]|]).
    constructor.
  - destruct (FIR.description fir) as [[|c description]|]; cbn [falsy].
    + by right.
    + split; [apply sanitizeText_tagFree|].
      split; [apply sanitizeText_trimmed|done].
    + by left.
  - rewrite !validateFIR_valid_iff. cbn [FIR.date FIR.time FIR.latitude
      FIR.longitude FIR.id FIR.crimeType FIR.area FIR.zone
      FIR.policeStation].
    intros (Hid & Htype & Hdate & Htime & Hlat & Hlng & Harea & Hzone & Hps).
    apply sanitizeText_hasText in Hid, Htype, Harea, Hzone, Hps. done.
Qed.

(** ** CSV files *)

Lemma nonEmpty_trim_parsed (s : option string) (text : string) :
  nonEmpty (trim <$> s) = Some text -> parsedText text.
Proof.
  destruct s as [s|]; [|done]. csimpl.
  destruct (falsy (trim s)) eqn:Hfalsy; [done|]. intros [= <-].
  split; [apply trim_idemp|].
  apply missingText_iff. unfold missingText.
  rewrite trim_idemp, Hfalsy. by destruct (trim s).
Qed.

Lemma includes_iff (headers : list string) (h : string) :
  includes headers h = true <-> h ∈ headers.
Proof.
  unfold includes. rewrite existsb_exists. split.
  - intros (x & Hx & Heq). apply String.eqb_eq in Heq as ->.
    by apply list_elem_of_In.
  - intros Hin. exists h. split; [by apply list_elem_of_In|].
    apply String.eqb_refl.
Qed.

Section CsvParserFacts.
Context (parseFloat : string -> option Q).
Context (newDate : string -> option JSDate.t).

Lemma parseCoordinate_range (bound : Q) (s : option string) (x : Q) :
  parseCoordinate parseFloat bound s = Some x -> (- bound <= x <= bound)%Q.
Proof.
  unfold parseCoordinate.
  destruct (parseFloat _) as [y|]; [|done]. csimpl.
  destruct (Qlt_bool y (- bound) || Qlt_bool bound y) eqn:Hrange; [done|].
  intros [= <-]. by apply Qrange_bools.
Qed.

(** A row that yields a record has passed every check of the parser. *)
Lemma parseFIRRecord_checked (values headers : list string) (rowNumber : nat)
    (record : FIR.t) :
  parseFIRRecord parseFloat newDate values headers rowNumber = inl record ->
  parsedText (FIR.id record) /\ parsedText (FIR.crimeType record)
  /\ parsedText (FIR.time record)
  /\ (-90 <= FIR.latitude record <= 90)%Q
  /\ (-180 <= FIR.longitude record <= 180)%Q
  /\ parsedText (FIR.area record) /\ parsedText (FIR.zone record)
  /\ parsedText (FIR.policeStation record)
  /\ (exists dateStr,
        parsedText dateStr
        /\ parseDate newDate dateStr = Some (FIR.date record))
  /\ (forall description,
        FIR.description record = Some description -> parsedText description).
Proof.
  unfold parseFIRRecord.
  set (data := fillData headers 0 values ∅).
  destruct (nonEmpty (trim <$> data !! "id")) as [id|] eqn:Hid; [|done].
  destruct (nonEmpty (trim <$> data !! "crimetype")) as [crimeType|]
    eqn:Htype; [|done].
  destruct (nonEmpty (trim <$> data !! "date")) as [dateStr|] eqn:Hdate;
    [|done].
  destruct (parseDate newDate dateStr) as [date|] eqn:Hparsed; [|done].
  destruct (nonEmpty (trim <$> data !! "time")) as [time|] eqn:Htime;
    [|done].
  destruct (parseCoordinate parseFloat 90 (data !! "latitude"))
    as [latitude|] eqn:Hlat; [|done].
  destruct (parseCoordinate parseFloat 180 (data !! "longitude"))
    as [longitude|] eqn:Hlng; [|done].
  destruct (nonEmpty (trim <$> data !! "area")) as [area|] eqn:Harea;
    [|done].
  destruct (nonEmpty (trim <$> data !! "zone")) as [zone|] eqn:Hzone;
    [|done].
  destruct (nonEmpty (trim <$> data !! "policestation")) as [policeStation|]
    eqn:Hps; [|done].
  intros [= <-]. cbn [FIR.id FIR.crimeType FIR.time FIR.latitude
    FIR.longitude FIR.area FIR.zone FIR.policeStation FIR.date
    FIR.description].
  apply nonEmpty_trim_parsed in Hid, Htype, Hdate, Htime, Harea, Hzone, Hps.
  apply parseCoordinate_range in Hlat, Hlng.
  split; [done|]. split; [done|]. split; [done|]. split; [done|].
  split; [done|]. split; [done|]. split; [done|]. split; [done|]. split.
  - by exists dateStr.
  - intros description. apply nonEmpty_trim_parsed.
Qed.

Lemma parseLines_spec (headers : list string) (lines : list string) (i : nat)
    (result : ParseResult.t) :
  Forall (fun line => falsy (trim line) = false) lines ->
  let final := parseLines parseFloat newDate headers i lines result in
  ParseResult.records final
  = ParseResult.records result
    ++ omap (recordOfLine parseFloat newDate headers) lines
  /\ (length (ParseResult.records final)
      + length (ParseResult.errors final))%nat
     = (length (ParseResult.records result)
        + length (ParseResult.errors result) + length lines)%nat.
Proof.
  intros Hlines. revert i result.
  induction Hlines as [|line lines Hline _ IH]; intros i result;
    cbn [parseLines omap list_omap length].
  - rewrite app_nil_r. split; [done|lia].
  - destruct (IH (S i) (parseLine parseFloat newDate headers result i line))
      as [IHr IHl].
    cbv zeta. rewrite IHl, IHr. unfold parseLine, recordOfLine.
    rewrite Hline.
    assert (Hrow : parseFIRRecord parseFloat newDate (parseCSVRow line)
                     headers (i + 1)
                   = parseFIRRecord parseFloat newDate (parseCSVRow line)
                       headers 0) by reflexivity.
    rewrite Hrow.
    destruct (parseFIRRecord parseFloat newDate (parseCSVRow line) headers 0)
      as [record|message];
      cbn [ParseResult.records ParseResult.errors].
    + rewrite <- app_assoc, !length_app. cbn [length app]. split; [done|lia].
    + rewrite !length_app. cbn [length]. split; [done|lia].
Qed.

Lemma csvLines_nonblank (csvContent : string) :
  Forall (fun line => falsy (trim line) = false) (csvLines csvContent).
Proof.
  unfold csvLines. apply Forall_forall. intros line Hline.
  apply list_elem_of_In, filter_In in Hline as [_ Hline].
  by apply negb_true_iff in Hline.
Qed.

Lemma parseCSV_wellFormed (csvContent : string) :
  wellFormedCSV csvContent ->
  parseCSV parseFloat newDate csvContent
  = parseLines parseFloat newDate (csvHeaders csvContent) 1
      (csvDataLines csvContent)
      {| ParseResult.records := []; ParseResult.errors := [] |}.
Proof.
  intros (Htext & Hlines & Hheaders). unfold parseCSV.
  apply missingText_iff in Htext. unfold missingText in Htext.
  rewrite Htext. fold (csvLines csvContent).
  rewrite (proj2 (Nat.ltb_ge _ _) Hlines).
  fold (csvHeaders csvContent).
  rewrite (filter_none _ requiredHeaders); [done|].
  apply Forall_forall. intros h Hh. apply negb_false_iff, includes_iff.
  by apply Hheaders.
Qed.

Lemma parseCSV_illFormed (csvContent : string) :
  ~ wellFormedCSV csvContent ->
  ParseResult.records (parseCSV parseFloat newDate csvContent) = []
  /\ length (ParseResult.errors (parseCSV parseFloat newDate csvContent))
     = 1%nat.
Proof.
  intros Hill. unfold parseCSV.
  destruct (falsy csvContent || (String.length (trim csvContent) =? 0)%nat)
    eqn:Htext; [done|].
  fold (csvLines csvContent).
  destruct (length (csvLines csvContent) <? 2)%nat eqn:Hlines; [done|].
  fold (csvHeaders csvContent).
  destruct (0 <? length (List.filter
                           (fun h => negb (includes (csvHeaders csvContent) h))
                           requiredHeaders))%nat eqn:Hmissing; [done|].
  exfalso. apply Hill. split; [by apply missingText_iff|].
  split; [by apply Nat.ltb_ge|].
  intros h Hh. apply includes_iff. apply Nat.ltb_ge in Hmissing.
  destruct (includes (csvHeaders csvContent) h) eqn:Hinc; [done|].
  assert (Hin : In h (List.filter
                        (fun h => negb (includes (csvHeaders csvContent) h))
                        requiredHeaders)).
  { apply filter_In. split; [by apply list_elem_of_In|]. by rewrite Hinc. }
  destruct (List.filter _ requiredHeaders); [done|simpl in Hmissing; lia].
Qed.

(** X29: the outcome of [parseCSV].  A text with some character that is
    not white space, two or more lines that are not blank and every
    required header in its first such line is read row by row: the
    records are those of the rows that pass [parseFIRRecord], in row
    order, and every other row gives one error, blank lines counting for
    nothing.  Any other text gives no record and one error.
    [parseExcel] does the same. *)
Theorem parseCSV_rows (csvContent : string) :
  let result := parseCSV parseFloat newDate csvContent in
  (wellFormedCSV csvContent ->
   ParseResult.records result
   = omap (recordOfLine parseFloat newDate (csvHeaders csvContent))
       (csvDataLines csvContent)
   /\ (length (ParseResult.records result)
       + length (ParseResult.errors result))%nat
      = (length (csvLines csvContent) - 1)%nat)
  /\ (~ wellFormedCSV csvContent ->
      ParseResult.records result = []
      /\ length (ParseResult.errors result) = 1%nat)
  /\ parseExcel parseFloat newDate csvContent = result.
Proof.
  intros result. unfold result. split; [|split; [|done]].
  - intros Hwell. rewrite (parseCSV_wellFormed _ Hwell).
    destruct (parseLines_spec (csvHeaders csvContent)
                (csvDataLines csvContent) 1
                {| ParseResult.records := []; ParseResult.errors := [] |})
      as [Hr Hl].
    { unfold csvDataLines. apply Forall_drop, csvLines_nonblank. }
    cbv zeta in Hr, Hl. rewrite Hl, Hr. split; [done|].
    unfold csvDataLines. rewrite length_drop. done.
  - apply parseCSV_illFormed.
Qed.

Lemma parseCSV_record (csvContent : string) (record : FIR.t) :
  record ∈ ParseResult.records (parseCSV parseFloat newDate csvContent) ->
  exists line,
    line ∈ csvDataLines csvContent
    /\ parseFIRRecord parseFloat newDate (parseCSVRow line)
         (csvHeaders csvContent) 0 = inl record.
Proof.
  intros Hin.
  assert (Hwell : wellFormedCSV csvContent \/ ~ wellFormedCSV csvContent).
  { destruct (ParseResult.records (parseCSV parseFloat newDate csvContent))
      as [|r l] eqn:Hrecords; [by apply elem_of_nil in Hin|].
    left. unfold parseCSV in Hrecords.
    destruct (falsy csvContent
              || (String.length (trim csvContent) =? 0)%nat) eqn:Htext;
      [done|].
    fold (csvLines csvContent) in Hrecords.
    destruct (length (csvLines csvContent) <? 2)%nat eqn:Hlines; [done|].
    fold (csvHeaders csvContent) in Hrecords.
    destruct (0 <? length (List.filter
                             (fun h =>
                                negb (includes (csvHeaders csvContent) h))
                             requiredHeaders))%nat eqn:Hmissing; [done|].
    split; [by apply missingText_iff|]. split; [by apply Nat.ltb_ge|].
    intros h Hh. apply includes_iff. apply Nat.ltb_ge in Hmissing.
    destruct (includes (csvHeaders csvContent) h) eqn:Hinc; [done|].
    assert (Hin' : In h (List.filter
                           (fun h =>
                              negb (includes (csvHeaders csvContent) h))
                           requiredHeaders)).
    { apply filter_In. split; [by apply list_elem_of_In|]. by rewrite Hinc. }
    destruct (List.filter _ requiredHeaders); [done|simpl in Hmissing; lia]. }
  destruct Hwell as [Hwell|Hill].
  - rewrite (parseCSV_wellFormed _ Hwell) in Hin.
    destruct (parseLines_spec (csvHeaders csvContent)
                (csvDataLines csvContent) 1
                {| ParseResult.records := []; ParseResult.errors := [] |})
      as [Hr _].
    { unfold csvDataLines. apply Forall_drop, csvLines_nonblank. }
    cbv zeta in Hr. rewrite Hr in Hin. cbn [ParseResult.records app] in Hin.
    apply list_elem_of_omap in Hin as (line & Hline & Hrecord).
    exists line. split; [done|]. unfold recordOfLine in Hrecord.
    destruct (parseFIRRecord parseFloat newDate (parseCSVRow line)
                (csvHeaders csvContent) 0); [|done].
    by injection Hrecord as ->.
  - destruct (parseCSV_illFormed _ Hill) as [Hnil _].
    rewrite Hnil in Hin. by apply elem_of_nil in Hin.
Qed.

(** X30: every record that [parseCSV] returns has passed the checks that
    [validateFIR] makes on the text fields and on the coordinates: its
    identifier, crime type, area, zone, police station and time are
    trimmed and not empty, its latitude is within [-90, 90] and its
    longitude within [-180, 180].  So [validateFIR] can only object to
    the date being in the future and to the form of the time of day,
    and accepts the record exactly when neither applies. *)
Theorem parseCSV_records_checked (now : Z) (csvContent : string)
    (record : FIR.t) :
  record ∈ ParseResult.records (parseCSV parseFloat newDate csvContent) ->
  Forall parsedText
    [FIR.id record; FIR.crimeType record; FIR.time record; FIR.area record;
     FIR.zone record; FIR.policeStation record]
  /\ (-90 <= FIR.latitude record <= 90)%Q
  /\ (-180 <= FIR.longitude record <= 180)%Q
  /\ Validation.errors (validateFIR now record)
     `sublist_of` ["Date cannot be in the future";
                   "Time must be in HH:MM or HH:MM:SS format"]
  /\ (Validation.valid (validateFIR now record) = true <->
      (JSDate.getTime (FIR.date record) <= now)%Z
      /\ timeFormat (FIR.time record) = true).
Proof.
  intros (line & _ & Hrecord)%parseCSV_record.
  apply parseFIRRecord_checked in Hrecord
    as (Hid & Htype & Htime & Hlat & Hlng & Harea & Hzone & Hps & _ & _).
  split; [repeat (constructor; [done|]); constructor|].
  split; [done|]. split; [done|]. split.
  - unfold validateFIR. cbn [Validation.errors].
    rewrite (proj2 (missingText_iff _) (proj2 Hid)).
    rewrite (proj2 (missingText_iff _) (proj2 Htype)).
    rewrite (proj2 (missingText_iff _) (proj2 Harea)).
    rewrite (proj2 (missingText_iff _) (proj2 Hzone)).
    rewrite (proj2 (missingText_iff _) (proj2 Hps)).
    rewrite (proj2 (Qrange_bools _ _ _) Hlat).
    rewrite (proj2 (Qrange_bools _ _ _) Hlng).
    cbn [pushIf].
    change ["Date cannot be in the future";
            "Time must be in HH:MM or HH:MM:SS format"]
      with ((@nil string ++ ["Date cannot be in the future"])
            ++ ["Time must be in HH:MM or HH:MM:SS format"]).
    by repeat apply pushIf_sublist.
  - rewrite validateFIR_valid_iff.
    destruct Hid, Htype, Harea, Hzone, Hps. tauto.
Qed.

End CsvParserFacts.

Example exampleCSV_wellFormed : wellFormedCSV exampleCSV.
Proof.
  split; [|split].
  - exists "i"%char. split; [by left|reflexivity].
  - vm_compute. lia.
  - apply Forall_forall.
    apply (bool_decide_unpack
             (Forall (fun h => h ∈ csvHeaders exampleCSV) requiredHeaders)).
    vm_compute. reflexivity.
Qed.

Lemma parseCSV_records_checked_witness :
  let record := exampleFIR "FIR001" "14:30" (57 # 2) (57 # 2) in
  record
  ∈ ParseResult.records (parseCSV exampleParseFloat exampleNewDate exampleCSV)
  /\ Validation.valid (validateFIR 1800000000000 record) = true.
Proof.
  intros record.
  assert (Hin : record
                ∈ ParseResult.records
                    (parseCSV exampleParseFloat exampleNewDate exampleCSV)).
  { assert (Hrecords : ParseResult.records
                         (parseCSV exampleParseFloat exampleNewDate
                            exampleCSV)
                       = [record]) by (vm_compute; reflexivity).
    rewrite Hrecords. constructor. }
  split; [exact Hin|].
  apply (parseCSV_records_checked exampleParseFloat exampleNewDate
           1800000000000 exampleCSV record Hin).
  split; [by vm_compute|reflexivity].
Defined.
